(** * Batch AWB tracking: storage, routes and the row loop

    A shallow embedding of [server/tracking.ts], [server/storage.ts],
    [server/routes.ts] and [shared/schema.ts], followed by the properties
    of the job engine that hold (or fail) on that code. *)

From Stdlib Require Import List NArith ZArith QArith Lia Bool String Ascii Arith
  Sorted.
Import ListNotations.

Close Scope Q_scope.

Set Implicit Arguments.

(* ================================================================== *)
(** ** JavaScript strings *)
(* ================================================================== *)

(** A JavaScript string is a sequence of UTF-16 code units. *)
Definition jsstring := list N.

(** String literals of the source, written in ASCII. *)
Definition lit (s : string) : jsstring :=
  map N_of_ascii (list_ascii_of_string s).

Definition jsstring_eqb (a b : jsstring) : bool :=
  if list_eq_dec N.eq_dec a b then true else false.

(** [!s] for a string: only the empty string is falsy. *)
Definition falsy (s : jsstring) : bool :=
  match s with [] => true | _ :: _ => false end.

(** The class [\s] of a regular expression without the [u] flag, which is
    also what [String.prototype.trim] strips: WhiteSpace and
    LineTerminator code points. *)
Definition isWhiteSpace (c : N) : bool :=
  existsb (N.eqb c)
    [9; 10; 11; 12; 13; 32; 160; 5760; 8232; 8233; 8239; 8287; 12288; 65279]%N
  || ((8192 <=? c) && (c <=? 8202))%N.

Fixpoint trimStart (s : jsstring) : jsstring :=
  match s with
  | [] => []
  | c :: s' => if isWhiteSpace c then trimStart s' else s
  end.

Definition trimEnd (s : jsstring) : jsstring := rev (trimStart (rev s)).

Definition trim (s : jsstring) : jsstring := trimEnd (trimStart s).

(** [s.replace(/\s/g, '')]. *)
Definition removeWhiteSpace (s : jsstring) : jsstring :=
  filter (fun c => negb (isWhiteSpace c)) s.

(** [s.split(sep)] for a one-unit separator: always at least one part. *)
Fixpoint split (sep : N) (s : jsstring) : list jsstring :=
  match s with
  | [] => [[]]
  | c :: s' =>
      if (c =? sep)%N then [] :: split sep s'
      else match split sep s' with
           | p :: ps => (c :: p) :: ps
           | [] => [[c]]
           end
  end.

Fixpoint startsWith (s p : jsstring) : bool :=
  match p, s with
  | [], _ => true
  | _ :: _, [] => false
  | x :: p', c :: s' => (c =? x)%N && startsWith s' p'
  end.

(** [s.includes(sub)]. *)
Fixpoint includes (s sub : jsstring) : bool :=
  startsWith s sub ||
  match s with
  | [] => false
  | _ :: s' => includes s' sub
  end.

(** [s.endsWith(suffix)]. *)
Definition endsWith (s suffix : jsstring) : bool :=
  startsWith (rev s) (rev suffix).

Fixpoint uint_units (d : Decimal.uint) : jsstring :=
  match d with
  | Decimal.Nil => []
  | Decimal.D0 d => 48%N :: uint_units d
  | Decimal.D1 d => 49%N :: uint_units d
  | Decimal.D2 d => 50%N :: uint_units d
  | Decimal.D3 d => 51%N :: uint_units d
  | Decimal.D4 d => 52%N :: uint_units d
  | Decimal.D5 d => 53%N :: uint_units d
  | Decimal.D6 d => 54%N :: uint_units d
  | Decimal.D7 d => 55%N :: uint_units d
  | Decimal.D8 d => 56%N :: uint_units d
  | Decimal.D9 d => 57%N :: uint_units d
  end.

(** A non-negative integer inside a template literal: its decimal digits. *)
Definition numToString (n : nat) : jsstring := uint_units (Nat.to_uint n).

(* ================================================================== *)
(** ** tracking.ts: splitMAWB *)
(* ================================================================== *)

Definition hyphen : N := 45.
Definition space : N := 32.

(** [\d]. *)
Definition isDigit (c : N) : bool := ((48 <=? c) && (c <=? 57))%N.

(** [[- ]]. *)
Definition isSep (c : N) : bool := ((c =? hyphen) || (c =? space))%N.

(** [\d{n}] at the front of [s]: the digits and what follows them. *)
Fixpoint takeDigits (n : nat) (s : jsstring) : option (jsstring * jsstring) :=
  match n with
  | O => Some ([], s)
  | S n' =>
      match s with
      | c :: s' =>
          if isDigit c then
            match takeDigits n' s' with
            | Some (d, r) => Some (c :: d, r)
            | None => None
            end
          else None
      | [] => None
      end
  end.

(** [/(\d{3})[- ]?(\d{8})/] tried at the front of [s]: the optional
    separator is greedy, and the matcher backtracks to the empty
    separator when the eight digits do not follow it. *)
Definition matchAt (s : jsstring) : option (jsstring * jsstring) :=
  match takeDigits 3 s with
  | None => None
  | Some (p, r) =>
      let without :=
        match takeDigits 8 r with
        | Some (n, _) => Some (p, n)
        | None => None
        end in
      match r with
      | c :: r' =>
          if isSep c then
            match takeDigits 8 r' with
            | Some (n, _) => Some (p, n)
            | None => without
            end
          else without
      | [] => without
      end
  end.

(** [mawb.match(regex)]: the leftmost position where the pattern matches;
    the two capture groups. *)
Fixpoint regexMatch (s : jsstring) : option (jsstring * jsstring) :=
  match matchAt s with
  | Some g => Some g
  | None =>
      match s with
      | [] => None
      | _ :: s' => regexMatch s'
      end
  end.

(** [splitMAWB]: the pair is the object [{ prefix, awbNo }]. *)
Definition splitMAWB (mawb : jsstring) : jsstring * jsstring :=
  let mawb := removeWhiteSpace (trim mawb) in
  let parts := split hyphen mawb in
  match parts with
  | [p; a] => (p, a)
  | _ =>
      match regexMatch mawb with
      | Some (p, a) => (p, a)
      | None => ([], [])
      end
  end.

(* ================================================================== *)
(** ** shared/schema.ts *)
(* ================================================================== *)

(** A [Date]: milliseconds since the epoch. *)
Definition Date := Z.

Module User.
Record t := mk {
  id : nat;
  username : jsstring;
  password : jsstring
}.
End User.

Module InsertUser.
Record t := mk {
  username : jsstring;
  password : jsstring
}.
End InsertUser.

(** [insertTrackResultSchema]: the row of [track_results] without [id]
    and [createdAt].  The columns after [awbNo] are nullable text. *)
Module InsertTrackResult.
Record t := mk {
  mawb : jsstring;
  prefix : jsstring;
  awbNo : jsstring;
  status : option jsstring;
  origin : option jsstring;
  dest : option jsstring;
  pcs : option jsstring;
  grossWt : option jsstring;
  lastAct : option jsstring;
  lastActDt : option jsstring;
  doUrl : option jsstring
}.
End InsertTrackResult.

(** A row of [track_results].  The table has no column that names a job. *)
Module TrackResult.
Record t := mk {
  id : nat;
  mawb : jsstring;
  prefix : jsstring;
  awbNo : jsstring;
  status : option jsstring;
  origin : option jsstring;
  dest : option jsstring;
  pcs : option jsstring;
  grossWt : option jsstring;
  lastAct : option jsstring;
  lastActDt : option jsstring;
  doUrl : option jsstring;
  createdAt : Date
}.
End TrackResult.

(** [trackJobStatus]. *)
Inductive TrackJobStatus :=
  | pending | processing | completed | failed | cancelled | paused.


Module InsertTrackJob.
Record t := mk {
  filename : jsstring;
  totalCount : nat
}.
End InsertTrackJob.

Module TrackJob.
Record t := mk {
  id : nat;
  filename : jsstring;
  totalCount : nat;
  processedCount : nat;
  status : TrackJobStatus;
  createdAt : Date;
  updatedAt : Date
}.
End TrackJob.

(* ================================================================== *)
(** ** storage.ts: MemStorage *)
(* ================================================================== *)

(** A JavaScript [Map] with numeric keys: entries in insertion order;
    [set] on a key already present replaces the value where it stands. *)
Definition JsMap (V : Type) := list (nat * V).

Fixpoint map_get {V} (m : JsMap V) (k : nat) : option V :=
  match m with
  | [] => None
  | (k', v) :: m' => if k =? k' then Some v else map_get m' k
  end.

Fixpoint map_set {V} (m : JsMap V) (k : nat) (v : V) : JsMap V :=
  match m with
  | [] => [(k, v)]
  | (k', v') :: m' =>
      if k =? k' then (k, v) :: m' else (k', v') :: map_set m' k v
  end.

(** [Array.from(m.values())]. *)
Definition map_values {V} (m : JsMap V) : list V := map snd m.

Definition map_keys {V} (m : JsMap V) : list nat := map fst m.

Record MemStorage := mkStorage {
  users : JsMap User.t;
  trackResults : JsMap TrackResult.t;
  trackJobs : JsMap TrackJob.t;
  currentUserId : nat;
  currentTrackResultId : nat;
  currentTrackJobId : nat
}.

(** [new MemStorage()]. *)
Definition newMemStorage : MemStorage :=
  mkStorage [] [] [] 1 1 1.

(** An [Error] object: its [name] and its [message]. *)
Record JsError := mkError {
  name : jsstring;
  message : jsstring
}.

Definition newError (message : jsstring) : JsError :=
  mkError (lit "Error") message.

(** An error interpolated into a template literal
    ([Error.prototype.toString]). *)
Definition errorToString (e : JsError) : jsstring :=
  if falsy (name e) then message e
  else if falsy (message e) then name e
  else name e ++ lit ": " ++ message e.

(** What an operation that may throw (or a promise that may reject)
    yields: its value, or the error. *)
Inductive outcome (A : Type) :=
  | Ok (a : A)
  | Throw (e : JsError).
Arguments Ok {A} a.
Arguments Throw {A} e.

Definition getUser (id : nat) (st : MemStorage) : option User.t :=
  map_get (users st) id.

Definition getUserByUsername (username : jsstring) (st : MemStorage)
  : option User.t :=
  find (fun user => jsstring_eqb (User.username user) username)
       (map_values (users st)).

Definition createUser (insertUser : InsertUser.t) (st : MemStorage)
  : User.t * MemStorage :=
  let id := currentUserId st in
  let user := User.mk id (InsertUser.username insertUser)
                      (InsertUser.password insertUser) in
  (user,
   mkStorage (map_set (users st) id user) (trackResults st) (trackJobs st)
             (S id) (currentTrackResultId st) (currentTrackJobId st)).

(** [createTrackResult]; [now] is the value of [new Date()]. *)
Definition createTrackResult (now : Date) (insertResult : InsertTrackResult.t)
  (st : MemStorage) : TrackResult.t * MemStorage :=
  let id := currentTrackResultId st in
  let result :=
    TrackResult.mk id
      (InsertTrackResult.mawb insertResult)
      (InsertTrackResult.prefix insertResult)
      (InsertTrackResult.awbNo insertResult)
      (InsertTrackResult.status insertResult)
      (InsertTrackResult.origin insertResult)
      (InsertTrackResult.dest insertResult)
      (InsertTrackResult.pcs insertResult)
      (InsertTrackResult.grossWt insertResult)
      (InsertTrackResult.lastAct insertResult)
      (InsertTrackResult.lastActDt insertResult)
      (InsertTrackResult.doUrl insertResult)
      now in
  (result,
   mkStorage (users st) (map_set (trackResults st) id result) (trackJobs st)
             (currentUserId st) (S id) (currentTrackJobId st)).

(** [getTrackResultsByJob]: the body does not use [jobId]. *)
Definition getTrackResultsByJob (jobId : nat) (st : MemStorage)
  : list TrackResult.t :=
  map_values (trackResults st).

Definition createTrackJob (now : Date) (insertJob : InsertTrackJob.t)
  (st : MemStorage) : TrackJob.t * MemStorage :=
  let id := currentTrackJobId st in
  let job :=
    TrackJob.mk id
      (InsertTrackJob.filename insertJob)
      (InsertTrackJob.totalCount insertJob)
      0 pending now now in
  (job,
   mkStorage (users st) (trackResults st) (map_set (trackJobs st) id job)
             (currentUserId st) (currentTrackResultId st) (S id)).

Definition getTrackJob (id : nat) (st : MemStorage) : option TrackJob.t :=
  map_get (trackJobs st) id.

Definition getTrackJobs (st : MemStorage) : list TrackJob.t :=
  map_values (trackJobs st).

Definition setTrackJob (id : nat) (job : TrackJob.t) (st : MemStorage)
  : MemStorage :=
  mkStorage (users st) (trackResults st) (map_set (trackJobs st) id job)
            (currentUserId st) (currentTrackResultId st)
            (currentTrackJobId st).

Definition notFound (id : nat) : JsError :=
  newError (lit "Track job with id " ++ numToString id ++ lit " not found").

Definition updateTrackJobStatus (now : Date) (id : nat)
  (status : TrackJobStatus) (st : MemStorage)
  : outcome (TrackJob.t * MemStorage) :=
  match getTrackJob id st with
  | None => Throw (notFound id)
  | Some job =>
      let updatedJob :=
        TrackJob.mk (TrackJob.id job) (TrackJob.filename job)
          (TrackJob.totalCount job) (TrackJob.processedCount job)
          status (TrackJob.createdAt job) now in
      Ok (updatedJob, setTrackJob id updatedJob st)
  end.

Definition updateTrackJobProgress (now : Date) (id : nat)
  (processedCount : nat) (st : MemStorage)
  : outcome (TrackJob.t * MemStorage) :=
  match getTrackJob id st with
  | None => Throw (notFound id)
  | Some job =>
      let updatedJob :=
        TrackJob.mk (TrackJob.id job) (TrackJob.filename job)
          (TrackJob.totalCount job) processedCount
          (TrackJob.status job) (TrackJob.createdAt job) now in
      Ok (updatedJob, setTrackJob id updatedJob st)
  end.

(* ================================================================== *)
(** ** tracking.ts: the messages broadcast to the viewers *)
(* ================================================================== *)

Inductive LogLevel := info | success | warn | error.

(** The object literals handed to [broadcastMessage], by their [type]. *)
Inductive Message :=
  | log (text : jsstring) (level : LogLevel)
  | result (data : InsertTrackResult.t)
  | progress (current total : nat)
  | complete (text : jsstring).

(** [messageWithJobId]. *)
Record Broadcast := mkBroadcast {
  jobId : nat;
  payload : Message
}.

(** A JavaScript number, as far as the code compares it. *)
Inductive JsNumber :=
  | NaN
  | Finite (q : Q)
  | Infinity (negative : bool).

(** What the job engine reads and writes: the storage singleton, the
    messages handed to the socket server so far, and the wall clock that
    [new Date()] reads. *)
Record World := mkWorld {
  store : MemStorage;
  broadcasts : list Broadcast;
  now : Date
}.

Definition withStore (w : World) (st : MemStorage) : World :=
  mkWorld st (broadcasts w) (now w).

(** [broadcastMessage]: nothing happens without a socket server;
    otherwise the message, tagged with the job id, goes to every open
    client.  The trace keeps what was sent, not who was listening. *)
Definition broadcastMessage (wss : bool) (jobId : nat) (m : Message)
  (w : World) : World :=
  if wss then mkWorld (store w) (broadcasts w ++ [mkBroadcast jobId m]) (now w)
  else w.

(* ================================================================== *)
(** ** tracking.ts: processCSVFile and processExcelFile *)
(* ================================================================== *)

(** [Partial<TrackResult>] as [trackAWB] resolves it. *)
Module PartialTrackResult.
Record t := mk {
  status : option jsstring;
  origin : option jsstring;
  dest : option jsstring;
  pcs : option jsstring;
  grossWt : option jsstring;
  lastAct : option jsstring;
  lastActDt : option jsstring;
  doUrl : option jsstring
}.
End PartialTrackResult.

(** A decoded row: its own properties in the order of [Object.keys],
    each cell already a string. *)
Definition Record_ := list (jsstring * jsstring).

Fixpoint record_get (record : Record_) (key : jsstring) : option jsstring :=
  match record with
  | [] => None
  | (k, v) :: record' =>
      if jsstring_eqb k key then Some v else record_get record' key
  end.

(** The capabilities the server calls and does not implement.
    [trackAWB row prefix awbNo] is how the lookup made for the given row
    settles; [toUpperCase] and [toLowerCase] are the methods of
    [String.prototype]; [extname] is [path.extname]. *)
Record Externals := mkExternals {
  trackAWB : nat -> jsstring -> jsstring -> outcome PartialTrackResult.t;
  toUpperCase : jsstring -> jsstring;
  toLowerCase : jsstring -> jsstring;
  extname : jsstring -> jsstring
}.

Inductive FileKind := CSV | Excel.

(** The constants of one call of [processCSVFile] / [processExcelFile]. *)
Record Ctx := mkCtx {
  kind : FileKind;
  job : nat;
  delay : JsNumber;
  wss : bool;
  mawbKey : jsstring;
  totalCount : nat
}.

(** Where a call stands between two turns of the event loop.  Awaiting a
    storage method yields to no other task; awaiting the lookup or the
    timer does. *)
Inductive Task :=
  | AwaitTrackAWB (c : Ctx) (rest : list Record_) (processedCount : nat)
                  (mawb prefix awbNo : jsstring)
  | AwaitDelay (c : Ctx) (rest : list Record_) (processedCount : nat)
  | Returned (processedCount : nat)
  | Thrown (e : JsError).

(** [x || ''] for an optional string. *)
Definition orEmpty (x : option jsstring) : jsstring :=
  match x with
  | Some s => s
  | None => []
  end.

(** [mawb.trim()] on an [undefined] cell. *)
Definition undefinedError : JsError :=
  mkError (lit "TypeError")
    (lit "Cannot read properties of undefined (reading 'trim')").

(** [Object.keys(records[0])] on an empty file. *)
Definition noFirstRowError : JsError :=
  mkError (lit "TypeError") (lit "Cannot convert undefined or null to object").

(** The cell of the identifier column, as each loop reads it. *)
Definition cellOf (c : Ctx) (record : Record_) : outcome jsstring :=
  match kind c with
  | CSV =>
      match record_get record (mawbKey c) with
      | Some mawb => Ok mawb
      | None => Throw undefinedError
      end
  | Excel => Ok (orEmpty (record_get record (mawbKey c)))
  end.

Definition rowTag (processedCount : nat) : jsstring :=
  lit "[Row " ++ numToString processedCount ++ lit "] ".

(** The outer [catch]: mark the job failed, rethrow. *)
Definition failJob (jobId : nat) (e : JsError) (w : World) : Task * World :=
  match updateTrackJobStatus (now w) jobId failed (store w) with
  | Ok (_, st) => (Thrown e, withStore w st)
  | Throw e' => (Thrown e', w)
  end.

(** After the [for] loop. *)
Definition finish (c : Ctx) (processedCount : nat) (w : World)
  : Task * World :=
  match updateTrackJobStatus (now w) (job c) completed (store w) with
  | Throw e => failJob (job c) e w
  | Ok (_, st) =>
      (Returned processedCount,
       broadcastMessage (wss c) (job c)
         (complete (lit "Tracking completed. Processed "
                    ++ numToString processedCount ++ lit " records."))
         (withStore w st))
  end.

(** The [for] loop from the top of an iteration up to the next lookup:
    a row whose identifier does not split is logged and left by
    [continue]. *)
Fixpoint visitRows (c : Ctx) (records : list Record_) (processedCount : nat)
  (w : World) : Task * World :=
  match records with
  | [] => finish c processedCount w
  | record :: rest =>
      let processedCount := S processedCount in
      match cellOf c record with
      | Throw e => failJob (job c) e w
      | Ok mawb =>
          let '(prefix, awbNo) := splitMAWB mawb in
          if falsy prefix || falsy awbNo then
            visitRows c rest processedCount
              (broadcastMessage (wss c) (job c)
                 (log (rowTag processedCount
                       ++ lit "Skipping invalid MAWB: " ++ mawb) warn) w)
          else
            (AwaitTrackAWB c rest processedCount mawb prefix awbNo,
             broadcastMessage (wss c) (job c)
               (log (rowTag processedCount ++ lit "Tracking MAWB: " ++ mawb
                     ++ lit " (prefix: " ++ prefix ++ lit ", awbno: "
                     ++ awbNo ++ lit ")") info) w)
      end
  end.

Definition toInsert (mawb prefix awbNo : jsstring)
  (r : PartialTrackResult.t) : InsertTrackResult.t :=
  InsertTrackResult.mk mawb prefix awbNo
    (Some (orEmpty (PartialTrackResult.status r)))
    (Some (orEmpty (PartialTrackResult.origin r)))
    (Some (orEmpty (PartialTrackResult.dest r)))
    (Some (orEmpty (PartialTrackResult.pcs r)))
    (Some (orEmpty (PartialTrackResult.grossWt r)))
    (Some (orEmpty (PartialTrackResult.lastAct r)))
    (Some (orEmpty (PartialTrackResult.lastActDt r)))
    (Some (orEmpty (PartialTrackResult.doUrl r))).

(** The inner [try]/[catch] once the lookup has settled. *)
Definition settleRow (c : Ctx) (processedCount : nat)
  (mawb prefix awbNo : jsstring) (settled : outcome PartialTrackResult.t)
  (w : World) : World :=
  match settled with
  | Ok r =>
      let trackResult := toInsert mawb prefix awbNo r in
      let '(_, st) := createTrackResult (now w) trackResult (store w) in
      let w := withStore w st in
      let w := broadcastMessage (wss c) (job c)
                 (log (rowTag processedCount ++ lit "Success: " ++ mawb)
                      success) w in
      broadcastMessage (wss c) (job c) (result trackResult) w
  | Throw e =>
      broadcastMessage (wss c) (job c)
        (log (rowTag processedCount ++ lit "Error tracking " ++ mawb
              ++ lit ": " ++ errorToString e) error) w
  end.

(** From the lookup settling to the timer being set. *)
Definition afterTrackAWB (ext : Externals) (c : Ctx) (rest : list Record_)
  (processedCount : nat) (mawb prefix awbNo : jsstring) (w : World)
  : Task * World :=
  let w := settleRow c processedCount mawb prefix awbNo
             (trackAWB ext processedCount prefix awbNo) w in
  match updateTrackJobProgress (now w) (job c) processedCount (store w) with
  | Throw e => failJob (job c) e w
  | Ok (_, st) =>
      (AwaitDelay c rest processedCount,
       broadcastMessage (wss c) (job c)
         (progress processedCount (totalCount c)) (withStore w st))
  end.

(** One turn of the event loop given to the call. *)
Definition advance (ext : Externals) (t : Task) (w : World) : Task * World :=
  match t with
  | AwaitTrackAWB c rest processedCount mawb prefix awbNo =>
      afterTrackAWB ext c rest processedCount mawb prefix awbNo w
  | AwaitDelay c rest processedCount => visitRows c rest processedCount w
  | Returned _ | Thrown _ => (t, w)
  end.

(** The first header that contains MAWB, case-insensitively. *)
Definition findMawb (ext : Externals) (headers : list jsstring)
  : option jsstring :=
  find (fun h => includes (toUpperCase ext h) (lit "MAWB")) headers.

Definition beginLoop (c : Ctx) (records : list Record_) (w : World)
  : Task * World :=
  match updateTrackJobStatus (now w) (job c) processing (store w) with
  | Throw e => failJob (job c) e w
  | Ok (_, st) => visitRows c records 0 (withStore w st)
  end.

(** [processCSVFile] up to its first lookup; [decoded] is what
    [parse(csvText, ...)] gives on the buffer. *)
Definition processCSVFile (ext : Externals)
  (decoded : outcome (list Record_)) (jobId : nat) (delay : JsNumber)
  (wss : bool) (w : World) : Task * World :=
  match decoded with
  | Throw e => failJob jobId e w
  | Ok records =>
      match records with
      | [] => failJob jobId noFirstRowError w
      | first :: _ =>
          match findMawb ext (map fst first) with
          | None =>
              failJob jobId (newError (lit "MAWB column not found in CSV")) w
          | Some key =>
              beginLoop (mkCtx CSV jobId delay wss key (List.length records))
                        records w
          end
      end
  end.

(** [processExcelFile] up to its first lookup; [decoded] is what
    [XLSX.read] and [sheet_to_json] give on the buffer. *)
Definition processExcelFile (ext : Externals)
  (decoded : outcome (list Record_)) (jobId : nat) (delay : JsNumber)
  (wss : bool) (w : World) : Task * World :=
  match decoded with
  | Throw e => failJob jobId e w
  | Ok records =>
      let key :=
        match records with
        | [] => []
        | firstRow :: _ => orEmpty (findMawb ext (map fst firstRow))
        end in
      if falsy key then
        failJob jobId (newError (lit "MAWB column not found in Excel")) w
      else
        beginLoop (mkCtx Excel jobId delay wss key (List.length records)) records w
  end.

(* ================================================================== *)
(** ** routes.ts *)
(* ================================================================== *)

(** [z.enum(["pause", "resume", "cancel"])]. *)
Inductive Action := pause | resume | cancel.

Definition actionName (a : Action) : jsstring :=
  match a with
  | pause => lit "pause"
  | resume => lit "resume"
  | cancel => lit "cancel"
  end.

(** The issues of a [ZodError]; its message is their rendering. *)
Inductive ZodIssue := invalid_type | too_small | too_big | invalid_enum_value.

Inductive ResponseBody :=
  | MessageBody (text : jsstring)
  | ZodBody (issues : list ZodIssue)
  | UncaughtBody (e : JsError)
  | ControlBody (job : TrackJob.t) (text : jsstring)
  | FileBody (jobId : nat) (text : jsstring)
  | ResultsBody (results : list TrackResult.t).

Record Response := mkResponse {
  statusCode : nat;
  body : ResponseBody
}.

(** [POST /api/track/jobs/:id/control].  [idParam] is
    [parseInt(req.params.id)], [None] for NaN; [action] is what the
    schema makes of the body: the action, or the issue it raises when
    the field is missing or not one of the three words. *)
Record ControlRequest := mkControl {
  idParam : option nat;
  action : Action + ZodIssue
}.

(** The [switch] of the control handler. *)
Definition newStatus (a : Action) : TrackJobStatus :=
  match a with
  | pause => paused
  | resume => processing
  | cancel => cancelled
  end.

Definition controlRoute (now : Date) (req : ControlRequest) (st : MemStorage)
  : Response * MemStorage :=
  match idParam req with
  | None => (mkResponse 400 (MessageBody (lit "Invalid job ID")), st)
  | Some jobId =>
      match action req with
      | inr issue => (mkResponse 400 (ZodBody [issue]), st)
      | inl a =>
          match getTrackJob jobId st with
          | None => (mkResponse 404 (MessageBody (lit "Job not found")), st)
          | Some _ =>
              match updateTrackJobStatus now jobId (newStatus a) st with
              | Throw e => (mkResponse 400 (MessageBody (message e)), st)
              | Ok (updatedJob, st') =>
                  (mkResponse 200
                     (ControlBody updatedJob
                        (lit "Job " ++ actionName a ++ lit "d successfully")),
                   st')
              end
          end
      end
  end.

(** [GET /api/track/results/:jobId]. *)
Definition resultsRoute (jobIdParam : option nat) (st : MemStorage)
  : Response :=
  match jobIdParam with
  | None => mkResponse 400 (MessageBody (lit "Invalid job ID"))
  | Some jobId => mkResponse 200 (ResultsBody (getTrackResultsByJob jobId st))
  end.

(** The file part of the request: the name, the MIME type, the number
    of bytes, and what each decoder gives on the buffer. *)
Record UploadedFile := mkFile {
  originalname : jsstring;
  mimetype : jsstring;
  size : N;
  asCSV : outcome (list Record_);
  asExcel : outcome (list Record_)
}.

(** The request of an upload.  [file] is [None] when the form has no
    file part; [delayField] is [None] when the body has no [delay], and
    otherwise the number it coerces to. *)
Record FileRequest := mkFileRequest {
  file : option UploadedFile;
  delayField : option JsNumber
}.

(** [z.coerce.number().min(50).max(1000).default(100)]: the two bounds
    are checks that fail the parse, each with its own issue. *)
Definition parseDelay (field : option JsNumber)
  : JsNumber + list ZodIssue :=
  match field with
  | None => inl (Finite 100)
  | Some NaN => inr [invalid_type]
  | Some (Finite q) =>
      if Qle_bool 50 q then
        if Qle_bool q 1000 then inl (Finite q) else inr [too_big]
      else inr [too_small]
  | Some (Infinity false) => inr [too_big]
  | Some (Infinity true) => inr [too_small]
  end.

(** The [catch] around the background call. *)
Definition guarded (jobId : nat) (r : Task * World) : Task * World :=
  match r with
  | (Thrown e, w) =>
      match updateTrackJobStatus (now w) jobId failed (store w) with
      | Ok (_, st) => (Thrown e, withStore w st)
      | Throw _ => (Thrown e, w)
      end
  | _ => r
  end.

Definition allowedExtensions : list jsstring :=
  [lit ".csv"; lit ".xlsx"; lit ".xls"].

(** The [fileFilter] of the upload middleware. *)
Definition fileFilter (ext : Externals) (originalname : jsstring)
  : outcome unit :=
  let e := toLowerCase ext (extname ext originalname) in
  if existsb (jsstring_eqb e) allowedExtensions then Ok tt
  else Throw (newError (lit "Only CSV and Excel files are allowed")).

(** [limits.fileSize]: 10 MB. *)
Definition fileSizeLimit : N := 10 * 1024 * 1024.

(** [upload.single('file')] on a request that carries a file: the filter
    is asked when the file part begins, the limit is met while its bytes
    are read. *)
Definition uploadSingle (ext : Externals) (f : UploadedFile) : outcome unit :=
  match fileFilter ext (originalname f) with
  | Throw e => Throw e
  | Ok _ =>
      if (fileSizeLimit <? size f)%N
      then Throw (mkError (lit "MulterError") (lit "File too large"))
      else Ok tt
  end.

(** [POST /api/track/file].  An error of the middleware never reaches
    the handler: it is left to the error handling of the application,
    which answers 500.  The handler answers once the job record exists;
    the task it started is returned beside the response, stopped at its
    first lookup. *)
Definition trackFileRoute (ext : Externals) (req : FileRequest) (w : World)
  : Response * World * option Task :=
  match file req with
  | None => (mkResponse 400 (MessageBody (lit "No file uploaded")), w, None)
  | Some f =>
      match uploadSingle ext f with
      | Throw e => (mkResponse 500 (UncaughtBody e), w, None)
      | Ok _ =>
          match parseDelay (delayField req) with
          | inr issues => (mkResponse 400 (ZodBody issues), w, None)
          | inl delay =>
              let job := InsertTrackJob.mk (originalname f) 0 in
              let '(createdJob, st) := createTrackJob (now w) job (store w) in
              let w := withStore w st in
              let id := TrackJob.id createdJob in
              let '(t, w) :=
                guarded id
                  (if jsstring_eqb (mimetype f) (lit "text/csv")
                      || endsWith (originalname f) (lit ".csv")
                   then processCSVFile ext (asCSV f) id delay true w
                   else processExcelFile ext (asExcel f) id delay true w) in
              (mkResponse 200 (FileBody id (lit "File processing started")),
               w, Some t)
          end
      end
  end.

(* ================================================================== *)
(** ** The event loop: a background task and the requests around it *)
(* ================================================================== *)

Definition taskJob (t : Task) : option nat :=
  match t with
  | AwaitTrackAWB c _ _ _ _ _ | AwaitDelay c _ _ => Some (job c)
  | Returned _ | Thrown _ => None
  end.

(** A turn given to a task that a route started. *)
Definition advanceBackground (ext : Externals) (t : Task) (w : World)
  : Task * World :=
  match taskJob t with
  | Some id => guarded id (advance ext t w)
  | None => (t, w)
  end.

(** What may happen between two suspensions of the task while it is the
    only upload in progress: the task is resumed, a control request is
    served, or time passes.  [SharedTurn] below adds the turns of other
    uploads. *)
Inductive Turn :=
  | Resume
  | ControlTurn (req : ControlRequest)
  | ClockTurn (d : Date).

Definition step (ext : Externals) (s : Task * World) (turn : Turn)
  : Task * World :=
  let '(t, w) := s in
  match turn with
  | Resume => advanceBackground ext t w
  | ControlTurn req =>
      (t, withStore w (snd (controlRoute (now w) req (store w))))
  | ClockTurn d => (t, mkWorld (store w) (broadcasts w) d)
  end.

Definition run (ext : Externals) (turns : list Turn) (s : Task * World)
  : Task * World :=
  fold_left (step ext) turns s.

(** The persisted record of a job. *)
Definition jobOf (id : nat) (w : World) : option TrackJob.t :=
  getTrackJob id (store w).

(* ================================================================== *)
(** ** Fixtures: a lookup stub and small inputs *)
(* ================================================================== *)

(** [toUpperCase] on the ASCII letters. *)
Definition asciiUpper (s : jsstring) : jsstring :=
  map (fun c => if ((97 <=? c) && (c <=? 122))%N then (c - 32)%N else c) s.

Definition fixedRecord : PartialTrackResult.t :=
  PartialTrackResult.mk (Some (lit "Delivered")) (Some (lit "KUL"))
    (Some (lit "DEL")) (Some (lit "4")) (Some (lit "120")) None None None.

(** [toLowerCase] on the ASCII letters. *)
Definition asciiLower (s : jsstring) : jsstring :=
  map (fun c => if ((65 <=? c) && (c <=? 90))%N then (c + 32)%N else c) s.

(** The part of [s] from its last dot on, if it has a dot. *)
Fixpoint fromLastDot (s : jsstring) : option jsstring :=
  match s with
  | [] => None
  | c :: s' =>
      match fromLastDot s' with
      | Some e => Some e
      | None => if (c =? 46)%N then Some s else None
      end
  end.

(** [path.extname] on a file name without a directory part: from the
    last dot on, unless that dot is the first character. *)
Definition baseExtname (s : jsstring) : jsstring :=
  match s with
  | [] => []
  | _ :: s' => orEmpty (fromLastDot s')
  end.

(** Every lookup resolves with the same record. *)
Definition stub : Externals :=
  mkExternals (fun _ _ _ => Ok fixedRecord) asciiUpper asciiLower baseExtname.

Definition timeoutError : JsError :=
  mkError (lit "FetchError") (lit "network timeout").

(** The lookup made for row [k] rejects; the others resolve. *)
Definition failingAt (k : nat) : Externals :=
  mkExternals
    (fun row _ _ => if row =? k then Throw timeoutError else Ok fixedRecord)
    asciiUpper asciiLower baseExtname.

(** A one-column row. *)
Definition row (v : string) : Record_ := [(lit "MAWB No", lit v)].

Definition csvFile (rows : list Record_) : UploadedFile :=
  mkFile (lit "batch.csv") (lit "text/csv") 4096 (Ok rows)
    (Throw (newError (lit "not a workbook"))).

Definition upload (rows : list Record_) : FileRequest :=
  mkFileRequest (Some (csvFile rows)) None.

Definition world0 : World := mkWorld newMemStorage [] 0%Z.

(** Upload a file, then let the event loop take the given turns. *)
Definition uploadThen (ext : Externals) (rows : list Record_)
  (turns : list Turn) (w : World) : Task * World :=
  match trackFileRoute ext (upload rows) w with
  | (_, w', Some t) => run ext turns (t, w')
  | (_, w', None) => (Thrown (newError (lit "upload refused")), w')
  end.

Definition control (id : nat) (a : Action) : Turn :=
  ControlTurn (mkControl (Some id) (inl a)).

Definition isProgress (b : Broadcast) : bool :=
  match payload b with progress _ _ => true | _ => false end.

Definition isResult (b : Broadcast) : bool :=
  match payload b with result _ => true | _ => false end.

Definition isComplete (b : Broadcast) : bool :=
  match payload b with complete _ => true | _ => false end.

Definition forJob (id : nat) (b : Broadcast) : bool := jobId b =? id.

(** A job that has run to the end, in an otherwise empty store. *)
Definition doneJob : TrackJob.t :=
  TrackJob.mk 1 (lit "batch.csv") 0 3 completed 10%Z 20%Z.

Definition doneStore : MemStorage :=
  mkStorage [] [] [(1, doneJob)] 1 1 2.

(* ================================================================== *)
(** ** Vocabulary of the statements *)
(* ================================================================== *)

(** The job after [updateTrackJobStatus]. *)
Definition withStatus (now : Date) (s : TrackJobStatus) (j : TrackJob.t)
  : TrackJob.t :=
  TrackJob.mk (TrackJob.id j) (TrackJob.filename j) (TrackJob.totalCount j)
    (TrackJob.processedCount j) s (TrackJob.createdAt j) now.

(** The job after [updateTrackJobProgress]. *)
Definition withProgress (now : Date) (n : nat) (j : TrackJob.t)
  : TrackJob.t :=
  TrackJob.mk (TrackJob.id j) (TrackJob.filename j) (TrackJob.totalCount j)
    n (TrackJob.status j) (TrackJob.createdAt j) now.

(** What [setTrackJob] leaves alone. *)
Definition sameButJob (id : nat) (st st' : MemStorage) : Prop :=
  (forall other, other <> id -> getTrackJob other st' = getTrackJob other st)
  /\ map_keys (trackJobs st') = map_keys (trackJobs st)
  /\ trackResults st' = trackResults st
  /\ users st' = users st
  /\ currentUserId st' = currentUserId st
  /\ currentTrackResultId st' = currentTrackResultId st
  /\ currentTrackJobId st' = currentTrackJobId st.


(** [d] is exactly [n] decimal digits. *)
Definition digits (n : nat) (d : jsstring) : Prop :=
  List.length d = n /\ Forall (fun c => isDigit c = true) d.

(** The pattern "three digits, an optional hyphen or space, eight digits"
    matches at the front of [s], with groups [p] and [n]. *)
Definition MatchesAt (s p n : jsstring) : Prop :=
  exists sep rest,
    s = p ++ sep ++ n ++ rest /\ digits 3 p /\ digits 8 n
    /\ (sep = [] \/ sep = [hyphen] \/ sep = [space]).

Definition MatchesNowhere (m : jsstring) : Prop :=
  forall pre s p n, m = pre ++ s -> ~ MatchesAt s p n.

(** [p] and [n] are the groups of the leftmost match in [m]. *)
Definition FirstMatch (m p n : jsstring) : Prop :=
  exists pre s,
    m = pre ++ s /\ MatchesAt s p n
    /\ forall pre' s' p' n',
         m = pre' ++ s' -> List.length pre' < List.length pre ->
         ~ MatchesAt s' p' n'.

(** What [splitMAWB] answers on a cleaned string [m]. *)
Inductive SplitsAs (m : jsstring) : jsstring * jsstring -> Prop :=
  | one_hyphen a b :
      m = a ++ hyphen :: b -> ~ In hyphen a -> ~ In hyphen b ->
      SplitsAs m (a, b)
  | by_pattern p n :
      count_occ N.eq_dec m hyphen <> 1 -> FirstMatch m p n ->
      SplitsAs m (p, n)
  | rejected :
      count_occ N.eq_dec m hyphen <> 1 -> MatchesNowhere m ->
      SplitsAs m ([], []).

(** The splitter as the specification words it: the two parts of a
    one-hyphen string are returned only when both are non-empty. *)
Definition splitMAWB_spec (mawb : jsstring) : jsstring * jsstring :=
  let mawb := removeWhiteSpace (trim mawb) in
  let byPattern :=
    match regexMatch mawb with
    | Some (p, a) => (p, a)
    | None => ([], [])
    end in
  match split hyphen mawb with
  | [p; a] => if falsy p || falsy a then byPattern else (p, a)
  | _ => byPattern
  end.

Definition terminal (s : TrackJobStatus) : bool :=
  match s with
  | completed | failed | cancelled => true
  | pending | processing | paused => false
  end.


(** The constants of the call a task belongs to, while it runs. *)
Definition taskCtx (t : Task) : option Ctx :=
  match t with
  | AwaitTrackAWB c _ _ _ _ _ | AwaitDelay c _ _ => Some c
  | Returned _ | Thrown _ => None
  end.

Definition jobExists (id : nat) (w : World) : Prop := jobOf id w <> None.

(** Every row has a cell to read in the identifier column. *)
Definition wellFormed (c : Ctx) (records : list Record_) : Prop :=
  Forall (fun r => exists mawb, cellOf c r = Ok mawb) records.

Definition isResume (turn : Turn) : bool :=
  match turn with Resume => true | _ => false end.

(** How often the event loop gives the task a turn. *)
Definition resumes (turns : list Turn) : nat :=
  List.length (filter isResume turns).

(** The turns a task needs at most before it returns: one per lookup and
    one per timer. *)
Definition turnsLeft (t : Task) : nat :=
  match t with
  | AwaitTrackAWB _ rest _ _ _ _ => 2 * List.length rest + 2
  | AwaitDelay _ rest _ => 2 * List.length rest + 1
  | Returned _ | Thrown _ => 0
  end.

(** The row count the task will return if nothing aborts it. *)
Definition finalCount (t : Task) : nat :=
  match t with
  | AwaitTrackAWB _ rest n _ _ _ | AwaitDelay _ rest n => n + List.length rest
  | Returned n => n
  | Thrown _ => 0
  end.

(** The task has not been aborted and has what it needs to go on. *)
Definition healthy (t : Task) (w : World) : Prop :=
  match t with
  | AwaitTrackAWB c rest _ _ _ _ | AwaitDelay c rest _ =>
      jobExists (job c) w /\ wellFormed c rest
  | Returned _ => True
  | Thrown _ => False
  end.

(** The messages of a call with a socket server, nothing without. *)
Definition sentBy (c : Ctx) (ms : list Message) : list Broadcast :=
  if wss c then map (mkBroadcast (job c)) ms else [].

(** A job in the middle of a two-row file. *)
Definition runningJob : TrackJob.t :=
  TrackJob.mk 1 (lit "batch.csv") 0 0 processing 10%Z 10%Z.

Definition runningWorld : World :=
  mkWorld (mkStorage [] [] [(1, runningJob)] 1 1 2) [] 15%Z.

Definition runningCtx : Ctx :=
  mkCtx CSV 1 (Finite 100) true (lit "MAWB No") 2.

Definition threeRows : list Record_ :=
  [row "111-22222222"; row "333-44444444"; row "555-66666666"].

Definition twoRows : list Record_ :=
  [row "111-22222222"; row "333-44444444"].

(** The persisted status and counts of a job. *)
Definition statusOf (id : nat) (w : World) : option TrackJobStatus :=
  option_map TrackJob.status (jobOf id w).

Definition processedOf (id : nat) (w : World) : option nat :=
  option_map TrackJob.processedCount (jobOf id w).

Definition totalOf (id : nat) (w : World) : option nat :=
  option_map TrackJob.totalCount (jobOf id w).

(** What was sent after the first [n] messages. *)
Definition sentAfter (n : nat) (w : World) : list Broadcast :=
  skipn n (broadcasts w).

(** Two records of a job that differ at most in what a control request
    writes: the status and the time of the last update. *)
Definition sameJobData (a b : TrackJob.t) : Prop :=
  TrackJob.id a = TrackJob.id b
  /\ TrackJob.filename a = TrackJob.filename b
  /\ TrackJob.totalCount a = TrackJob.totalCount b
  /\ TrackJob.processedCount a = TrackJob.processedCount b
  /\ TrackJob.createdAt a = TrackJob.createdAt b.

Definition sameJobEntry (a b : nat * TrackJob.t) : Prop :=
  fst a = fst b /\ sameJobData (snd a) (snd b).

(** Two stores that differ at most in the statuses of their jobs. *)
Definition sameButControl (st1 st2 : MemStorage) : Prop :=
  Forall2 sameJobEntry (trackJobs st1) (trackJobs st2)
  /\ trackResults st1 = trackResults st2
  /\ users st1 = users st2
  /\ currentUserId st1 = currentUserId st2
  /\ currentTrackResultId st1 = currentTrackResultId st2
  /\ currentTrackJobId st1 = currentTrackJobId st2.

Definition sameWorldButControl (w1 w2 : World) : Prop :=
  broadcasts w1 = broadcasts w2 /\ now w1 = now w2
  /\ sameButControl (store w1) (store w2).

(** Two states of the system that no viewer and no result query can
    tell apart. *)
Definition unobserved (s1 s2 : Task * World) : Prop :=
  fst s1 = fst s2 /\ sameWorldButControl (snd s1) (snd s2).

Definition isControl (turn : Turn) : bool :=
  match turn with ControlTurn _ => true | _ => false end.

(** The schedule with its control requests taken out. *)
Definition withoutControl (turns : list Turn) : list Turn :=
  filter (fun turn => negb (isControl turn)) turns.

(** The ids of the store's results are below the next id to hand out. *)
Definition freshResultIds (st : MemStorage) : Prop :=
  Forall (fun k => k < currentTrackResultId st) (map_keys (trackResults st)).

(** The persisted total of every job, in the order of the store. *)
Definition totals (st : MemStorage) : list (nat * nat) :=
  map (fun e => (fst e, TrackJob.totalCount (snd e))) (trackJobs st).

(* ================================================================== *)
(** ** routes.ts: the read-only queries and the single lookup *)
(* ================================================================== *)

(** What the two job queries answer. *)
Inductive QueryResponse :=
  | QueryError (code : nat) (text : jsstring)
  | JobFound (job : TrackJob.t)
  | JobList (jobs : list TrackJob.t).

(** [GET /api/track/jobs/:id]. *)
Definition jobRoute (idParam : option nat) (st : MemStorage) : QueryResponse :=
  match idParam with
  | None => QueryError 400 (lit "Invalid job ID")
  | Some jobId =>
      match getTrackJob jobId st with
      | None => QueryError 404 (lit "Job not found")
      | Some job => JobFound job
      end
  end.

(** [GET /api/track/jobs]. *)
Definition jobsRoute (st : MemStorage) : QueryResponse :=
  JobList (getTrackJobs st).

(** What [POST /api/track/single] answers: an error with its message or
    with the issue of the schema, or the identifier with its two parts
    and the fields of the lookup spread over them. *)
Inductive SingleResponse :=
  | SingleError (code : nat) (text : jsstring)
  | SingleRefused (code : nat) (issue : ZodIssue)
  | SingleTracked (mawb prefix awbNo : jsstring) (fields : PartialTrackResult.t).

(** The property [mawb] of the request body: absent (as it is when the
    body is no object), of another type than string, or a string. *)
Inductive BodyField :=
  | Absent
  | NotAString
  | Text (s : jsstring).

(** [z.string().min(1)] on the property. *)
Definition parseMawb (field : BodyField) : jsstring + ZodIssue :=
  match field with
  | Absent | NotAString => inr invalid_type
  | Text [] => inr too_small
  | Text (c :: s) => inl (c :: s)
  end.

(** [POST /api/track/single].  The lookup of a single request belongs to
    no row: it is the lookup of row 0. *)
Definition trackSingleRoute (ext : Externals) (mawbField : BodyField)
  : SingleResponse :=
  match parseMawb mawbField with
  | inr issue => SingleRefused 400 issue
  | inl mawb =>
      let '(prefix, awbNo) := splitMAWB mawb in
      if falsy prefix || falsy awbNo then
        SingleError 400 (lit "Invalid MAWB format")
      else
        match trackAWB ext 0 prefix awbNo with
        | Ok fields => SingleTracked mawb prefix awbNo fields
        | Throw e => SingleError 400 (message e)
        end
  end.

(** The test both the single lookup and the row loop make before they
    call the lookup. *)
Definition lookedUp (mawb : jsstring) : bool :=
  let '(prefix, awbNo) := splitMAWB mawb in
  negb (falsy prefix || falsy awbNo).

(** The ids of the store's jobs and users are below the next id. *)
Definition freshJobIds (st : MemStorage) : Prop :=
  Forall (fun k => k < currentTrackJobId st) (map_keys (trackJobs st)).

Definition freshUserIds (st : MemStorage) : Prop :=
  Forall (fun k => k < currentUserId st) (map_keys (users st)).

(** What no operation writes in a job: its id, its file name, its
    total and the time of its creation. *)
Definition identity (j : TrackJob.t) : nat * jsstring * nat * Date :=
  (TrackJob.id j, TrackJob.filename j, TrackJob.totalCount j,
   TrackJob.createdAt j).

Definition identities (st : MemStorage) : list (nat * (nat * jsstring * nat * Date)) :=
  map (fun e => (fst e, identity (snd e))) (trackJobs st).

(** The decoder the upload handler picks. *)
Definition choosesCSV (f : UploadedFile) : bool :=
  jsstring_eqb (mimetype f) (lit "text/csv")
  || endsWith (originalname f) (lit ".csv").



(** The world once the upload handler has created its job, and the task
    it starts there, for an accepted pacing interval [d]. *)
Definition uploadedWorld (f : UploadedFile) (w : World) : World :=
  withStore w
    (snd (createTrackJob (now w) (InsertTrackJob.mk (originalname f) 0)
            (store w))).

Definition started (ext : Externals) (f : UploadedFile) (d : JsNumber)
  (w : World) : Task * World :=
  guarded (currentTrackJobId (store w))
    (if choosesCSV f
     then processCSVFile ext (asCSV f) (currentTrackJobId (store w)) d true
            (uploadedWorld f w)
     else processExcelFile ext (asExcel f) (currentTrackJobId (store w)) d true
            (uploadedWorld f w)).

(** A sheet whose second row has no identifier cell. *)
Definition excelCtx : Ctx :=
  mkCtx Excel 1 (Finite 100) true (lit "MAWB No") 3.

Definition sheetRows : list Record_ :=
  [row "111-22222222"; [(lit "Remarks", lit "hold")]; row "333-44444444"].

(* ================================================================== *)
(** ** What a file should leave behind *)
(* ================================================================== *)

(** A stored result without its id and creation time. *)
Definition asInsert (r : TrackResult.t) : InsertTrackResult.t :=
  InsertTrackResult.mk (TrackResult.mawb r) (TrackResult.prefix r)
    (TrackResult.awbNo r) (TrackResult.status r) (TrackResult.origin r)
    (TrackResult.dest r) (TrackResult.pcs r) (TrackResult.grossWt r)
    (TrackResult.lastAct r) (TrackResult.lastActDt r) (TrackResult.doUrl r).

(** The result that row [k] stands for: one when its identifier is
    looked up and the lookup resolves, none otherwise. *)
Definition rowInsert (ext : Externals) (c : Ctx) (k : nat) (r : Record_)
  : list InsertTrackResult.t :=
  match cellOf c r with
  | Ok mawb =>
      if lookedUp mawb then
        match trackAWB ext k (fst (splitMAWB mawb)) (snd (splitMAWB mawb)) with
        | Ok fields =>
            [toInsert mawb (fst (splitMAWB mawb)) (snd (splitMAWB mawb)) fields]
        | Throw _ => []
        end
      else []
  | Throw _ => []
  end.

(** The results that the rows after row [n] stand for, in row order. *)
Fixpoint expectedFrom (ext : Externals) (c : Ctx) (n : nat)
  (records : list Record_) : list InsertTrackResult.t :=
  match records with
  | [] => []
  | r :: rest => rowInsert ext c (S n) r ++ expectedFrom ext c (S n) rest
  end.

(** The results still to come from a task. *)
Definition toCome (ext : Externals) (t : Task) : list InsertTrackResult.t :=
  match t with
  | AwaitTrackAWB c rest n mawb prefix awbNo =>
      match trackAWB ext n prefix awbNo with
      | Ok fields => [toInsert mawb prefix awbNo fields]
      | Throw _ => []
      end ++ expectedFrom ext c n rest
  | AwaitDelay c rest n => expectedFrom ext c n rest
  | Returned _ | Thrown _ => []
  end.

(** The stored results, as inserts, in the order of the store. *)
Definition insertsOf (w : World) : list InsertTrackResult.t :=
  map asInsert (map_values (trackResults (store w))).

(* ================================================================== *)
(** ** What the viewers are sent *)
(* ================================================================== *)

(** The text of the message that ends a run. *)
Definition completeText (n : nat) : jsstring :=
  lit "Tracking completed. Processed " ++ numToString n ++ lit " records.".

Definition isLogMessage (m : Message) : bool :=
  match m with log _ _ => true | _ => false end.

Definition isCompleteMessage (m : Message) : bool :=
  match m with complete _ => true | _ => false end.

(** The [current] of the progress messages, in the order sent. *)
Definition currentsOf (ms : list Message) : list nat :=
  flat_map (fun m => match m with progress cur _ => [cur] | _ => [] end) ms.

(** The payloads of the result messages, in the order sent. *)
Definition resultsOf (ms : list Message) : list InsertTrackResult.t :=
  flat_map (fun m => match m with result d => [d] | _ => [] end) ms.

(** Every progress message carries the total of the call. *)
Definition totalsAre (c : Ctx) (ms : list Message) : Prop :=
  Forall (fun m => match m with
                   | progress _ tot => tot = totalCount c
                   | _ => True
                   end) ms.

(** The least row number whose progress the task has yet to send. *)
Definition nextProgress (t : Task) : nat :=
  match t with
  | AwaitTrackAWB _ _ n _ _ _ => n
  | AwaitDelay _ _ n | Returned n => S n
  | Thrown _ => 0
  end.

(** The task belongs to the call with the constants [c]. *)
Definition ctxIs (c : Ctx) (t : Task) : Prop :=
  match taskCtx t with
  | Some c' => c' = c
  | None => True
  end.

(** What holds of the messages [ms] a task has sent when it stands at
    [t]: the progress only advances and stays below the row in hand;
    the results sent and those to come are the results [expected] of the
    file; and the completion is sent once, last, by the task that has
    returned, and by no other. *)
Definition traceOk (ext : Externals) (c : Ctx)
  (expected : list InsertTrackResult.t) (t : Task) (ms : list Message)
  : Prop :=
  StronglySorted lt (currentsOf ms)
  /\ Forall (fun v => v < nextProgress t) (currentsOf ms)
  /\ totalsAre c ms
  /\ resultsOf ms ++ toCome ext t = expected
  /\ match t with
     | Returned n =>
         exists earlier,
           ms = earlier ++ [complete (completeText n)]
           /\ filter isCompleteMessage earlier = []
     | _ => filter isCompleteMessage ms = []
     end.

(* ================================================================== *)
(** ** Dashboard.tsx: the viewer's socket handler *)
(* ================================================================== *)

(** The state the page keeps for the job on display. *)
Record Viewer := mkViewer {
  activeJobId : option nat;
  logs : list (jsstring * LogLevel);
  results : list InsertTrackResult.t;
  progressBar : nat * nat;
  jobStatus : TrackJobStatus
}.

(** [wsRef.current.onmessage]: a message of another job than the active
    one is dropped; with no active job nothing is dropped.  A log or a
    completion with an empty text does nothing. *)
Definition onmessage (v : Viewer) (b : Broadcast) : Viewer :=
  let foreign :=
    match activeJobId v with
    | Some active => negb (jobId b =? active)
    | None => false
    end in
  if foreign then v
  else
    match payload b with
    | log text level =>
        if falsy text then v
        else mkViewer (activeJobId v) (logs v ++ [(text, level)]) (results v)
               (progressBar v) (jobStatus v)
    | progress current total =>
        mkViewer (activeJobId v) (logs v) (results v) (current, total)
          (jobStatus v)
    | result data =>
        mkViewer (activeJobId v) (logs v) (results v ++ [data])
          (progressBar v) (jobStatus v)
    | complete text =>
        if falsy text then v
        else mkViewer (activeJobId v) (logs v) (results v) (progressBar v)
               completed
    end.

(** The viewer after the messages [bs], in order. *)
Definition receive (v : Viewer) (bs : list Broadcast) : Viewer :=
  fold_left onmessage bs v.


(** The messages the handler of a viewer does not drop. *)
Definition accepted (v : Viewer) (b : Broadcast) : bool :=
  match activeJobId v with
  | Some active => jobId b =? active
  | None => true
  end.

(* ================================================================== *)
(** ** tracking.ts: broadcastMessage and the connected clients *)
(* ================================================================== *)

(** A client of the socket server: its [readyState] (1 is OPEN) and
    what it has been sent. *)
Record Client := mkClient {
  readyState : nat;
  inbox : list Broadcast
}.

(** [client.send(...)] behind the test of the ready state. *)
Definition sendIfOpen (b : Broadcast) (client : Client) : Client :=
  if readyState client =? 1 then mkClient (readyState client) (inbox client ++ [b])
  else client.

(** [broadcastMessage] on the clients themselves: [None] is a call
    without a socket server. *)
Definition sendToClients (clients : option (list Client)) (jobId : nat)
  (m : Message) : option (list Client) :=
  match clients with
  | None => None
  | Some cs => Some (map (sendIfOpen (mkBroadcast jobId m)) cs)
  end.

(** The clients after the broadcasts [bs], in order. *)
Definition deliver (clients : list Client) (bs : list Broadcast)
  : list Client :=
  fold_left (fun cs b => map (sendIfOpen b) cs) bs clients.

(* ================================================================== *)
(** ** tracking.ts: the two exports *)
(* ================================================================== *)

(** A cell of an exported table: a nullable text. *)
Definition Cell := option jsstring.

Definition exportHeaders : list Cell :=
  map (fun s => Some (lit s))
    ["MAWB"; "Prefix"; "AWBNo"; "Status"; "Origin"; "Dest"; "Pcs"; "GrossWt";
     "LastAct"; "DOUrl"]%string.

(** The row both exports build from a result. *)
Definition exportRow (r : TrackResult.t) : list Cell :=
  [Some (TrackResult.mawb r); Some (TrackResult.prefix r);
   Some (TrackResult.awbNo r); TrackResult.status r; TrackResult.origin r;
   TrackResult.dest r; TrackResult.pcs r; TrackResult.grossWt r;
   TrackResult.lastAct r; TrackResult.doUrl r].

(** [generateExcelFile] up to the call of the workbook writer: the rows
    of the one sheet. *)
Definition generateExcelFile (results : list TrackResult.t)
  : list (list Cell) :=
  exportHeaders :: map exportRow results.

(** The requests [updateGoogleSheet] sends to the spreadsheet service. *)
Inductive SheetsRequest :=
  | ClearValues (range : jsstring)
  | UpdateValues (range : jsstring) (values : list (list Cell)).

(** Send the requests in order until one is rejected: the requests sent,
    and the error if there was one. *)
Fixpoint sendAll (api : SheetsRequest -> outcome unit)
  (plan : list SheetsRequest) : list SheetsRequest * option JsError :=
  match plan with
  | [] => ([], None)
  | req :: plan' =>
      match api req with
      | Throw e => ([req], Some e)
      | Ok _ =>
          let '(sent, failure) := sendAll api plan' in (req :: sent, failure)
      end
  end.

(** The requests of one export, in the order of the source. *)
Definition sheetPlan (results : list TrackResult.t) : list SheetsRequest :=
  let dataValues := map exportRow results in
  [ClearValues (lit "Sheet1!A1:J1000");
   UpdateValues (lit "Sheet1!A1:J1") [exportHeaders]]
  ++ match dataValues with
     | [] => []
     | _ :: _ =>
         [UpdateValues
            (lit "Sheet1!A2:J" ++ numToString (List.length dataValues + 1))
            dataValues]
     end.

(** [updateGoogleSheet]: [credentials] is what parsing the service
    account and building the client give, [api] how the service answers
    a request.  The requests sent come with the outcome. *)
Definition updateGoogleSheet (credentials : outcome unit)
  (api : SheetsRequest -> outcome unit) (spreadsheetId : jsstring)
  (results : list TrackResult.t) : list SheetsRequest * outcome jsstring :=
  match credentials with
  | Throw e => ([], Throw e)
  | Ok _ =>
      match sendAll api (sheetPlan results) with
      | (sent, Some e) => (sent, Throw e)
      | (sent, None) =>
          (sent,
           Ok (lit "Successfully updated Google Sheet: https://docs.google.com/spreadsheets/d/"
               ++ spreadsheetId))
      end
  end.

(** The rows a request writes. *)
Definition written (req : SheetsRequest) : list (list Cell) :=
  match req with
  | UpdateValues _ values => values
  | ClearValues _ => []
  end.

(** The service accepts the request. *)
Definition acceptedBy (api : SheetsRequest -> outcome unit)
  (req : SheetsRequest) : Prop :=
  exists u, api req = Ok u.

(* ================================================================== *)
(** ** The rows that report progress *)
(* ================================================================== *)

(** The numbers of the rows after row [n] whose identifier is looked
    up, in row order. *)
Fixpoint lookedUpRows (c : Ctx) (n : nat) (records : list Record_)
  : list nat :=
  match records with
  | [] => []
  | r :: rest =>
      match cellOf c r with
      | Ok mawb => if lookedUp mawb then [S n] else []
      | Throw _ => []
      end ++ lookedUpRows c (S n) rest
  end.

(** The rows whose progress a task has yet to send. *)
Definition progressToCome (t : Task) : list nat :=
  match t with
  | AwaitTrackAWB c rest n _ _ _ => n :: lookedUpRows c n rest
  | AwaitDelay c rest n => lookedUpRows c n rest
  | Returned _ | Thrown _ => []
  end.

(** Either entry point, on the rows the decoder gave. *)
Definition processFile (ext : Externals) (k : FileKind)
  (records : list Record_) (jobId : nat) (delay : JsNumber) (wss : bool)
  (w : World) : Task * World :=
  match k with
  | CSV => processCSVFile ext (Ok records) jobId delay wss w
  | Excel => processExcelFile ext (Ok records) jobId delay wss w
  end.

(* ================================================================== *)
(** ** Several uploads on one store *)
(* ================================================================== *)

(** The event loop while other uploads are processed on the same store:
    besides the turns of the task's own schedule, the task of another
    upload is resumed, wherever it stands, or another upload is
    served. *)
Inductive SharedTurn :=
  | Own (turn : Turn)
  | ResumeOther (other : Task)
  | UploadOther (req : FileRequest).

Definition stepShared (ext : Externals) (s : Task * World)
  (turn : SharedTurn) : Task * World :=
  let '(t, w) := s in
  match turn with
  | Own turn => step ext (t, w) turn
  | ResumeOther other => (t, snd (advanceBackground ext other w))
  | UploadOther req => (t, snd (fst (trackFileRoute ext req w)))
  end.




(** [l] is [l'] with some of its elements left out. *)
Inductive Subsequence {A : Type} : list A -> list A -> Prop :=
  | sub_nil : Subsequence [] []
  | sub_skip x l l' : Subsequence l l' -> Subsequence l (x :: l')
  | sub_keep x l l' : Subsequence l l' -> Subsequence (x :: l) (x :: l').

(** The store of the running job with a result of an earlier file in
    it, and a schedule in which a second upload is served and its task
    resumed between the turns of the first. *)
Definition usedStore : MemStorage :=
  snd (createTrackResult 12%Z
         (toInsert (lit "999-00000000") (lit "999") (lit "00000000") fixedRecord)
         (store runningWorld)).



(* ================================================================== *)
(** * Properties *)
(* ================================================================== *)

(** ** The insertion-ordered map *)

Lemma map_get_set_same {V} (m : JsMap V) k v :
  map_get (map_set m k v) k = Some v.
Proof.
  induction m as [|[k' v'] m IH]; simpl.
  - now rewrite Nat.eqb_refl.
  - destruct (k =? k') eqn:E; simpl.
    + now rewrite Nat.eqb_refl.
    + now rewrite E.
Qed.

Lemma map_get_set_other {V} (m : JsMap V) k k' v :
  k' <> k -> map_get (map_set m k v) k' = map_get m k'.
Proof.
  intros Hne. induction m as [|[k0 v0] m IH]; simpl.
  - apply Nat.eqb_neq in Hne. now rewrite Hne.
  - destruct (k =? k0) eqn:E; simpl.
    + apply Nat.eqb_eq in E. subst k0.
      apply Nat.eqb_neq in Hne. now rewrite Hne.
    + destruct (k' =? k0); [reflexivity | exact IH].
Qed.

Lemma map_keys_set_present {V} (m : JsMap V) k v v0 :
  map_get m k = Some v0 -> map_keys (map_set m k v) = map_keys m.
Proof.
  unfold map_keys.
  induction m as [|[k' v'] m IH]; simpl; [discriminate|].
  destruct (k =? k') eqn:E; intros H; simpl.
  - apply Nat.eqb_eq in E. now subst.
  - f_equal. now apply IH.
Qed.

Lemma map_set_fresh {V} (m : JsMap V) k v :
  map_get m k = None -> map_set m k v = m ++ [(k, v)].
Proof.
  induction m as [|[k' v'] m IH]; simpl; [reflexivity|].
  destruct (k =? k'); [discriminate|].
  intros H. now rewrite IH.
Qed.

Lemma map_get_is_In {V} (m : JsMap V) k v :
  map_get m k = Some v -> In k (map_keys m).
Proof.
  induction m as [|[k' v'] m IH]; simpl; [discriminate|].
  destruct (k =? k') eqn:E.
  - apply Nat.eqb_eq in E. now left.
  - intros H. right. now apply IH.
Qed.

Lemma map_get_not_In {V} (m : JsMap V) k :
  ~ In k (map_keys m) -> map_get m k = None.
Proof.
  induction m as [|[k' v'] m IH]; simpl; [reflexivity|].
  intros H. destruct (k =? k') eqn:E.
  - apply Nat.eqb_eq in E. exfalso. apply H. now left.
  - apply IH. intros Hin. apply H. now right.
Qed.

(** ** storage.ts *)

Lemma setTrackJob_frame id j j0 st :
  getTrackJob id st = Some j0 ->
  getTrackJob id (setTrackJob id j st) = Some j
  /\ sameButJob id st (setTrackJob id j st).
Proof.
  unfold getTrackJob, setTrackJob, sameButJob. simpl. intros H.
  split; [apply map_get_set_same|].
  split; [intros other Hne; now apply map_get_set_other|].
  split; [now apply map_keys_set_present with (v0 := j0)|].
  repeat split.
Qed.

Lemma updateTrackJobStatus_found now id s st j :
  getTrackJob id st = Some j ->
  updateTrackJobStatus now id s st
  = Ok (withStatus now s j, setTrackJob id (withStatus now s j) st).
Proof. unfold updateTrackJobStatus. now intros ->. Qed.

Lemma updateTrackJobProgress_found now id n st j :
  getTrackJob id st = Some j ->
  updateTrackJobProgress now id n st
  = Ok (withProgress now n j, setTrackJob id (withProgress now n j) st).
Proof. unfold updateTrackJobProgress. now intros ->. Qed.

(** C10: on an existing job, [updateTrackJobStatus] writes [status] and
    [updatedAt] only, and [updateTrackJobProgress] writes
    [processedCount] and [updatedAt] only: the job's id, filename,
    totalCount, createdAt and the other of the two fields keep their
    values, every other job is as it was, and so is the rest of the
    store (key order, results, users, the id counters). *)
Theorem update_changes_only_its_fields :
  forall (now : Date) (id : nat) (st : MemStorage) (j : TrackJob.t),
    getTrackJob id st = Some j ->
    (forall s, exists j' st',
        updateTrackJobStatus now id s st = Ok (j', st')
        /\ getTrackJob id st' = Some j'
        /\ TrackJob.status j' = s /\ TrackJob.updatedAt j' = now
        /\ TrackJob.id j' = TrackJob.id j
        /\ TrackJob.filename j' = TrackJob.filename j
        /\ TrackJob.totalCount j' = TrackJob.totalCount j
        /\ TrackJob.createdAt j' = TrackJob.createdAt j
        /\ TrackJob.processedCount j' = TrackJob.processedCount j
        /\ sameButJob id st st')
    /\ (forall n, exists j' st',
        updateTrackJobProgress now id n st = Ok (j', st')
        /\ getTrackJob id st' = Some j'
        /\ TrackJob.processedCount j' = n /\ TrackJob.updatedAt j' = now
        /\ TrackJob.id j' = TrackJob.id j
        /\ TrackJob.filename j' = TrackJob.filename j
        /\ TrackJob.totalCount j' = TrackJob.totalCount j
        /\ TrackJob.createdAt j' = TrackJob.createdAt j
        /\ TrackJob.status j' = TrackJob.status j
        /\ sameButJob id st st').
Proof.
  intros now id st j Hj. split.
  - intros s. exists (withStatus now s j), (setTrackJob id (withStatus now s j) st).
    destruct (setTrackJob_frame id (withStatus now s j) st Hj) as [Hget Hframe].
    rewrite (updateTrackJobStatus_found now id s st Hj).
    repeat (split; [first [reflexivity | exact Hget]|]). exact Hframe.
  - intros n. exists (withProgress now n j), (setTrackJob id (withProgress now n j) st).
    destruct (setTrackJob_frame id (withProgress now n j) st Hj) as [Hget Hframe].
    rewrite (updateTrackJobProgress_found now id n st Hj).
    repeat (split; [first [reflexivity | exact Hget]|]). exact Hframe.
Qed.

Lemma update_changes_only_its_fields_witness :
  getTrackJob 1 doneStore = Some doneJob
  /\ (exists j' st',
        updateTrackJobStatus 30%Z 1 paused doneStore = Ok (j', st')
        /\ TrackJob.status j' = paused
        /\ TrackJob.processedCount j' = 3
        /\ TrackJob.totalCount j' = 0)
  /\ (exists j' st',
        updateTrackJobProgress 30%Z 1 7 doneStore = Ok (j', st')
        /\ TrackJob.processedCount j' = 7
        /\ TrackJob.status j' = completed).
Proof.
  split; [reflexivity|].
  destruct (update_changes_only_its_fields 30%Z 1 doneStore (eq_refl : getTrackJob 1 doneStore = Some doneJob))
    as [HS HP].
  split.
  - destruct (HS paused) as (j' & st' & E & _ & Hs & _ & _ & _ & Ht & _ & Hp & _).
    exists j', st'. repeat split; [exact E | exact Hs | rewrite Hp; reflexivity | rewrite Ht; reflexivity].
  - destruct (HP 7) as (j' & st' & E & _ & Hn & _ & _ & _ & _ & _ & Hs & _).
    exists j', st'. repeat split; [exact E | exact Hn | rewrite Hs; reflexivity].
Defined.

(** ** tracking.ts: splitMAWB *)

Lemma digit_not_sep c : isDigit c = true -> isSep c = false.
Proof.
  unfold isDigit, isSep, hyphen, space. intros H.
  apply andb_true_iff in H. destruct H as [H1 H2].
  apply N.leb_le in H1. apply N.leb_le in H2.
  apply orb_false_iff. split; apply N.eqb_neq; lia.
Qed.

Lemma sep_not_digit c : isSep c = true -> isDigit c = false.
Proof.
  intros H. destruct (isDigit c) eqn:E; [|reflexivity].
  apply digit_not_sep in E. congruence.
Qed.

Lemma takeDigits_sound n : forall s d r,
  takeDigits n s = Some (d, r) -> s = d ++ r /\ digits n d.
Proof.
  induction n as [|n IH]; simpl; intros s d r H.
  - inversion H; subst. split; [reflexivity|]. split; [reflexivity|constructor].
  - destruct s as [|c s]; [discriminate|].
    destruct (isDigit c) eqn:Ec; [|discriminate].
    destruct (takeDigits n s) as [[d' r']|] eqn:E; [|discriminate].
    inversion H; subst. destruct (IH _ _ _ E) as [-> [Hl Hd]].
    split; [reflexivity|]. split; [simpl; now rewrite Hl|now constructor].
Qed.

Lemma takeDigits_complete n d r :
  digits n d -> takeDigits n (d ++ r) = Some (d, r).
Proof.
  intros [Hl Hd]. subst n. induction Hd as [|c d Hc Hd IH]; simpl.
  - reflexivity.
  - now rewrite Hc, IH.
Qed.

Lemma matchAt_sound s p n : matchAt s = Some (p, n) -> MatchesAt s p n.
Proof.
  unfold matchAt, MatchesAt.
  destruct (takeDigits 3 s) as [[p0 r]|] eqn:E3; [|discriminate].
  destruct (takeDigits_sound _ _ E3) as [-> Hp].
  assert (Hwithout :
    match takeDigits 8 r with Some (n0, _) => Some (p0, n0) | None => None end
    = Some (p, n) ->
    exists sep rest, p0 ++ r = p ++ sep ++ n ++ rest /\ digits 3 p
      /\ digits 8 n /\ (sep = [] \/ sep = [hyphen] \/ sep = [space])).
  { destruct (takeDigits 8 r) as [[n0 rest]|] eqn:E8; [|discriminate].
    intros H. inversion H; subst.
    destruct (takeDigits_sound _ _ E8) as [-> Hn].
    exists [], rest. simpl. auto. }
  destruct r as [|c r']; [exact Hwithout|].
  destruct (isSep c) eqn:Ec; [|exact Hwithout].
  destruct (takeDigits 8 r') as [[n0 rest]|] eqn:E8; [|exact Hwithout].
  intros H. inversion H; subst.
  destruct (takeDigits_sound _ _ E8) as [-> Hn].
  exists [c], rest. simpl. repeat split; try apply Hp; try apply Hn.
  right. unfold isSep in Ec. apply orb_true_iff in Ec.
  destruct Ec as [Ec|Ec]; apply N.eqb_eq in Ec; subst; auto.
Qed.

Lemma matchAt_complete s p n : MatchesAt s p n -> matchAt s = Some (p, n).
Proof.
  intros (sep & rest & -> & Hp & Hn & Hsep). unfold matchAt.
  rewrite (takeDigits_complete _ Hp).
  destruct Hsep as [-> | Hsep].
  - cbn [app]. rewrite (takeDigits_complete rest Hn).
    destruct Hn as [Hl Hd]. destruct n as [|c n']; [discriminate|].
    cbn [app]. inversion Hd; subst.
    now rewrite (digit_not_sep _ H1).
  - assert (exists c, sep = [c] /\ isSep c = true) as (c & -> & Hc).
    { destruct Hsep as [-> | ->]; eexists; split; reflexivity. }
    cbn [app]. rewrite Hc. now rewrite (takeDigits_complete rest Hn).
Qed.

Lemma MatchesAt_fun s p n p' n' :
  MatchesAt s p n -> MatchesAt s p' n' -> p = p' /\ n = n'.
Proof.
  intros H H'. apply matchAt_complete in H. apply matchAt_complete in H'.
  rewrite H in H'. now inversion H'.
Qed.

Lemma regexMatch_first m : forall p n,
  regexMatch m = Some (p, n) -> FirstMatch m p n.
Proof.
  induction m as [|c m IH]; intros p n.
  - cbn. discriminate.
  - simpl. destruct (matchAt (c :: m)) as [[p0 n0]|] eqn:E.
    + intros H. inversion H; subst. exists [], (c :: m).
      split; [reflexivity|]. split; [now apply matchAt_sound|].
      simpl. intros. lia.
    + intros H. destruct (IH _ _ H) as (pre & s & -> & Hm & Hleft).
      exists (c :: pre), s. split; [reflexivity|]. split; [exact Hm|].
      intros pre' s' p' n' Heq Hlen Hm'.
      destruct pre' as [|c' pre'].
      * simpl in Heq. subst s'. apply matchAt_complete in Hm'. congruence.
      * simpl in Heq. inversion Heq; subst.
        apply (Hleft pre' s' p' n'); [assumption | simpl in Hlen; lia | exact Hm'].
Qed.

Lemma regexMatch_none m : regexMatch m = None -> MatchesNowhere m.
Proof.
  induction m as [|c m IH]; simpl.
  - intros _ pre s p n Heq Hm.
    symmetry in Heq. apply app_eq_nil in Heq. destruct Heq as [_ ->].
    apply matchAt_complete in Hm. cbn in Hm. discriminate.
  - destruct (matchAt (c :: m)) eqn:E; [discriminate|].
    intros H pre s p n Heq Hm. destruct pre as [|c' pre].
    + simpl in Heq. subst s. apply matchAt_complete in Hm. congruence.
    + simpl in Heq. inversion Heq; subst.
      now apply (IH H pre s p n).
Qed.

Lemma split_nonempty sep s : split sep s <> [].
Proof.
  destruct s as [|c s]; simpl; [discriminate|].
  destruct (c =? sep)%N; [discriminate|].
  destruct (split sep s); discriminate.
Qed.

Lemma split_length sep s :
  List.length (split sep s) = S (count_occ N.eq_dec s sep).
Proof.
  induction s as [|c s IH]; simpl; [reflexivity|].
  destruct (N.eq_dec c sep) as [->|Hne].
  - rewrite N.eqb_refl. simpl. now rewrite IH.
  - apply N.eqb_neq in Hne. rewrite Hne.
    destruct (split sep s) eqn:E; [now apply split_nonempty in E|].
    exact IH.
Qed.

Lemma split_single sep s p : split sep s = [p] -> s = p /\ ~ In sep p.
Proof.
  revert p. induction s as [|c s IH]; simpl; intros p H.
  - inversion H. auto.
  - destruct (c =? sep)%N eqn:Ec.
    + inversion H. destruct (split sep s) eqn:E; [now apply split_nonempty in E|discriminate].
    + destruct (split sep s) as [|q qs] eqn:E; [now apply split_nonempty in E|].
      inversion H; subst. destruct (IH q eq_refl) as [-> Hq].
      split; [reflexivity|]. simpl. intros [Hc|Hin]; [|tauto].
      subst. now rewrite N.eqb_refl in Ec.
Qed.

Lemma split_two sep s a b :
  split sep s = [a; b] -> s = a ++ sep :: b /\ ~ In sep a /\ ~ In sep b.
Proof.
  revert a. induction s as [|c s IH]; simpl; intros a H; [discriminate|].
  destruct (c =? sep)%N eqn:Ec.
  - inversion H; subst. apply N.eqb_eq in Ec. subst c.
    destruct (split_single _ _ H2) as [-> Hb]. simpl. auto.
  - destruct (split sep s) as [|q qs] eqn:E; [now apply split_nonempty in E|].
    inversion H; subst. destruct (IH q eq_refl) as [-> [Ha Hb]].
    split; [reflexivity|]. split; [|exact Hb].
    simpl. intros [Hc|Hin]; [|tauto].
    subst. now rewrite N.eqb_refl in Ec.
Qed.

(** [trim] before [replace(/\s/g, '')] changes nothing. *)
Lemma removeWhiteSpace_trimStart s :
  removeWhiteSpace (trimStart s) = removeWhiteSpace s.
Proof.
  induction s as [|c s IH]; simpl; [reflexivity|].
  destruct (isWhiteSpace c) eqn:E; simpl; [exact IH|].
  now rewrite E.
Qed.

Lemma removeWhiteSpace_rev s :
  removeWhiteSpace (rev s) = rev (removeWhiteSpace s).
Proof.
  unfold removeWhiteSpace. induction s as [|c s IH]; simpl; [reflexivity|].
  rewrite filter_app, IH. simpl. destruct (isWhiteSpace c); simpl.
  - now rewrite app_nil_r.
  - reflexivity.
Qed.

Lemma removeWhiteSpace_trim s :
  removeWhiteSpace (trim s) = removeWhiteSpace s.
Proof.
  unfold trim, trimEnd.
  rewrite removeWhiteSpace_rev, removeWhiteSpace_trimStart,
    removeWhiteSpace_rev, rev_involutive.
  apply removeWhiteSpace_trimStart.
Qed.

Lemma splitMAWB_on_cleaned s :
  SplitsAs (removeWhiteSpace (trim s)) (splitMAWB s).
Proof.
  unfold splitMAWB. set (m := removeWhiteSpace (trim s)).
  assert (Hfall : count_occ N.eq_dec m hyphen <> 1 ->
    SplitsAs m match regexMatch m with Some (p, a) => (p, a) | None => ([], []) end).
  { intros Hc. destruct (regexMatch m) as [[p a]|] eqn:E.
    - apply by_pattern; [exact Hc | now apply regexMatch_first].
    - apply rejected; [exact Hc | now apply regexMatch_none]. }
  pose proof (split_length hyphen m) as Hlen.
  destruct (split hyphen m) as [|a [|b [|c l]]] eqn:E.
  - apply Hfall. simpl in Hlen. lia.
  - apply Hfall. simpl in Hlen. lia.
  - destruct (split_two _ _ E) as (Hm & Ha & Hb). now apply one_hyphen.
  - apply Hfall. simpl in Hlen. lia.
Qed.

Lemma count_occ_one_hyphen a b :
  ~ In hyphen a -> ~ In hyphen b ->
  count_occ N.eq_dec (a ++ hyphen :: b) hyphen = 1.
Proof.
  intros Ha Hb. rewrite count_occ_app. simpl.
  destruct (N.eq_dec hyphen hyphen); [|congruence].
  apply (count_occ_not_In N.eq_dec) in Ha. apply (count_occ_not_In N.eq_dec) in Hb.
  lia.
Qed.

Lemma one_hyphen_unique a b a' b' :
  a ++ hyphen :: b = a' ++ hyphen :: b' ->
  ~ In hyphen a -> ~ In hyphen a' -> a = a' /\ b = b'.
Proof.
  revert a'. induction a as [|c a IH]; intros [|c' a'] H Ha Ha'; simpl in *.
  - inversion H. auto.
  - inversion H; subst. exfalso. apply Ha'. now left.
  - inversion H; subst. exfalso. apply Ha. now left.
  - inversion H; subst. destruct (IH a' H2) as [-> ->]; auto.
Qed.

Lemma app_same_length {A} (a a' b b' : list A) :
  List.length a = List.length a' -> a ++ b = a' ++ b' -> a = a' /\ b = b'.
Proof.
  revert a'. induction a as [|x a IH]; intros [|x' a'] Hl H;
    simpl in *; try discriminate.
  - auto.
  - inversion H; subst. destruct (IH a') as [-> ->]; auto.
Qed.

Lemma FirstMatch_fun m p n p' n' :
  FirstMatch m p n -> FirstMatch m p' n' -> p = p' /\ n = n'.
Proof.
  intros (pre & s & Hm & Hs & Hleft) (pre' & s' & Hm' & Hs' & Hleft').
  destruct (Nat.lt_trichotomy (List.length pre) (List.length pre')) as [Hlt|[Heq|Hgt]].
  - exfalso. now apply (Hleft' pre s p n).
  - assert (pre = pre' /\ s = s') as [-> ->].
    { rewrite Hm in Hm'. now apply app_same_length. }
    now apply (MatchesAt_fun Hs Hs').
  - exfalso. now apply (Hleft pre' s' p' n').
Qed.

(** The three cases of [SplitsAs] exclude one another, so the relation
    names one answer. *)
Lemma SplitsAs_fun m r r' : SplitsAs m r -> SplitsAs m r' -> r = r'.
Proof.
  intros H H'.
  destruct H as [a b Hm Ha Hb | p n Hc Hf | Hc Hn];
    destruct H' as [a' b' Hm' Ha' Hb' | p' n' Hc' Hf' | Hc' Hn'].
  - rewrite Hm in Hm'. destruct (one_hyphen_unique _ _ _ _ Hm' Ha Ha') as [-> ->].
    reflexivity.
  - exfalso. apply Hc'. subst m. now apply count_occ_one_hyphen.
  - exfalso. apply Hc'. subst m. now apply count_occ_one_hyphen.
  - exfalso. apply Hc. subst m. now apply count_occ_one_hyphen.
  - destruct (FirstMatch_fun Hf Hf') as [-> ->]. reflexivity.
  - exfalso. destruct Hf as (pre & s & Hm & Hs & _). now apply (Hn' pre s p n).
  - exfalso. apply Hc. subst m. now apply count_occ_one_hyphen.
  - exfalso. destruct Hf' as (pre & s & Hm & Hs & _). now apply (Hn pre s p' n').
  - reflexivity.
Qed.

(** C7 (amended): on the string left after trimming and removing all
    whitespace, [splitMAWB] returns the two sides of the hyphen verbatim
    exactly when that string holds one hyphen, whether or not a side is
    empty; with no hyphen or several it returns the groups of the
    leftmost match of three digits, optional separator, eight digits; and
    with no such match it returns two empty strings. *)
Theorem splitMAWB_characterised :
  forall (s : jsstring) (r : jsstring * jsstring),
    splitMAWB s = r <-> SplitsAs (removeWhiteSpace (trim s)) r.
Proof.
  intros s r. split.
  - intros <-. apply splitMAWB_on_cleaned.
  - intros H. exact (SplitsAs_fun (splitMAWB_on_cleaned s) H).
Qed.

(** C7 as stated fails: a one-hyphen string with an empty side is
    returned as it splits, where the claim sends it on to the digit
    pattern. *)
Lemma splitMAWB_keeps_empty_part :
  splitMAWB (lit "-12345678901") = ([], lit "12345678901")
  /\ splitMAWB_spec (lit "-12345678901") = (lit "123", lit "45678901")
  /\ splitMAWB (lit "123-") = (lit "123", [])
  /\ splitMAWB_spec (lit "123-") = ([], [])
  /\ ~ (forall s, splitMAWB s = splitMAWB_spec s).
Proof.
  repeat split; try reflexivity.
  intros H. specialize (H (lit "123-")). vm_compute in H. discriminate.
Qed.

(** Where both sides are non-empty the two agree: a well-formed
    identifier comes back unchanged. *)
Lemma splitMAWB_hyphenated_verbatim p n :
  p <> [] -> n <> [] ->
  ~ In hyphen p -> ~ In hyphen n ->
  Forall (fun c => isWhiteSpace c = false) (p ++ hyphen :: n) ->
  splitMAWB (p ++ hyphen :: n) = (p, n)
  /\ splitMAWB_spec (p ++ hyphen :: n) = (p, n).
Proof.
  intros Hp Hn Hhp Hhn Hws.
  assert (Hclean : removeWhiteSpace (trim (p ++ hyphen :: n)) = p ++ hyphen :: n).
  { rewrite removeWhiteSpace_trim. unfold removeWhiteSpace.
    apply forallb_filter_id. apply forallb_forall. intros c Hc.
    rewrite Forall_forall in Hws. now rewrite (Hws c Hc). }
  assert (Hsplit : splitMAWB (p ++ hyphen :: n) = (p, n)).
  { apply (SplitsAs_fun (splitMAWB_on_cleaned (p ++ hyphen :: n))).
    rewrite Hclean. now apply one_hyphen. }
  split; [exact Hsplit|].
  unfold splitMAWB in Hsplit. unfold splitMAWB_spec. rewrite Hclean in *.
  pose proof (split_length hyphen (p ++ hyphen :: n)) as Hlen.
  rewrite (count_occ_one_hyphen _ _ Hhp Hhn) in Hlen.
  destruct (split hyphen (p ++ hyphen :: n)) as [|a [|b [|c l]]];
    simpl in Hlen; try lia.
  inversion Hsplit; subst.
  destruct p; [congruence|]. destruct n; [congruence|]. reflexivity.
Qed.

Example splitMAWB_hyphenated :
  splitMAWB (lit " 123-45678901 ") = (lit "123", lit "45678901").
Proof. reflexivity. Qed.

Example splitMAWB_embedded :
  splitMAWB (lit "12345678901") = (lit "123", lit "45678901")
  /\ splitMAWB (lit "AWB 123 45678901x") = (lit "123", lit "45678901").
Proof. split; reflexivity. Qed.

Example splitMAWB_rejects :
  splitMAWB (lit "ABCDEF") = ([], []).
Proof. reflexivity. Qed.

Example splitMAWB_many_hyphens :
  splitMAWB (lit "a-123-45678901-b") = (lit "123", lit "45678901").
Proof. reflexivity. Qed.

(** ** routes.ts: the control handler *)




(** ** The constants of a call never change *)

Lemma failJob_ctx id e w : taskCtx (fst (failJob id e w)) = None.
Proof.
  unfold failJob.
  destruct (updateTrackJobStatus (now w) id failed (store w)) as [[j st]|e'];
    reflexivity.
Qed.

Lemma finish_ctx c n w : taskCtx (fst (finish c n w)) = None.
Proof.
  unfold finish.
  destruct (updateTrackJobStatus (now w) (job c) completed (store w))
    as [[j st]|e']; [reflexivity | apply failJob_ctx].
Qed.

Lemma visitRows_ctx c records : forall n w c',
  taskCtx (fst (visitRows c records n w)) = Some c' -> c' = c.
Proof.
  induction records as [|record rest IH]; intros n w c'; simpl.
  - rewrite finish_ctx. discriminate.
  - destruct (cellOf c record) as [mawb|e]; [|rewrite failJob_ctx; discriminate].
    destruct (splitMAWB mawb) as [prefix awbNo].
    destruct (falsy prefix || falsy awbNo).
    + apply IH.
    + simpl. congruence.
Qed.

Lemma afterTrackAWB_ctx ext c rest n mawb prefix awbNo w c' :
  taskCtx (fst (afterTrackAWB ext c rest n mawb prefix awbNo w)) = Some c' ->
  c' = c.
Proof.
  unfold afterTrackAWB.
  destruct (updateTrackJobProgress _ _ _ _) as [[j st]|e].
  - simpl. congruence.
  - rewrite failJob_ctx. discriminate.
Qed.

Lemma advance_ctx ext t w c' :
  taskCtx (fst (advance ext t w)) = Some c' -> taskCtx t = Some c'.
Proof.
  destruct t as [c rest n mawb prefix awbNo | c rest n | n | e]; simpl.
  - intros H. now rewrite (afterTrackAWB_ctx _ _ _ _ _ _ _ _ H).
  - intros H. now rewrite (visitRows_ctx _ _ _ _ H).
  - discriminate.
  - discriminate.
Qed.

Lemma guarded_ctx id r : taskCtx (fst (guarded id r)) = taskCtx (fst r).
Proof.
  destruct r as [t w]. destruct t; try reflexivity. simpl.
  destruct (updateTrackJobStatus (now w) id failed (store w)) as [[j st]|e'];
    reflexivity.
Qed.

Lemma step_ctx ext s turn c' :
  taskCtx (fst (step ext s turn)) = Some c' -> taskCtx (fst s) = Some c'.
Proof.
  destruct s as [t w]. destruct turn as [|req|d]; simpl; try tauto.
  unfold advanceBackground. destruct (taskJob t) eqn:E; [|tauto].
  rewrite guarded_ctx. apply advance_ctx.
Qed.

Lemma run_ctx ext turns : forall s c',
  taskCtx (fst (run ext turns s)) = Some c' -> taskCtx (fst s) = Some c'.
Proof.
  unfold run. induction turns as [|turn turns IH]; intros s c'; simpl.
  - tauto.
  - intros H. apply (step_ctx ext s turn). now apply IH.
Qed.

Lemma beginLoop_ctx c records w c' :
  taskCtx (fst (beginLoop c records w)) = Some c' -> c' = c.
Proof.
  unfold beginLoop.
  destruct (updateTrackJobStatus _ _ _ _) as [[j st]|e].
  - apply visitRows_ctx.
  - rewrite failJob_ctx. discriminate.
Qed.

Lemma processCSVFile_ctx ext decoded id d wss w c :
  taskCtx (fst (processCSVFile ext decoded id d wss w)) = Some c ->
  delay c = d /\ job c = id /\ kind c = CSV.
Proof.
  unfold processCSVFile.
  destruct decoded as [[|first records]|e]; try (rewrite failJob_ctx; discriminate).
  destruct (findMawb ext (map fst first)); [|rewrite failJob_ctx; discriminate].
  intros H. apply beginLoop_ctx in H. subst c. auto.
Qed.

Lemma processExcelFile_ctx ext decoded id d wss w c :
  taskCtx (fst (processExcelFile ext decoded id d wss w)) = Some c ->
  delay c = d /\ job c = id /\ kind c = Excel.
Proof.
  unfold processExcelFile.
  destruct decoded as [records|e]; [|rewrite failJob_ctx; discriminate].
  match goal with |- context [falsy ?k] => destruct (falsy k) end;
    [rewrite failJob_ctx; discriminate|].
  intros H. apply beginLoop_ctx in H. subst c. auto.
Qed.

(** ** The row loop: what a turn does to the world *)

Lemma store_broadcastMessage wss id m w :
  store (broadcastMessage wss id m w) = store w.
Proof. unfold broadcastMessage. now destruct wss. Qed.

Lemma now_broadcastMessage wss id m w :
  now (broadcastMessage wss id m w) = now w.
Proof. unfold broadcastMessage. now destruct wss. Qed.

Lemma broadcasts_broadcastMessage c m w :
  broadcasts (broadcastMessage (wss c) (job c) m w)
  = broadcasts w ++ sentBy c [m].
Proof.
  unfold broadcastMessage, sentBy. destruct (wss c); simpl.
  - reflexivity.
  - now rewrite app_nil_r.
Qed.

Lemma jobExists_broadcastMessage id wss id' m w :
  jobExists id (broadcastMessage wss id' m w) <-> jobExists id w.
Proof. unfold jobExists, jobOf. now rewrite store_broadcastMessage. Qed.

Lemma getTrackJob_setTrackJob id id' j st :
  getTrackJob id st <> None -> getTrackJob id (setTrackJob id' j st) <> None.
Proof.
  unfold getTrackJob, setTrackJob. simpl. intros H.
  destruct (Nat.eq_dec id id') as [->|Hne].
  - rewrite map_get_set_same. discriminate.
  - now rewrite map_get_set_other.
Qed.

Lemma jobExists_found id w :
  jobExists id w -> exists j, getTrackJob id (store w) = Some j.
Proof.
  unfold jobExists, jobOf. destruct (getTrackJob id (store w)) as [j|].
  - eauto.
  - congruence.
Qed.

Lemma controlRoute_keeps_jobs now req st id :
  getTrackJob id st <> None ->
  getTrackJob id (snd (controlRoute now req st)) <> None.
Proof.
  intros H. unfold controlRoute.
  destruct (idParam req) as [id'|]; [|exact H].
  destruct (action req) as [a|issue]; [|exact H].
  destruct (getTrackJob id' st) as [j|] eqn:Ej; [|exact H].
  rewrite (updateTrackJobStatus_found now id' (newStatus a) st Ej). simpl.
  now apply getTrackJob_setTrackJob.
Qed.

Lemma finish_found c n w j :
  jobOf (job c) w = Some j ->
  finish c n w
  = (Returned n,
     broadcastMessage (wss c) (job c)
       (complete (lit "Tracking completed. Processed " ++ numToString n
                  ++ lit " records."))
       (withStore w (setTrackJob (job c) (withStatus (now w) completed j)
                       (store w)))).
Proof.
  unfold finish, jobOf. intros H.
  now rewrite (updateTrackJobStatus_found (now w) (job c) completed (store w) H).
Qed.

Lemma visitRows_healthy c records : forall n w,
  jobExists (job c) w -> wellFormed c records ->
  healthy (fst (visitRows c records n w)) (snd (visitRows c records n w))
  /\ finalCount (fst (visitRows c records n w)) = n + List.length records
  /\ turnsLeft (fst (visitRows c records n w)) <= 2 * List.length records.
Proof.
  induction records as [|record rest IH]; intros n w Hj Hwf.
  - destruct (jobExists_found Hj) as [j Ej]. simpl.
    rewrite (finish_found c n w Ej). simpl. repeat split; lia.
  - inversion Hwf as [|? ? [mawb Hcell] Hrest]; subst. simpl.
    rewrite Hcell. destruct (splitMAWB mawb) as [prefix awbNo].
    destruct (falsy prefix || falsy awbNo).
    + edestruct (IH (S n)) as (H1 & H2 & H3);
        [apply jobExists_broadcastMessage; exact Hj | exact Hrest |].
      split; [exact H1|]. split; [rewrite H2; lia | etransitivity; [exact H3 | lia]].
    + simpl. split; [|split; lia].
      split; [now apply jobExists_broadcastMessage | exact Hrest].
Qed.

Lemma store_settleRow_jobs c n mawb prefix awbNo settled w :
  trackJobs (store (settleRow c n mawb prefix awbNo settled w))
  = trackJobs (store w).
Proof.
  unfold settleRow, createTrackResult. destruct settled as [r|e].
  - cbv beta iota zeta. now rewrite !store_broadcastMessage.
  - now rewrite store_broadcastMessage.
Qed.

Lemma now_settleRow c n mawb prefix awbNo settled w :
  now (settleRow c n mawb prefix awbNo settled w) = now w.
Proof.
  unfold settleRow, createTrackResult. destruct settled as [r|e].
  - cbv beta iota zeta. now rewrite !now_broadcastMessage.
  - now rewrite now_broadcastMessage.
Qed.

Lemma afterTrackAWB_found ext c rest n mawb prefix awbNo w j :
  jobOf (job c) w = Some j ->
  let w1 := settleRow c n mawb prefix awbNo (trackAWB ext n prefix awbNo) w in
  afterTrackAWB ext c rest n mawb prefix awbNo w
  = (AwaitDelay c rest n,
     broadcastMessage (wss c) (job c) (progress n (totalCount c))
       (withStore w1 (setTrackJob (job c) (withProgress (now w) n j)
                        (store w1)))).
Proof.
  intros Hj w1. unfold afterTrackAWB. fold w1.
  assert (Hj1 : getTrackJob (job c) (store w1) = Some j).
  { unfold jobOf, getTrackJob in *. subst w1.
    now rewrite store_settleRow_jobs. }
  rewrite (updateTrackJobProgress_found (now w1) (job c) n (store w1) Hj1).
  subst w1. now rewrite now_settleRow.
Qed.

Lemma guarded_healthy id r : healthy (fst r) (snd r) -> guarded id r = r.
Proof. destruct r as [[| | |e] w]; simpl; tauto. Qed.

Lemma advanceBackground_healthy ext t w :
  healthy t w ->
  advanceBackground ext t w = advance ext t w
  /\ healthy (fst (advance ext t w)) (snd (advance ext t w))
  /\ finalCount (fst (advance ext t w)) = finalCount t
  /\ (turnsLeft t = 0 \/ turnsLeft (fst (advance ext t w)) < turnsLeft t).
Proof.
  intros H.
  assert (Hadv :
    healthy (fst (advance ext t w)) (snd (advance ext t w))
    /\ finalCount (fst (advance ext t w)) = finalCount t
    /\ (turnsLeft t = 0 \/ turnsLeft (fst (advance ext t w)) < turnsLeft t)).
  { destruct t as [c rest n mawb prefix awbNo | c rest n | n | e]; simpl in *.
    - destruct H as [Hj Hwf]. destruct (jobExists_found Hj) as [j Ej].
      rewrite (afterTrackAWB_found ext c rest n mawb prefix awbNo w Ej).
      simpl. split; [|split; [reflexivity | right; lia]].
      split; [|exact Hwf]. apply jobExists_broadcastMessage.
      unfold jobExists, jobOf. simpl. apply getTrackJob_setTrackJob.
      unfold getTrackJob. rewrite store_settleRow_jobs.
      unfold jobOf, getTrackJob in Ej. now rewrite Ej.
    - destruct H as [Hj Hwf].
      destruct (visitRows_healthy n Hj Hwf) as (H1 & H2 & H3).
      split; [exact H1|]. split; [exact H2 | right; lia].
    - auto.
    - tauto. }
  split; [|exact Hadv].
  unfold advanceBackground.
  destruct t; cbn [taskJob]; try reflexivity;
    apply guarded_healthy; apply Hadv.
Qed.

Lemma step_healthy ext t w turn :
  healthy t w ->
  healthy (fst (step ext (t, w) turn)) (snd (step ext (t, w) turn))
  /\ finalCount (fst (step ext (t, w) turn)) = finalCount t
  /\ turnsLeft (fst (step ext (t, w) turn))
     <= turnsLeft t - (if isResume turn then 1 else 0).
Proof.
  intros H. destruct turn as [|req|d]; simpl.
  - destruct (advanceBackground_healthy ext t w H) as (-> & H1 & H2 & H3).
    split; [exact H1|]. split; [exact H2|].
    destruct H3 as [H3|H3]; [|lia].
    destruct t; simpl in *; lia.
  - split; [|split; [reflexivity | lia]].
    destruct t as [c rest n mawb prefix awbNo | c rest n | n | e]; simpl in *;
      try tauto;
      (split; [|apply H]; unfold jobExists, jobOf; simpl;
       apply controlRoute_keeps_jobs; apply H).
  - split; [|split; [reflexivity | lia]].
    destruct t; simpl in *; tauto.
Qed.

(** Given enough turns, a task that has not been aborted returns the
    number of rows of the file, whatever requests are served in between
    and however the lookups settle. *)
Lemma run_returns ext turns : forall t w,
  healthy t w -> turnsLeft t <= resumes turns ->
  fst (run ext turns (t, w)) = Returned (finalCount t).
Proof.
  unfold run, resumes.
  induction turns as [|turn turns IH]; intros t w H Hn.
  - destruct t; simpl in *; solve [lia | reflexivity | tauto].
  - cbn [fold_left].
    destruct (step_healthy ext t w turn H) as (H1 & H2 & H3).
    destruct (step ext (t, w) turn) as [t' w'] eqn:E. cbn [fst snd] in *.
    rewrite <- H2. apply IH; [exact H1|].
    cbn [filter] in Hn.
    destruct (isResume turn); cbn [List.length] in Hn; lia.
Qed.

Lemma sentBy_app c ms ms' : sentBy c ms ++ sentBy c ms' = sentBy c (ms ++ ms').
Proof.
  unfold sentBy. destruct (wss c); [|reflexivity].
  now rewrite map_app.
Qed.

Lemma broadcasts_failJob id e w : broadcasts (snd (failJob id e w)) = broadcasts w.
Proof.
  unfold failJob.
  destruct (updateTrackJobStatus (now w) id failed (store w)) as [[j st]|e'];
    reflexivity.
Qed.

Lemma broadcasts_finish c n w :
  exists more, broadcasts (snd (finish c n w)) = broadcasts w ++ more.
Proof.
  unfold finish.
  destruct (updateTrackJobStatus (now w) (job c) completed (store w))
    as [[j st]|e'].
  - simpl. rewrite broadcasts_broadcastMessage. simpl. eauto.
  - rewrite broadcasts_failJob. exists []. now rewrite app_nil_r.
Qed.

(** The trace of messages only grows. *)
Lemma broadcasts_visitRows c records : forall n w,
  exists more, broadcasts (snd (visitRows c records n w)) = broadcasts w ++ more.
Proof.
  induction records as [|record rest IH]; intros n w; cbn [visitRows].
  - apply broadcasts_finish.
  - destruct (cellOf c record) as [mawb|e].
    + destruct (splitMAWB mawb) as [prefix awbNo].
      destruct (falsy prefix || falsy awbNo).
      * match goal with
        | |- context [visitRows c rest (S n) ?w1] =>
            destruct (IH (S n) w1) as [more Hmore]
        end.
        rewrite Hmore, broadcasts_broadcastMessage, <- app_assoc. eauto.
      * cbn [snd]. rewrite broadcasts_broadcastMessage. eauto.
    + rewrite broadcasts_failJob. exists []. now rewrite app_nil_r.
Qed.

(** What the turn that settles a row sends. *)
Lemma afterTrackAWB_trace ext c rest n mawb prefix awbNo w j :
  jobOf (job c) w = Some j ->
  broadcasts (snd (afterTrackAWB ext c rest n mawb prefix awbNo w))
  = broadcasts w
    ++ sentBy c
         (match trackAWB ext n prefix awbNo with
          | Ok fields =>
              [log (rowTag n ++ lit "Success: " ++ mawb) success;
               result (toInsert mawb prefix awbNo fields)]
          | Throw e =>
              [log (rowTag n ++ lit "Error tracking " ++ mawb ++ lit ": "
                    ++ errorToString e) error]
          end ++ [progress n (totalCount c)]).
Proof.
  intros Hj. rewrite (afterTrackAWB_found ext c rest n mawb prefix awbNo w Hj).
  cbn [snd]. rewrite broadcasts_broadcastMessage. cbn [withStore broadcasts].
  unfold settleRow, createTrackResult.
  destruct (trackAWB ext n prefix awbNo) as [fields|e]; cbv beta iota zeta;
    rewrite ?broadcasts_broadcastMessage; cbn [withStore broadcasts];
    rewrite <- ?app_assoc, ?sentBy_app; reflexivity.
Qed.

(** C9: when the lookup made for row K rejects, the turn that settles
    the row sends a log of level error that names the row and the error,
    persists K as the processed count, sends the progress K of total,
    creates no result, and leaves the task waiting for its timer with the
    remaining rows: the job is not failed.  Resumed, in whatever state
    the world is by then, the task goes on with row K+1: when the
    identifier of that row splits, its lookup is started, and when that
    lookup resolves its result is stored and sent; when it does not
    split, the row is logged as skipped.  Given its turns the task
    returns the full row count, whatever the later lookups and requests
    do. *)
Theorem lookup_failure_never_aborts :
  forall (ext : Externals) (c : Ctx) (rest : list Record_) (K : nat)
         (mawb prefix awbNo : jsstring) (e : JsError) (w : World)
         (j : TrackJob.t),
    trackAWB ext K prefix awbNo = Throw e ->
    jobOf (job c) w = Some j ->
    wellFormed c rest ->
    let s := step ext (AwaitTrackAWB c rest K mawb prefix awbNo, w) Resume in
    let tag n := lit "[Row " ++ numToString n ++ lit "] " in
    let detail :=
      if falsy (name e) then message e
      else if falsy (message e) then name e
      else name e ++ lit ": " ++ message e in
    fst s = AwaitDelay c rest K
    /\ broadcasts (snd s)
       = broadcasts w
         ++ sentBy c
              [log (tag K ++ lit "Error tracking " ++ mawb ++ lit ": "
                    ++ detail) error;
               progress K (totalCount c)]
    /\ jobOf (job c) (snd s) = Some (withProgress (now w) K j)
    /\ trackResults (store (snd s)) = trackResults (store w)
    /\ (forall r rest' m w2,
          rest = r :: rest' -> cellOf c r = Ok m -> lookedUp m = true ->
          let p := fst (splitMAWB m) in
          let a := snd (splitMAWB m) in
          step ext (fst s, w2) Resume
          = (AwaitTrackAWB c rest' (S K) m p a,
             broadcastMessage (wss c) (job c)
               (log (tag (S K) ++ lit "Tracking MAWB: " ++ m
                     ++ lit " (prefix: " ++ p ++ lit ", awbno: " ++ a
                     ++ lit ")") info) w2)
          /\ forall fields w3 j3,
               trackAWB ext (S K) p a = Ok fields ->
               jobOf (job c) w3 = Some j3 ->
               let s3 :=
                 step ext (AwaitTrackAWB c rest' (S K) m p a, w3) Resume in
               fst s3 = AwaitDelay c rest' (S K)
               /\ (exists stored,
                      map_get (trackResults (store (snd s3)))
                        (currentTrackResultId (store w3)) = Some stored
                      /\ asInsert stored = toInsert m p a fields)
               /\ broadcasts (snd s3)
                  = broadcasts w3
                    ++ sentBy c
                         [log (tag (S K) ++ lit "Success: " ++ m) success;
                          result (toInsert m p a fields);
                          progress (S K) (totalCount c)])
    /\ (forall r rest' m w2,
          rest = r :: rest' -> cellOf c r = Ok m -> lookedUp m = false ->
          exists more,
            broadcasts (snd (step ext (fst s, w2) Resume))
            = broadcasts w2
              ++ sentBy c
                   [log (tag (S K) ++ lit "Skipping invalid MAWB: " ++ m) warn]
              ++ more)
    /\ (forall turns,
          2 * List.length rest + 1 <= resumes turns ->
          fst (run ext turns s) = Returned (K + List.length rest)).
Proof.
  intros ext c rest K mawb prefix awbNo e w j Hthrow Hj Hwf s tag detail.
  assert (Hex : jobExists (job c) w) by (unfold jobExists; congruence).
  assert (Hs : s = (AwaitDelay c rest K,
                    broadcastMessage (wss c) (job c) (progress K (totalCount c))
                      (withStore
                         (settleRow c K mawb prefix awbNo (Throw e) w)
                         (setTrackJob (job c) (withProgress (now w) K j)
                            (store (settleRow c K mawb prefix awbNo (Throw e) w)))))).
  { subst s. cbn [step].
    destruct (advanceBackground_healthy ext
                (AwaitTrackAWB c rest K mawb prefix awbNo) w (conj Hex Hwf))
      as (-> & _).
    cbn [advance].
    rewrite (afterTrackAWB_found ext c rest K mawb prefix awbNo w Hj).
    now rewrite Hthrow. }
  assert (Hhealthy : healthy (fst s) (snd s)).
  { subst s. cbn [step].
    destruct (advanceBackground_healthy ext
                (AwaitTrackAWB c rest K mawb prefix awbNo) w (conj Hex Hwf))
      as (-> & H & _).
    exact H. }
  split; [now rewrite Hs|].
  split.
  { rewrite Hs. cbn [snd]. rewrite broadcasts_broadcastMessage.
    cbn [withStore broadcasts settleRow].
    rewrite broadcasts_broadcastMessage, <- app_assoc, sentBy_app.
    reflexivity. }
  split.
  { rewrite Hs. cbn [snd]. unfold jobOf. rewrite store_broadcastMessage.
    cbn [withStore store]. unfold getTrackJob, setTrackJob. cbn [trackJobs].
    apply map_get_set_same. }
  split.
  { rewrite Hs. cbn [snd]. rewrite store_broadcastMessage.
    cbn [withStore store settleRow setTrackJob trackResults].
    now rewrite store_broadcastMessage. }
  split.
  { intros r rest' m w2 -> Hcell Hlook p a. rewrite Hs. cbn [fst step].
    unfold lookedUp in Hlook. subst p a.
    destruct (splitMAWB m) as [p a] eqn:Esplit. cbn [fst snd].
    apply negb_true_iff in Hlook.
    split.
    - unfold advanceBackground. cbn [taskJob advance visitRows].
      rewrite Hcell, Esplit, Hlook. reflexivity.
    - intros fields w3 j3 Hok Hj3. cbn [step].
      unfold advanceBackground. cbn [taskJob advance].
      pose proof (afterTrackAWB_trace ext c rest' (S K) m p a w3 Hj3) as Ht.
      rewrite (afterTrackAWB_found ext c rest' (S K) m p a w3 Hj3) in *.
      cbn [guarded fst snd] in *. rewrite Hok in *.
      split; [reflexivity|]. split; [|exact Ht].
      rewrite store_broadcastMessage.
      cbn [withStore store setTrackJob trackResults settleRow].
      unfold createTrackResult. cbv beta iota zeta.
      rewrite !store_broadcastMessage. cbn [withStore store trackResults].
      eexists. split; [apply map_get_set_same | reflexivity]. }
  split.
  { intros r rest' m w2 -> Hcell Hlook. rewrite Hs. cbn [fst step].
    unfold advanceBackground. cbn [taskJob advance].
    assert (Hb : exists more,
              broadcasts (snd (visitRows c (r :: rest') K w2))
              = broadcasts w2
                ++ sentBy c
                     [log (tag (S K) ++ lit "Skipping invalid MAWB: " ++ m) warn]
                ++ more).
    { cbn [visitRows]. rewrite Hcell. unfold lookedUp in Hlook.
      destruct (splitMAWB m) as [p a]. apply negb_false_iff in Hlook.
      rewrite Hlook.
      match goal with
      | |- context [visitRows c rest' (S K) ?w1] =>
          destruct (broadcasts_visitRows c rest' (S K) w1) as [more Hmore]
      end.
      exists more. rewrite Hmore, broadcasts_broadcastMessage, <- app_assoc.
      subst tag. unfold rowTag. now rewrite <- !app_assoc. }
    destruct Hb as [more Hb]. exists more. rewrite <- Hb.
    destruct (visitRows c (r :: rest') K w2) as [[| | |e'] w3]; try reflexivity.
    cbn [guarded snd].
    destruct (updateTrackJobStatus (now w3) (job c) failed (store w3))
      as [[j' st']|e'']; reflexivity. }
  intros turns Hturns.
  destruct s as [t ws]. cbn [fst snd] in *.
  rewrite (run_returns ext turns t ws Hhealthy).
  - inversion Hs; subst. reflexivity.
  - inversion Hs; subst. cbn [turnsLeft]. lia.
Qed.

Lemma lookup_failure_never_aborts_witness :
  trackAWB (failingAt 1) 1 (lit "111") (lit "22222222") = Throw timeoutError
  /\ jobOf 1 runningWorld = Some runningJob
  /\ wellFormed runningCtx [row "333-44444444"]
  /\ broadcasts
       (snd (step (failingAt 1)
               (AwaitTrackAWB runningCtx [row "333-44444444"] 1
                  (lit "111-22222222") (lit "111") (lit "22222222"),
                runningWorld) Resume))
     = [mkBroadcast 1
          (log (lit "[Row 1] Error tracking 111-22222222: FetchError: network timeout")
               error);
        mkBroadcast 1 (progress 1 2)]
  /\ fst (run (failingAt 1) [Resume]
            (step (failingAt 1)
               (AwaitTrackAWB runningCtx [row "333-44444444"] 1
                  (lit "111-22222222") (lit "111") (lit "22222222"),
                runningWorld) Resume))
     = AwaitTrackAWB runningCtx [] 2 (lit "333-44444444") (lit "333")
         (lit "44444444")
  /\ fst (run (failingAt 1) [Resume; control 1 pause; Resume; Resume]
            (step (failingAt 1)
               (AwaitTrackAWB runningCtx [row "333-44444444"] 1
                  (lit "111-22222222") (lit "111") (lit "22222222"),
                runningWorld) Resume))
     = Returned 2.
Proof.
  assert (Hwf : wellFormed runningCtx [row "333-44444444"]).
  { repeat constructor. eexists. reflexivity. }
  split; [reflexivity|]. split; [reflexivity|]. split; [exact Hwf|].
  destruct (@lookup_failure_never_aborts (failingAt 1) runningCtx
              [row "333-44444444"] 1
              (lit "111-22222222") (lit "111") (lit "22222222")
              timeoutError runningWorld runningJob
              (eq_refl : trackAWB (failingAt 1) 1 (lit "111") (lit "22222222")
                         = Throw timeoutError)
              (eq_refl : jobOf (job runningCtx) runningWorld = Some runningJob)
              Hwf)
    as (H1 & H2 & _ & _ & H5 & _ & H7).
  split; [exact H2|].
  split.
  - unfold run. cbn [fold_left].
    set (s := step (failingAt 1)
                (AwaitTrackAWB runningCtx [row "333-44444444"] 1
                   (lit "111-22222222") (lit "111") (lit "22222222"),
                 runningWorld) Resume) in *.
    destruct (H5 (row "333-44444444") [] (lit "333-44444444") (snd s)
                eq_refl eq_refl eq_refl) as [Hnext _].
    rewrite (surjective_pairing s), Hnext. reflexivity.
  - apply (H7 [Resume; control 1 pause; Resume; Resume]).
    vm_compute. lia.
Defined.

(** ** Where the code parts from the specification *)

(** C1 (the code does otherwise): a three-row file, cancelled by a
    control request while the loop waits after row 1.  The request sets
    the stored status to cancelled; the loop, which never reads the
    status, goes on through rows 2 and 3, records 3 processed rows,
    overwrites the status with completed and reports 3 records. *)
Theorem cancel_does_not_stop_the_loop :
  let cancelledAt1 := uploadThen stub threeRows [Resume; control 1 cancel] world0 in
  let final :=
    uploadThen stub threeRows
      ([Resume; control 1 cancel] ++ repeat Resume 5) world0 in
  statusOf 1 (snd cancelledAt1) = Some cancelled
  /\ processedOf 1 (snd cancelledAt1) = Some 1
  /\ fst final = Returned 3
  /\ processedOf 1 (snd final) = Some 3
  /\ statusOf 1 (snd final) = Some completed
  /\ List.length (getTrackResultsByJob 1 (store (snd final))) = 3
  /\ filter isComplete (broadcasts (snd final))
     = [mkBroadcast 1
          (complete (lit "Tracking completed. Processed 3 records."))].
Proof. vm_compute. repeat split; reflexivity. Qed.

(** C2 (the code does otherwise): a two-row file, cancelled while the
    loop waits after row 1.  With the job in the terminal status
    cancelled, the loop still sends the result and the progress of
    row 2. *)
Theorem events_follow_a_cancelled_status :
  let cancelledAt1 := uploadThen stub twoRows [Resume; control 1 cancel] world0 in
  let final :=
    uploadThen stub twoRows
      ([Resume; control 1 cancel] ++ repeat Resume 3) world0 in
  let seen := List.length (broadcasts (snd cancelledAt1)) in
  statusOf 1 (snd cancelledAt1) = Some cancelled
  /\ terminal cancelled = true
  /\ firstn seen (broadcasts (snd final)) = broadcasts (snd cancelledAt1)
  /\ filter (fun b => isResult b || isProgress b) (sentAfter seen (snd final))
     = [mkBroadcast 1
          (result (toInsert (lit "333-44444444") (lit "333") (lit "44444444")
                     fixedRecord));
        mkBroadcast 1 (progress 2 2)].
Proof. vm_compute. repeat split; reflexivity. Qed.

(** C5 (the code does otherwise): a file whose second and last row does
    not parse.  The row is logged and counted in the final message, but
    the [continue] passes over the progress update: no progress 2 of 2 is
    sent and the persisted processed count stays 1. *)
Theorem invalid_row_skips_the_progress_update :
  let final :=
    uploadThen stub [row "111-22222222"; row "bad"] (repeat Resume 2) world0 in
  fst final = Returned 2
  /\ filter isProgress (broadcasts (snd final)) = [mkBroadcast 1 (progress 1 2)]
  /\ processedOf 1 (snd final) = Some 1
  /\ In (mkBroadcast 1 (log (lit "[Row 2] Skipping invalid MAWB: bad") warn))
        (broadcasts (snd final))
  /\ filter isComplete (broadcasts (snd final))
     = [mkBroadcast 1
          (complete (lit "Tracking completed. Processed 2 records."))].
Proof.
  vm_compute. repeat split; try reflexivity.
  right. right. right. right. left. reflexivity.
Qed.

(** C6 (the code does otherwise): a one-row file.  The job is created
    with total 0 and no operation of the store writes the total, so once
    the row is processed the persisted processed count, 1, exceeds the
    persisted total, 0, although the progress message carries the total
    1. *)
Theorem persisted_total_stays_zero :
  let final := uploadThen stub [row "111-22222222"] (repeat Resume 2) world0 in
  fst final = Returned 1
  /\ statusOf 1 (snd final) = Some completed
  /\ processedOf 1 (snd final) = Some 1
  /\ totalOf 1 (snd final) = Some 0
  /\ filter isProgress (broadcasts (snd final)) = [mkBroadcast 1 (progress 1 1)].
Proof. vm_compute. repeat split; reflexivity. Qed.

(** C3 (the code does otherwise): job 1 tracks one identifier; job 2 is
    a file with no valid identifier, so it creates no result and sends
    none.  The result query for job 2 still returns the result of
    job 1: the query returns every stored result, in insertion order,
    for any job id. *)
Theorem results_query_ignores_the_job :
  let w1 := snd (uploadThen stub [row "111-22222222"] (repeat Resume 2) world0) in
  let w2 := snd (uploadThen stub [row "bad"] [] w1) in
  statusOf 1 w2 = Some completed
  /\ statusOf 2 w2 = Some completed
  /\ filter (fun b => isResult b && forJob 2 b) (broadcasts w2) = []
  /\ map TrackResult.mawb (getTrackResultsByJob 2 (store w2))
     = [lit "111-22222222"]
  /\ resultsRoute (Some 2) (store w2) = resultsRoute (Some 1) (store w2)
  /\ (forall id st,
        getTrackResultsByJob id st = map_values (trackResults st)).
Proof. vm_compute. repeat split; reflexivity. Qed.

(** ** The loop does not read what a control request writes *)

Lemma sameJobData_refl a : sameJobData a a.
Proof. repeat split. Qed.

Lemma sameJobData_sym a b : sameJobData a b -> sameJobData b a.
Proof. unfold sameJobData. intuition congruence. Qed.

Lemma sameJobData_trans a b c :
  sameJobData a b -> sameJobData b c -> sameJobData a c.
Proof. unfold sameJobData. intuition congruence. Qed.

Lemma sameJobData_withStatus now now' s s' a b :
  sameJobData a b -> sameJobData (withStatus now s a) (withStatus now' s' b).
Proof. unfold sameJobData. simpl. tauto. Qed.

Lemma sameJobData_withProgress now now' n a b :
  sameJobData a b -> sameJobData (withProgress now n a) (withProgress now' n b).
Proof. unfold sameJobData. simpl. tauto. Qed.

Lemma jobs_get_sim m1 m2 k :
  Forall2 sameJobEntry m1 m2 ->
  match map_get m1 k, map_get m2 k with
  | Some a, Some b => sameJobData a b
  | None, None => True
  | _, _ => False
  end.
Proof.
  induction 1 as [|[k1 a] [k2 b] m1 m2 [Hk Hd] _ IH]; simpl; [exact I|].
  simpl in Hk, Hd. subst k2. destruct (k =? k1); [exact Hd | exact IH].
Qed.

Lemma jobs_set_sim m1 m2 k a b :
  Forall2 sameJobEntry m1 m2 -> sameJobData a b ->
  Forall2 sameJobEntry (map_set m1 k a) (map_set m2 k b).
Proof.
  intros H Hab.
  induction H as [|[k1 a1] [k2 b1] m1 m2 [Hk Hd] Hrest IH]; simpl.
  - constructor; [split; [reflexivity | exact Hab] | constructor].
  - simpl in Hk, Hd. subst k2. destruct (k =? k1).
    + constructor; [split; [reflexivity | exact Hab] | exact Hrest].
    + constructor; [split; [reflexivity | exact Hd] | exact IH].
Qed.

Lemma jobs_set_left m1 m2 k a a' :
  Forall2 sameJobEntry m1 m2 -> map_get m1 k = Some a -> sameJobData a a' ->
  Forall2 sameJobEntry (map_set m1 k a') m2.
Proof.
  intros H. induction H as [|[k1 a1] [k2 b1] m1 m2 [Hk Hd] Hrest IH];
    simpl; [discriminate|].
  simpl in Hk, Hd. subst k2. destruct (k =? k1) eqn:E.
  - intros Hget Haa'. inversion Hget; subst a1. apply Nat.eqb_eq in E. subst k1.
    constructor; [|exact Hrest]. split; [reflexivity|]. simpl.
    apply sameJobData_trans with a; [now apply sameJobData_sym | exact Hd].
  - intros Hget Haa'. constructor; [split; [reflexivity | exact Hd]|].
    now apply IH.
Qed.

Lemma sameWorld_refl w : sameWorldButControl w w.
Proof.
  repeat split. induction (trackJobs (store w)) as [|[k a] m IH];
    constructor; [split; [reflexivity | apply sameJobData_refl] | exact IH].
Qed.

Lemma sameWorld_broadcastMessage wss id m w1 w2 :
  sameWorldButControl w1 w2 ->
  sameWorldButControl (broadcastMessage wss id m w1)
                      (broadcastMessage wss id m w2).
Proof.
  unfold sameWorldButControl, broadcastMessage.
  intros (Hb & Hn & Hs). destruct wss; simpl; [|tauto].
  rewrite Hb. tauto.
Qed.

(** A write to a job through [setTrackJob], on both sides. *)
Lemma sameWorld_setTrackJob w1 w2 id a b :
  sameWorldButControl w1 w2 -> sameJobData a b ->
  sameWorldButControl (withStore w1 (setTrackJob id a (store w1)))
                      (withStore w2 (setTrackJob id b (store w2))).
Proof.
  unfold sameWorldButControl, sameButControl.
  intros (Hb & Hn & Hj & Hrest) Hab. simpl.
  split; [exact Hb|]. split; [exact Hn|]. split; [|exact Hrest].
  now apply jobs_set_sim.
Qed.

Lemma getTrackJob_sim w1 w2 id :
  sameWorldButControl w1 w2 ->
  match getTrackJob id (store w1), getTrackJob id (store w2) with
  | Some a, Some b => sameJobData a b
  | None, None => True
  | _, _ => False
  end.
Proof. intros (_ & _ & Hj & _). apply jobs_get_sim, Hj. Qed.

Lemma failJob_sim id e w1 w2 :
  sameWorldButControl w1 w2 -> unobserved (failJob id e w1) (failJob id e w2).
Proof.
  intros H. unfold failJob, updateTrackJobStatus.
  pose proof (getTrackJob_sim id H) as Hg.
  destruct (getTrackJob id (store w1)) as [a|], (getTrackJob id (store w2)) as [b|];
    try contradiction.
  - split; [reflexivity|]. cbn [snd]. pose proof H as (Hb & Hn & Hs).
    rewrite Hn. apply sameWorld_setTrackJob; [exact H|].
    now apply sameJobData_withStatus.
  - split; [reflexivity | exact H].
Qed.

Lemma finish_sim c n w1 w2 :
  sameWorldButControl w1 w2 -> unobserved (finish c n w1) (finish c n w2).
Proof.
  intros H. unfold finish, updateTrackJobStatus.
  pose proof (getTrackJob_sim (job c) H) as Hg.
  destruct (getTrackJob (job c) (store w1)) as [a|],
           (getTrackJob (job c) (store w2)) as [b|]; try contradiction.
  - split; [reflexivity|]. cbn [snd]. apply sameWorld_broadcastMessage.
    pose proof H as (Hb & Hn & Hs). rewrite Hn.
    apply sameWorld_setTrackJob; [exact H|].
    now apply sameJobData_withStatus.
  - now apply failJob_sim.
Qed.

Lemma visitRows_sim c records : forall n w1 w2,
  sameWorldButControl w1 w2 ->
  unobserved (visitRows c records n w1) (visitRows c records n w2).
Proof.
  induction records as [|record rest IH]; intros n w1 w2 H; cbn [visitRows].
  - now apply finish_sim.
  - destruct (cellOf c record) as [mawb|e]; [|now apply failJob_sim].
    destruct (splitMAWB mawb) as [prefix awbNo].
    destruct (falsy prefix || falsy awbNo).
    + apply IH. now apply sameWorld_broadcastMessage.
    + split; [reflexivity|]. cbn [snd]. now apply sameWorld_broadcastMessage.
Qed.

Lemma settleRow_sim c n mawb prefix awbNo settled w1 w2 :
  sameWorldButControl w1 w2 ->
  sameWorldButControl (settleRow c n mawb prefix awbNo settled w1)
                      (settleRow c n mawb prefix awbNo settled w2).
Proof.
  intros H. unfold settleRow, createTrackResult. destruct settled as [r|e].
  - cbv beta iota zeta. do 2 apply sameWorld_broadcastMessage.
    destruct H as (Hb & Hn & Hj & Hr & Hu & Hcu & Hcr & Hcj).
    unfold sameWorldButControl, sameButControl. simpl.
    rewrite Hb, Hn, Hr, Hu, Hcu, Hcr, Hcj. tauto.
  - now apply sameWorld_broadcastMessage.
Qed.

Lemma afterTrackAWB_sim ext c rest n mawb prefix awbNo w1 w2 :
  sameWorldButControl w1 w2 ->
  unobserved (afterTrackAWB ext c rest n mawb prefix awbNo w1)
             (afterTrackAWB ext c rest n mawb prefix awbNo w2).
Proof.
  intros H. unfold afterTrackAWB, updateTrackJobProgress.
  pose proof (settleRow_sim c n mawb prefix awbNo
                (trackAWB ext n prefix awbNo) H) as H'.
  set (v1 := settleRow c n mawb prefix awbNo (trackAWB ext n prefix awbNo) w1) in *.
  set (v2 := settleRow c n mawb prefix awbNo (trackAWB ext n prefix awbNo) w2) in *.
  pose proof (getTrackJob_sim (job c) H') as Hg.
  destruct (getTrackJob (job c) (store v1)) as [a|],
           (getTrackJob (job c) (store v2)) as [b|]; try contradiction.
  - split; [reflexivity|]. cbn [snd]. apply sameWorld_broadcastMessage.
    pose proof H' as (Hb & Hn & Hs). rewrite Hn.
    apply sameWorld_setTrackJob; [exact H'|].
    now apply sameJobData_withProgress.
  - now apply failJob_sim.
Qed.

Lemma guarded_sim id s1 s2 :
  unobserved s1 s2 -> unobserved (guarded id s1) (guarded id s2).
Proof.
  destruct s1 as [t1 w1], s2 as [t2 w2]. intros [Ht H]. simpl in Ht, H.
  subst t2. destruct t1 as [| | |e]; try (split; [reflexivity | exact H]).
  pose proof (failJob_sim id e H) as Hf. unfold failJob in Hf.
  cbn [guarded].
  destruct (updateTrackJobStatus (now w1) id failed (store w1)) as [[j1 st1]|e1],
           (updateTrackJobStatus (now w2) id failed (store w2)) as [[j2 st2]|e2];
    destruct Hf as [Hf1 Hf2]; simpl in *;
    split; solve [reflexivity | assumption].
Qed.

Lemma advanceBackground_sim ext t w1 w2 :
  sameWorldButControl w1 w2 ->
  unobserved (advanceBackground ext t w1) (advanceBackground ext t w2).
Proof.
  intros H. unfold advanceBackground.
  destruct t as [c rest n mawb prefix awbNo | c rest n | n | e];
    cbn [taskJob advance].
  - apply guarded_sim. now apply afterTrackAWB_sim.
  - apply guarded_sim. now apply visitRows_sim.
  - split; [reflexivity | exact H].
  - split; [reflexivity | exact H].
Qed.

Lemma controlRoute_unobserved now req w1 w2 :
  sameWorldButControl w1 w2 ->
  sameWorldButControl
    (withStore w1 (snd (controlRoute now req (store w1)))) w2.
Proof.
  intros H. unfold controlRoute.
  assert (Hsame : sameWorldButControl (withStore w1 (store w1)) w2)
    by (destruct w1; exact H).
  destruct (idParam req) as [id|]; [|exact Hsame].
  destruct (action req) as [a|issue]; [|exact Hsame].
  destruct (getTrackJob id (store w1)) as [j|] eqn:Ej; [|exact Hsame].
  rewrite (updateTrackJobStatus_found now id (newStatus a) (store w1) Ej).
  destruct H as (Hb & Hn & Hj & Hrest).
  unfold sameWorldButControl, sameButControl. simpl.
  split; [exact Hb|]. split; [exact Hn|]. split; [|exact Hrest].
  apply jobs_set_left with j; [exact Hj | exact Ej |].
  repeat split.
Qed.

Lemma run_unobserved ext turns : forall s1 s2,
  unobserved s1 s2 ->
  unobserved (run ext turns s1) (run ext (withoutControl turns) s2).
Proof.
  unfold run, withoutControl.
  induction turns as [|turn turns IH]; intros [t1 w1] [t2 w2] [Ht H];
    simpl in Ht, H; subst t2.
  - split; [reflexivity | exact H].
  - destruct turn as [|req|d]; cbn [filter isControl negb fold_left]; apply IH.
    + now apply advanceBackground_sim.
    + split; [reflexivity|]. cbn [step snd]. now apply controlRoute_unobserved.
    + split; [reflexivity|]. cbn [step snd].
      destruct H as (Hb & Hn & Hs). repeat split; assumption || apply Hs.
Qed.

(** For every schedule, what the task does is what it does with the
    control requests taken out of the schedule: it is in the same state,
    has sent the same messages and stored the same results, and every
    job has the same persisted counts.  Pause, resume and cancel change
    the stored status and nothing that the loop looks at. *)
Theorem control_requests_are_never_observed :
  forall (ext : Externals) (turns : list Turn) (s : Task * World),
    let served := run ext turns s in
    let ignored := run ext (withoutControl turns) s in
    fst served = fst ignored
    /\ broadcasts (snd served) = broadcasts (snd ignored)
    /\ getTrackResultsByJob 0 (store (snd served))
       = getTrackResultsByJob 0 (store (snd ignored))
    /\ (forall id, processedOf id (snd served) = processedOf id (snd ignored))
    /\ (forall id, totalOf id (snd served) = totalOf id (snd ignored)).
Proof.
  intros ext turns s served ignored.
  assert (H : unobserved served ignored).
  { apply run_unobserved. split; [reflexivity | apply sameWorld_refl]. }
  destruct H as (Ht & Hb & Hn & Hj & Hr & _).
  split; [exact Ht|]. split; [exact Hb|].
  split; [unfold getTrackResultsByJob; now rewrite Hr|].
  split; intros id; unfold processedOf, totalOf, jobOf, getTrackJob;
    pose proof (jobs_get_sim id Hj) as Hg;
    destruct (map_get (trackJobs (store (snd served))) id) as [a|],
             (map_get (trackJobs (store (snd ignored))) id) as [b|];
    try contradiction; try reflexivity;
    destruct Hg as (_ & _ & Htot & Hproc & _); simpl; congruence.
Qed.

(** ** What every operation of the engine preserves *)

Section StoreInvariant.

(** A property of the store that the three writes of the engine keep. *)
Variable I : MemStorage -> Prop.

Hypothesis I_status :
  forall now id s st j st',
    I st -> updateTrackJobStatus now id s st = Ok (j, st') -> I st'.

Hypothesis I_progress :
  forall now id n st j st',
    I st -> updateTrackJobProgress now id n st = Ok (j, st') -> I st'.

Hypothesis I_result :
  forall now r st, I st -> I (snd (createTrackResult now r st)).

Lemma failJob_invariant id e w :
  I (store w) -> I (store (snd (failJob id e w))).
Proof.
  intros H. unfold failJob.
  destruct (updateTrackJobStatus (now w) id failed (store w)) as [[j st]|e'] eqn:E.
  - simpl. eapply I_status; eassumption.
  - exact H.
Qed.

Lemma finish_invariant c n w :
  I (store w) -> I (store (snd (finish c n w))).
Proof.
  intros H. unfold finish.
  destruct (updateTrackJobStatus (now w) (job c) completed (store w))
    as [[j st]|e'] eqn:E.
  - cbn [snd]. rewrite store_broadcastMessage. simpl.
    eapply I_status; eassumption.
  - now apply failJob_invariant.
Qed.

Lemma visitRows_invariant c records : forall n w,
  I (store w) -> I (store (snd (visitRows c records n w))).
Proof.
  induction records as [|record rest IH]; intros n w H; cbn [visitRows].
  - now apply finish_invariant.
  - destruct (cellOf c record) as [mawb|e]; [|now apply failJob_invariant].
    destruct (splitMAWB mawb) as [prefix awbNo].
    destruct (falsy prefix || falsy awbNo).
    + apply IH. now rewrite store_broadcastMessage.
    + cbn [snd]. now rewrite store_broadcastMessage.
Qed.

Lemma settleRow_invariant c n mawb prefix awbNo settled w :
  I (store w) -> I (store (settleRow c n mawb prefix awbNo settled w)).
Proof.
  intros H. unfold settleRow. destruct settled as [r|e].
  - pose proof (I_result (now w) (toInsert mawb prefix awbNo r) H) as Hr.
    destruct (createTrackResult (now w) (toInsert mawb prefix awbNo r) (store w))
      as [res st].
    now rewrite !store_broadcastMessage.
  - now rewrite store_broadcastMessage.
Qed.

Lemma afterTrackAWB_invariant ext c rest n mawb prefix awbNo w :
  I (store w) ->
  I (store (snd (afterTrackAWB ext c rest n mawb prefix awbNo w))).
Proof.
  intros H. unfold afterTrackAWB.
  pose proof (settleRow_invariant c n mawb prefix awbNo
                (trackAWB ext n prefix awbNo) w H) as H'.
  set (v := settleRow c n mawb prefix awbNo (trackAWB ext n prefix awbNo) w) in *.
  destruct (updateTrackJobProgress (now v) (job c) n (store v))
    as [[j st]|e'] eqn:E.
  - cbn [snd]. rewrite store_broadcastMessage. simpl.
    eapply I_progress; eassumption.
  - now apply failJob_invariant.
Qed.

Lemma guarded_invariant id s :
  I (store (snd s)) -> I (store (snd (guarded id s))).
Proof.
  destruct s as [[| | |e] w]; try tauto. cbn [guarded snd]. intros H.
  destruct (updateTrackJobStatus (now w) id failed (store w)) as [[j st]|e'] eqn:E.
  - simpl. eapply I_status; eassumption.
  - exact H.
Qed.

Lemma step_invariant ext s turn :
  I (store (snd s)) -> I (store (snd (step ext s turn))).
Proof.
  destruct s as [t w]. intros H. destruct turn as [|req|d]; cbn [step snd].
  - unfold advanceBackground.
    destruct t as [c rest n mawb prefix awbNo | c rest n | n | e];
      cbn [taskJob advance]; try exact H; apply guarded_invariant.
    + now apply afterTrackAWB_invariant.
    + now apply visitRows_invariant.
  - simpl. unfold controlRoute.
    destruct (idParam req) as [id|]; [|exact H].
    destruct (action req) as [a|issue]; [|exact H].
    destruct (getTrackJob id (store w)) as [j|]; [|exact H].
    destruct (updateTrackJobStatus (now w) id (newStatus a) (store w))
      as [[j' st']|e] eqn:E; [|exact H].
    simpl. eapply I_status; eassumption.
  - exact H.
Qed.

Lemma run_invariant ext turns : forall s,
  I (store (snd s)) -> I (store (snd (run ext turns s))).
Proof.
  unfold run. induction turns as [|turn turns IH]; intros s H; simpl.
  - exact H.
  - apply IH. now apply step_invariant.
Qed.

Lemma beginLoop_invariant c records w :
  I (store w) -> I (store (snd (beginLoop c records w))).
Proof.
  intros H. unfold beginLoop.
  destruct (updateTrackJobStatus (now w) (job c) processing (store w))
    as [[j st]|e'] eqn:E.
  - apply visitRows_invariant. simpl. eapply I_status; eassumption.
  - now apply failJob_invariant.
Qed.

Lemma processCSVFile_invariant ext decoded id d wss w :
  I (store w) -> I (store (snd (processCSVFile ext decoded id d wss w))).
Proof.
  intros H. unfold processCSVFile.
  destruct decoded as [[|first records]|e]; try now apply failJob_invariant.
  destruct (findMawb ext (map fst first)); [|now apply failJob_invariant].
  now apply beginLoop_invariant.
Qed.

Lemma processExcelFile_invariant ext decoded id d wss w :
  I (store w) -> I (store (snd (processExcelFile ext decoded id d wss w))).
Proof.
  intros H. unfold processExcelFile.
  destruct decoded as [records|e]; [|now apply failJob_invariant].
  match goal with |- context [falsy ?k] => destruct (falsy k) end.
  - now apply failJob_invariant.
  - now apply beginLoop_invariant.
Qed.

End StoreInvariant.

Lemma totals_set m k a b :
  map_get m k = Some a -> TrackJob.totalCount b = TrackJob.totalCount a ->
  map (fun e => (fst e, TrackJob.totalCount (snd e))) (map_set m k b)
  = map (fun e => (fst e, TrackJob.totalCount (snd e))) m.
Proof.
  induction m as [|[k' v] m IH]; simpl; [discriminate|].
  destruct (k =? k') eqn:E; intros Hget Htot; simpl.
  - inversion Hget; subst. apply Nat.eqb_eq in E. subst. now rewrite Htot.
  - f_equal. now apply IH.
Qed.

Lemma totals_get m k :
  map_get (map (fun e => (fst e, TrackJob.totalCount (snd e))) m) k
  = option_map TrackJob.totalCount (map_get m k).
Proof.
  induction m as [|[k' v] m IH]; simpl; [reflexivity|].
  destruct (k =? k'); [reflexivity | exact IH].
Qed.

Lemma totals_updateTrackJobStatus T now id s st j st' :
  totals st = T -> updateTrackJobStatus now id s st = Ok (j, st') ->
  totals st' = T.
Proof.
  unfold updateTrackJobStatus. intros <-.
  destruct (getTrackJob id st) as [j0|] eqn:E; [|discriminate].
  intros H. inversion H; subst. unfold totals. simpl.
  now apply totals_set with j0.
Qed.

Lemma totals_updateTrackJobProgress T now id n st j st' :
  totals st = T -> updateTrackJobProgress now id n st = Ok (j, st') ->
  totals st' = T.
Proof.
  unfold updateTrackJobProgress. intros <-.
  destruct (getTrackJob id st) as [j0|] eqn:E; [|discriminate].
  intros H. inversion H; subst. unfold totals. simpl.
  now apply totals_set with j0.
Qed.

(** No turn of the event loop writes the total of any job: the persisted
    totals are, at every point of every run, those of the start. *)
Theorem total_is_never_written :
  forall (ext : Externals) (turns : list Turn) (s : Task * World) (id : nat),
    totalOf id (snd (run ext turns s)) = totalOf id (snd s).
Proof.
  intros ext turns s id.
  assert (H : totals (store (snd (run ext turns s))) = totals (store (snd s))).
  { apply (run_invariant (fun st => totals st = totals (store (snd s)))).
    - intros now0 id0 s0 st j st'. apply totals_updateTrackJobStatus.
    - intros now0 id0 n st j st'. apply totals_updateTrackJobProgress.
    - intros now0 r st H. exact H.
    - reflexivity. }
  unfold totalOf, jobOf, getTrackJob.
  rewrite <- !totals_get. unfold totals in H. now rewrite H.
Qed.

(** A job created by an upload is stored with total 0 and keeps it. *)
Theorem uploaded_job_keeps_total_zero :
  forall (ext : Externals) (req : FileRequest) (w w' : World)
         (resp : Response) (t : Task) (turns : list Turn),
    trackFileRoute ext req w = (resp, w', Some t) ->
    totalOf (currentTrackJobId (store w)) (snd (run ext turns (t, w')))
    = Some 0.
Proof.
  intros ext req w w' resp t turns Hroute.
  rewrite total_is_never_written. cbn [snd].
  unfold trackFileRoute in Hroute.
  destruct (file req) as [f|]; [|discriminate].
  destruct (uploadSingle ext f) as [u|e]; [|discriminate].
  destruct (parseDelay (delayField req)) as [d|issues]; [|discriminate].
  simpl in Hroute.
  set (T := totals (snd (createTrackJob (now w)
                           (InsertTrackJob.mk (originalname f) 0) (store w)))).
  match type of Hroute with
  | context [guarded ?id ?r] =>
      assert (HT : totals (store (snd (guarded id r))) = T);
      [|destruct (guarded id r) as [t0 w0]]
  end.
  { apply (guarded_invariant (fun st => totals st = T)).
    - intros now0 id0 s0 st j st'. apply totals_updateTrackJobStatus.
    - destruct (jsstring_eqb (mimetype f) (lit "text/csv")
                || endsWith (originalname f) (lit ".csv")).
      + apply (processCSVFile_invariant (fun st => totals st = T)).
        * intros now0 id0 s0 st j st'. apply totals_updateTrackJobStatus.
        * reflexivity.
      + apply (processExcelFile_invariant (fun st => totals st = T)).
        * intros now0 id0 s0 st j st'. apply totals_updateTrackJobStatus.
        * reflexivity. }
  inversion Hroute; subst.
  unfold totalOf, jobOf, getTrackJob. rewrite <- totals_get.
  unfold totals in HT. cbn [snd] in HT. rewrite HT. subst T.
  unfold totals, createTrackJob. cbn [snd trackJobs]. rewrite totals_get.
  now rewrite map_get_set_same.
Qed.

(** ** Results are kept in the order of their creation *)

(** A new result goes to the end of what the result query returns, and
    the ids stay fresh. *)
Theorem results_in_insertion_order :
  forall (now : Date) (r : InsertTrackResult.t) (st : MemStorage) (id : nat),
    freshResultIds st ->
    getTrackResultsByJob id (snd (createTrackResult now r st))
    = getTrackResultsByJob id st ++ [fst (createTrackResult now r st)]
    /\ TrackResult.id (fst (createTrackResult now r st))
       = currentTrackResultId st
    /\ freshResultIds (snd (createTrackResult now r st)).
Proof.
  intros now r st id Hfresh.
  assert (Hnone : map_get (trackResults st) (currentTrackResultId st) = None).
  { apply map_get_not_In. intros Hin. unfold freshResultIds in Hfresh.
    rewrite Forall_forall in Hfresh. specialize (Hfresh _ Hin). lia. }
  unfold getTrackResultsByJob, createTrackResult, freshResultIds, map_values,
    map_keys. cbn [fst snd trackResults currentTrackResultId].
  rewrite (map_set_fresh _ _ _ Hnone), !map_app. cbn [map fst snd TrackResult.id].
  split; [reflexivity|]. split; [reflexivity|].
  apply Forall_app. split.
  - eapply Forall_impl; [|exact Hfresh]. simpl. intros k Hk. lia.
  - constructor; [lia | constructor].
Qed.

Lemma results_in_insertion_order_witness :
  freshResultIds usedStore
  /\ map TrackResult.mawb (getTrackResultsByJob 7 usedStore)
     = [lit "999-00000000"]
  /\ map (fun r => (TrackResult.id r, TrackResult.mawb r))
       (getTrackResultsByJob 7
          (snd (createTrackResult 15%Z
                  (toInsert (lit "111-22222222") (lit "111") (lit "22222222")
                     fixedRecord)
                  usedStore)))
     = [(1, lit "999-00000000"); (2, lit "111-22222222")].
Proof.
  assert (H : freshResultIds usedStore) by (repeat constructor).
  split; [exact H|]. split; [reflexivity|].
  rewrite (proj1 (results_in_insertion_order 15%Z
                    (toInsert (lit "111-22222222") (lit "111") (lit "22222222")
                       fixedRecord) 7 H)).
  reflexivity.
Defined.

(** ** A whole file *)

(** A CSV file whose rows all have the identifier column is processed to
    the end: whatever the lookups and the control requests do, the task
    returns the number of rows once the event loop has given it its
    turns. *)
Theorem every_row_is_visited :
  forall (ext : Externals) (c : Ctx) (records : list Record_) (w : World)
         (turns : list Turn),
    jobExists (job c) w ->
    wellFormed c records ->
    2 * List.length records <= resumes turns ->
    fst (run ext turns (beginLoop c records w)) = Returned (List.length records).
Proof.
  intros ext c records w turns Hj Hwf Hturns.
  destruct (jobExists_found Hj) as [j Ej].
  unfold beginLoop.
  rewrite (updateTrackJobStatus_found (now w) (job c) processing (store w) Ej).
  assert (Hj' : jobExists (job c)
                  (withStore w (setTrackJob (job c)
                                  (withStatus (now w) processing j) (store w)))).
  { unfold jobExists, jobOf. simpl. apply getTrackJob_setTrackJob.
    unfold getTrackJob in *. congruence. }
  destruct (visitRows_healthy 0 Hj' Hwf) as (H1 & H2 & H3).
  match goal with
  | |- context [visitRows c records 0 ?w0] =>
      destruct (visitRows c records 0 w0) as [t w'] eqn:E
  end.
  cbn [fst snd] in *.
  rewrite (run_returns ext turns t w' H1); [now rewrite H2 | lia].
Qed.

Lemma every_row_is_visited_witness :
  jobExists 1 runningWorld
  /\ wellFormed runningCtx [row "111-22222222"; row "bad"; row "333-44444444"]
  /\ fst (run (failingAt 1)
            [Resume; control 1 cancel; Resume; Resume; Resume; Resume; Resume]
            (beginLoop runningCtx
               [row "111-22222222"; row "bad"; row "333-44444444"]
               runningWorld))
     = Returned 3.
Proof.
  assert (Hj : jobExists 1 runningWorld) by discriminate.
  assert (Hwf : wellFormed runningCtx
                  [row "111-22222222"; row "bad"; row "333-44444444"]).
  { repeat constructor; eexists; reflexivity. }
  split; [exact Hj|]. split; [exact Hwf|].
  apply (@every_row_is_visited (failingAt 1) runningCtx
           [row "111-22222222"; row "bad"; row "333-44444444"] runningWorld
           [Resume; control 1 cancel; Resume; Resume; Resume; Resume; Resume]
           Hj Hwf).
  vm_compute. lia.
Defined.

Lemma uploaded_job_keeps_total_zero_witness :
  totalOf 1
    (snd (uploadThen stub twoRows [Resume; control 1 pause; Resume; Resume]
            world0))
  = Some 0.
Proof.
  unfold uploadThen.
  destruct (trackFileRoute stub (upload twoRows) world0) as [[resp w'] [t|]] eqn:E.
  - exact (@uploaded_job_keeps_total_zero stub (upload twoRows) world0 w' resp t
             [Resume; control 1 pause; Resume; Resume] E).
  - vm_compute in E. discriminate.
Defined.

(** ** storage.ts: creating and finding jobs and users *)

Lemma map_set_appends {V} (m : JsMap V) k v bound :
  Forall (fun k' => k' < bound) (map_keys m) -> bound <= k ->
  map_set m k v = m ++ [(k, v)] /\ map_get m k = None.
Proof.
  intros Hfresh Hk.
  assert (Hnone : map_get m k = None).
  { apply map_get_not_In. intros Hin. rewrite Forall_forall in Hfresh.
    specialize (Hfresh _ Hin). lia. }
  split; [now apply map_set_fresh | exact Hnone].
Qed.

(** A new job gets the next id, which no job has yet; it is stored as
    pending with nothing processed, can be fetched by its id, comes last
    in the list of jobs, and leaves every other job as it was. *)
Theorem createTrackJob_round_trip :
  forall (now : Date) (insertJob : InsertTrackJob.t) (st : MemStorage),
    freshJobIds st ->
    let job := fst (createTrackJob now insertJob st) in
    let st' := snd (createTrackJob now insertJob st) in
    TrackJob.id job = currentTrackJobId st
    /\ getTrackJob (TrackJob.id job) st = None
    /\ getTrackJob (TrackJob.id job) st' = Some job
    /\ TrackJob.status job = pending
    /\ TrackJob.processedCount job = 0
    /\ TrackJob.filename job = InsertTrackJob.filename insertJob
    /\ TrackJob.totalCount job = InsertTrackJob.totalCount insertJob
    /\ getTrackJobs st' = getTrackJobs st ++ [job]
    /\ (forall other, other <> TrackJob.id job ->
          getTrackJob other st' = getTrackJob other st)
    /\ freshJobIds st'.
Proof.
  intros now insertJob st Hfresh job st'.
  destruct (@map_set_appends _ (trackJobs st) (currentTrackJobId st) job
              (currentTrackJobId st) Hfresh (le_n _)) as [Happ Hnone].
  subst job st'. unfold createTrackJob in *.
  cbn [fst snd TrackJob.id TrackJob.status TrackJob.processedCount
       TrackJob.filename TrackJob.totalCount] in *.
  split; [reflexivity|]. split; [exact Hnone|].
  split; [unfold getTrackJob; cbn [trackJobs]; apply map_get_set_same|].
  do 4 (split; [reflexivity|]).
  split.
  { unfold getTrackJobs, map_values. cbn [trackJobs].
    now rewrite Happ, map_app. }
  split.
  { intros other Hne. unfold getTrackJob. cbn [trackJobs].
    now apply map_get_set_other. }
  unfold freshJobIds, map_keys. cbn [trackJobs currentTrackJobId].
  rewrite Happ, map_app. apply Forall_app. split.
  - eapply Forall_impl; [|exact Hfresh]. simpl. intros k Hk. lia.
  - constructor; [simpl; lia | constructor].
Qed.

Lemma createTrackJob_round_trip_witness :
  freshJobIds doneStore
  /\ getTrackJobs
       (snd (createTrackJob 40%Z (InsertTrackJob.mk (lit "next.xlsx") 0)
               doneStore))
     = [doneJob;
        TrackJob.mk 2 (lit "next.xlsx") 0 0 pending 40%Z 40%Z].
Proof.
  assert (H : freshJobIds doneStore) by (repeat constructor).
  split; [exact H|].
  destruct (@createTrackJob_round_trip 40%Z
              (InsertTrackJob.mk (lit "next.xlsx") 0) doneStore H)
    as (_ & _ & _ & _ & _ & _ & _ & Hlist & _).
  rewrite Hlist. reflexivity.
Defined.

(** A new user gets the next id and can be fetched by it.  Its name is
    not checked against the users already there: a search by name finds
    the new user only when no earlier user has the name, and otherwise
    keeps finding the earlier one. *)
Theorem createUser_round_trip :
  forall (insertUser : InsertUser.t) (st : MemStorage),
    freshUserIds st ->
    let user := fst (createUser insertUser st) in
    let st' := snd (createUser insertUser st) in
    User.id user = currentUserId st
    /\ getUser (User.id user) st' = Some user
    /\ (forall other, other <> User.id user ->
          getUser other st' = getUser other st)
    /\ (getUserByUsername (InsertUser.username insertUser) st = None ->
        getUserByUsername (InsertUser.username insertUser) st' = Some user)
    /\ (forall earlier,
          getUserByUsername (InsertUser.username insertUser) st = Some earlier ->
          getUserByUsername (InsertUser.username insertUser) st' = Some earlier)
    /\ freshUserIds st'.
Proof.
  intros insertUser st Hfresh user st'.
  destruct (@map_set_appends _ (users st) (currentUserId st) user
              (currentUserId st) Hfresh (le_n _)) as [Happ Hnone].
  subst user st'. unfold createUser in *. cbn [fst snd User.id] in *.
  split; [reflexivity|].
  split; [unfold getUser; cbn [users]; apply map_get_set_same|].
  split.
  { intros other Hne. unfold getUser. cbn [users]. now apply map_get_set_other. }
  assert (Hfind : forall name,
    getUserByUsername name
      (mkStorage
         (map_set (users st) (currentUserId st)
            (User.mk (currentUserId st) (InsertUser.username insertUser)
               (InsertUser.password insertUser)))
         (trackResults st) (trackJobs st) (S (currentUserId st))
         (currentTrackResultId st) (currentTrackJobId st))
    = match getUserByUsername name st with
      | Some u => Some u
      | None =>
          find (fun user => jsstring_eqb (User.username user) name)
            [User.mk (currentUserId st) (InsertUser.username insertUser)
               (InsertUser.password insertUser)]
      end).
  { intros name. unfold getUserByUsername, map_values. cbn [users].
    rewrite Happ, map_app. cbn [map snd].
    induction (map snd (users st)) as [|u l IH]; [reflexivity|].
    cbn [app find]. destruct (jsstring_eqb (User.username u) name);
      [reflexivity | exact IH]. }
  split.
  { intros Hnone'. rewrite Hfind, Hnone'. cbn [find User.username].
    unfold jsstring_eqb.
    destruct (list_eq_dec N.eq_dec (InsertUser.username insertUser)
                (InsertUser.username insertUser)); [reflexivity | congruence]. }
  split.
  { intros earlier He. now rewrite Hfind, He. }
  unfold freshUserIds, map_keys. cbn [users currentUserId].
  rewrite Happ, map_app. apply Forall_app. split.
  - eapply Forall_impl; [|exact Hfresh]. simpl. intros k Hk. lia.
  - constructor; [simpl; lia | constructor].
Qed.

Lemma createUser_round_trip_witness :
  freshUserIds newMemStorage
  /\ getUserByUsername (lit "ops")
       (snd (createUser (InsertUser.mk (lit "ops") (lit "second"))
               (snd (createUser (InsertUser.mk (lit "ops") (lit "first"))
                       newMemStorage))))
     = Some (User.mk 1 (lit "ops") (lit "first")).
Proof.
  assert (H : freshUserIds newMemStorage) by constructor.
  split; [exact H|].
  destruct (@createUser_round_trip (InsertUser.mk (lit "ops") (lit "first"))
              newMemStorage H)
    as (_ & _ & _ & Hnew & _ & H').
  destruct (@createUser_round_trip (InsertUser.mk (lit "ops") (lit "second"))
              _ H')
    as (_ & _ & _ & _ & Hkeep & _).
  apply Hkeep. apply Hnew. reflexivity.
Defined.

(** ** Which identifiers are looked up *)

Lemma digits_nonempty n d : digits (S n) d -> d <> [].
Proof. intros [Hl _] ->. discriminate. Qed.

Lemma FirstMatch_nonempty m p n : FirstMatch m p n -> p <> [] /\ n <> [].
Proof.
  intros (pre & s & _ & (sep & rest & _ & Hp & Hn & _) & _).
  split; eapply digits_nonempty; eassumption.
Qed.

Lemma falsy_false s : falsy s = false <-> s <> [].
Proof. destruct s; simpl; split; congruence. Qed.

(** The lookup is made for a raw identifier exactly when, with all
    whitespace removed, it is one hyphen between two non-empty sides, or
    it has no hyphen or several and holds three digits, an optional
    hyphen, and eight digits somewhere.  The single lookup refuses a body
    without the identifier, with an identifier that is not a string, or
    with the empty string, by the schema (400 with its issue) before the
    identifier is split; any other identifier that is not looked up is
    answered 400 "Invalid MAWB format", whatever the tracking site would
    say; and one that is looked up is answered with the fields of the
    lookup, or with 400 and the message of its error. *)
Theorem identifiers_that_are_looked_up :
  forall (mawb : jsstring),
    let m := removeWhiteSpace (trim mawb) in
    (lookedUp mawb = true <->
       (exists a b, m = a ++ hyphen :: b /\ ~ In hyphen a /\ ~ In hyphen b
                    /\ a <> [] /\ b <> [])
       \/ (count_occ N.eq_dec m hyphen <> 1 /\ exists p n, FirstMatch m p n))
    /\ (forall ext,
          trackSingleRoute ext Absent = SingleRefused 400 invalid_type
          /\ trackSingleRoute ext NotAString = SingleRefused 400 invalid_type
          /\ trackSingleRoute ext (Text []) = SingleRefused 400 too_small)
    /\ (forall ext,
          mawb <> [] ->
          lookedUp mawb = false ->
          trackSingleRoute ext (Text mawb)
          = SingleError 400 (lit "Invalid MAWB format"))
    /\ (forall ext,
          lookedUp mawb = true ->
          trackSingleRoute ext (Text mawb)
          = match trackAWB ext 0 (fst (splitMAWB mawb)) (snd (splitMAWB mawb)) with
            | Ok fields =>
                SingleTracked mawb (fst (splitMAWB mawb)) (snd (splitMAWB mawb))
                  fields
            | Throw e => SingleError 400 (message e)
            end).
Proof.
  intros mawb m. pose proof (splitMAWB_on_cleaned mawb) as Hs. fold m in Hs.
  split; [|split; [intros ext; repeat split|split]].
  - unfold lookedUp. split.
    + intros Hlook.
      destruct Hs as [a b Hm Ha Hb | p n Hc Hf | Hc Hn].
      * left. exists a, b. apply negb_true_iff, orb_false_iff in Hlook.
        destruct Hlook as [H1 H2]. apply falsy_false in H1, H2. auto.
      * right. eauto.
      * discriminate.
    + intros [(a & b & Hm & Ha & Hb & Hna & Hnb) | (Hc & p & n & Hf)].
      * rewrite (SplitsAs_fun Hs (one_hyphen a b Hm Ha Hb)).
        apply negb_true_iff, orb_false_iff. split; now apply falsy_false.
      * rewrite (SplitsAs_fun Hs (by_pattern Hc Hf)).
        destruct (FirstMatch_nonempty Hf) as [Hp Hn].
        apply negb_true_iff, orb_false_iff. split; now apply falsy_false.
  - intros ext Hne. unfold lookedUp, trackSingleRoute.
    destruct mawb as [|u mawb]; [congruence|]. cbn [parseMawb].
    destruct (splitMAWB (u :: mawb)) as [p a]. intros H.
    apply negb_false_iff in H. now rewrite H.
  - intros ext. destruct mawb as [|u mawb]; [discriminate|].
    unfold lookedUp, trackSingleRoute. cbn [parseMawb].
    destruct (splitMAWB (u :: mawb)) as [p a]. intros H.
    apply negb_true_iff in H. rewrite H. reflexivity.
Qed.

Example lookedUp_examples :
  lookedUp (lit " 123-45678901 ") = true
  /\ lookedUp (lit "12345678901") = true
  /\ lookedUp (lit "AK-1") = true
  /\ lookedUp (lit "-12345678901") = false
  /\ lookedUp (lit "1234567890") = false
  /\ lookedUp [] = false.
Proof. repeat split; reflexivity. Qed.

(** ** An upload that cannot be processed *)



Lemma trackFileRoute_accepted ext f field d w :
  uploadSingle ext f = Ok tt ->
  parseDelay field = inl d ->
  trackFileRoute ext (mkFileRequest (Some f) field) w
  = (mkResponse 200
       (FileBody (currentTrackJobId (store w)) (lit "File processing started")),
     snd (started ext f d w), Some (fst (started ext f d w))).
Proof.
  intros Hu Hd. unfold trackFileRoute, started, uploadedWorld, choosesCSV.
  cbn [file delayField]. rewrite Hu, Hd.
  unfold createTrackJob. cbv beta iota zeta.
  cbn [snd TrackJob.id InsertTrackJob.filename InsertTrackJob.totalCount].
  match goal with
  | |- context [guarded ?i ?r] => destruct (guarded i r) as [t w']
  end.
  reflexivity.
Qed.

Lemma jobOf_uploadedWorld f w :
  jobOf (currentTrackJobId (store w)) (uploadedWorld f w)
  = Some (TrackJob.mk (currentTrackJobId (store w)) (originalname f) 0 0
            pending (now w) (now w)).
Proof.
  unfold jobOf, getTrackJob, uploadedWorld, createTrackJob.
  cbn [withStore store snd trackJobs]. apply map_get_set_same.
Qed.



(** ** From the upload to the job query *)

Lemma identity_updateTrackJobStatus id T now id0 s st j st' :
  option_map identity (getTrackJob id st) = T ->
  updateTrackJobStatus now id0 s st = Ok (j, st') ->
  option_map identity (getTrackJob id st') = T.
Proof.
  unfold updateTrackJobStatus. intros <-.
  destruct (getTrackJob id0 st) as [j0|] eqn:E; [|discriminate].
  intros H. inversion H; subst. unfold getTrackJob, setTrackJob. cbn [trackJobs].
  destruct (Nat.eq_dec id id0) as [->|Hne].
  - rewrite map_get_set_same. unfold getTrackJob in E. now rewrite E.
  - now rewrite map_get_set_other.
Qed.

Lemma identity_updateTrackJobProgress id T now id0 n st j st' :
  option_map identity (getTrackJob id st) = T ->
  updateTrackJobProgress now id0 n st = Ok (j, st') ->
  option_map identity (getTrackJob id st') = T.
Proof.
  unfold updateTrackJobProgress. intros <-.
  destruct (getTrackJob id0 st) as [j0|] eqn:E; [|discriminate].
  intros H. inversion H; subst. unfold getTrackJob, setTrackJob. cbn [trackJobs].
  destruct (Nat.eq_dec id id0) as [->|Hne].
  - rewrite map_get_set_same. unfold getTrackJob in E. now rewrite E.
  - now rewrite map_get_set_other.
Qed.

(** The job that the upload handler creates keeps its id, its file
    name, its total and its creation time through every run. *)
Lemma started_identity ext f d w turns :
  option_map identity
    (getTrackJob (currentTrackJobId (store w))
       (store (snd (run ext turns (started ext f d w)))))
  = Some (currentTrackJobId (store w), originalname f, 0, now w).
Proof.
  set (id := currentTrackJobId (store w)).
  set (T := Some (id, originalname f, 0, now w)).
  apply (run_invariant
           (fun st => option_map identity (getTrackJob id st) = T)).
  - intros now0 id0 s st j st'. apply identity_updateTrackJobStatus.
  - intros now0 id0 n st j st'. apply identity_updateTrackJobProgress.
  - intros now0 r st H. exact H.
  - unfold started.
    apply (guarded_invariant
             (fun st => option_map identity (getTrackJob id st) = T)).
    + intros now0 id0 s st j st'. apply identity_updateTrackJobStatus.
    + assert (H0 : option_map identity
                     (getTrackJob id (store (uploadedWorld f w))) = T).
      { pose proof (jobOf_uploadedWorld f w) as Hj. unfold jobOf in Hj.
        fold id in Hj. now rewrite Hj. }
      destruct (choosesCSV f).
      * apply (processCSVFile_invariant
                 (fun st => option_map identity (getTrackJob id st) = T));
          [intros now0 id0 s st j st'; apply identity_updateTrackJobStatus
          | exact H0].
      * apply (processExcelFile_invariant
                 (fun st => option_map identity (getTrackJob id st) = T));
          [intros now0 id0 s st j st'; apply identity_updateTrackJobStatus
          | exact H0].
Qed.

(** The id that an upload answers is the id of a stored job: at every
    later point of every run the job query finds under it a job with
    that id, the name of the uploaded file, the time of the upload as
    its creation time, and total 0. *)
Theorem uploaded_job_can_be_queried :
  forall (ext : Externals) (f : UploadedFile) (field : option JsNumber)
         (w w' : World) (resp : Response) (t : Task) (turns : list Turn),
    trackFileRoute ext (mkFileRequest (Some f) field) w = (resp, w', Some t) ->
    let id := currentTrackJobId (store w) in
    resp = mkResponse 200 (FileBody id (lit "File processing started"))
    /\ exists job,
         jobRoute (Some id) (store (snd (run ext turns (t, w')))) = JobFound job
         /\ identity job = (id, originalname f, 0, now w).
Proof.
  intros ext f field w w' resp t turns Hroute id.
  destruct (uploadSingle ext f) as [[]|e] eqn:Hu.
  2:{ unfold trackFileRoute in Hroute. cbn [file delayField] in Hroute.
      rewrite Hu in Hroute. discriminate. }
  destruct (parseDelay field) as [d|issues] eqn:Hd.
  2:{ unfold trackFileRoute in Hroute. cbn [file delayField] in Hroute.
      rewrite Hu, Hd in Hroute. discriminate. }
  rewrite (@trackFileRoute_accepted ext f field d w Hu Hd) in Hroute.
  inversion Hroute; subst resp w' t. clear Hroute.
  split; [reflexivity|].
  pose proof (started_identity ext f d w turns) as HI. fold id in HI.
  rewrite (surjective_pairing (started ext f d w)) in HI.
  unfold jobRoute.
  destruct (getTrackJob id _) as [job|]; [|discriminate].
  exists job. split; [reflexivity|]. simpl in HI. congruence.
Qed.

Lemma uploaded_job_can_be_queried_witness :
  exists job,
    jobRoute (Some 1)
      (store (snd (uploadThen stub twoRows [Resume; control 1 cancel; Resume]
                     world0)))
    = JobFound job
    /\ identity job = (1, lit "batch.csv", 0, 0%Z).
Proof.
  unfold uploadThen, upload.
  destruct (trackFileRoute stub (mkFileRequest (Some (csvFile twoRows)) None)
              world0) as [[resp w'] [t|]] eqn:E.
  - exact (proj2 (@uploaded_job_can_be_queried stub (csvFile twoRows) None
                    world0 w' resp t [Resume; control 1 cancel; Resume] E)).
  - vm_compute in E. discriminate.
Defined.

(** ** routes.ts: the pacing interval of an upload *)

Lemma started_ctx ext f d w turns c :
  taskCtx (fst (run ext turns (started ext f d w))) = Some c ->
  delay c = d /\ job c = currentTrackJobId (store w).
Proof.
  intros Hc. apply run_ctx in Hc. unfold started in Hc.
  rewrite guarded_ctx in Hc. destruct (choosesCSV f).
  - destruct (processCSVFile_ctx _ _ _ _ _ _ Hc) as (? & ? & _). auto.
  - destruct (processExcelFile_ctx _ _ _ _ _ _ Hc) as (? & ? & _). auto.
Qed.

Lemma jsstring_eqb_eq a b : jsstring_eqb a b = true <-> a = b.
Proof.
  unfold jsstring_eqb. destruct (list_eq_dec N.eq_dec a b); split;
    congruence.
Qed.

(** What the upload middleware lets through. *)
Lemma uploadSingle_spec ext f :
  let extension := toLowerCase ext (extname ext (originalname f)) in
  (In extension allowedExtensions -> (size f <= fileSizeLimit)%N ->
   uploadSingle ext f = Ok tt)
  /\ (~ In extension allowedExtensions ->
      uploadSingle ext f
      = Throw (newError (lit "Only CSV and Excel files are allowed")))
  /\ (In extension allowedExtensions -> (fileSizeLimit < size f)%N ->
      uploadSingle ext f
      = Throw (mkError (lit "MulterError") (lit "File too large"))).
Proof.
  intros extension. unfold uploadSingle, fileFilter. fold extension.
  destruct (existsb (jsstring_eqb extension) allowedExtensions) eqn:E.
  - apply existsb_exists in E. destruct E as (x & Hin & Hx).
    apply jsstring_eqb_eq in Hx. subst x.
    split; [|split; [tauto|]].
    + intros _ Hsize. apply N.ltb_ge in Hsize. now rewrite Hsize.
    + intros _ Hsize. apply N.ltb_lt in Hsize. now rewrite Hsize.
  - assert (Hnot : ~ In extension allowedExtensions).
    { intros Hin. assert (H : existsb (jsstring_eqb extension) allowedExtensions
                              = true).
      { apply existsb_exists. exists extension. split; [exact Hin|].
        now apply jsstring_eqb_eq. }
      congruence. }
    split; [tauto|]. split; [reflexivity | tauto].
Qed.

(** C8 (amended): the pacing interval is a number of milliseconds that
    the upload handler validates and never adjusts.  Of a request whose
    file the upload middleware lets through (its extension, in lower
    case, is .csv, .xlsx or .xls, and it has at most 10 MB): when the
    field is absent the interval is 100; a number in [50,1000], integer
    or not, is taken as it is; and in both cases the job is created, the
    answer is 200 with its id, and the row loop keeps that interval for
    as long as it runs.  A number below 50, a number above 1000, NaN and
    the infinities fail the request with status 400 and the issue of the
    schema, and then no job is created and nothing starts.  A file that
    the middleware refuses, for its extension or for its size, is
    answered 500 whatever the interval is, and no job is created. *)
Theorem delay_is_validated_not_clamped :
  forall (ext : Externals) (f : UploadedFile) (w : World),
    let id := currentTrackJobId (store w) in
    let route field := trackFileRoute ext (mkFileRequest (Some f) field) w in
    let accepted d :=
      (mkResponse 200 (FileBody id (lit "File processing started")),
       snd (started ext f d w), Some (fst (started ext f d w))) in
    let refused issue := (mkResponse 400 (ZodBody [issue]), w, None) in
    let allowed :=
      In (toLowerCase ext (extname ext (originalname f)))
         [lit ".csv"; lit ".xlsx"; lit ".xls"] in
    (allowed -> (size f <= 10485760)%N ->
        route None = accepted (Finite 100)
        /\ (forall q, (50 <= q)%Q -> (q <= 1000)%Q ->
              route (Some (Finite q)) = accepted (Finite q))
        /\ (forall q, (q < 50)%Q -> route (Some (Finite q)) = refused too_small)
        /\ (forall q, (1000 < q)%Q ->
              route (Some (Finite q)) = refused too_big)
        /\ route (Some NaN) = refused invalid_type
        /\ route (Some (Infinity false)) = refused too_big
        /\ route (Some (Infinity true)) = refused too_small)
    /\ (~ allowed ->
        forall field,
          route field
          = (mkResponse 500
               (UncaughtBody
                  (newError (lit "Only CSV and Excel files are allowed"))),
             w, None))
    /\ (allowed -> (10485760 < size f)%N ->
        forall field,
          route field
          = (mkResponse 500
               (UncaughtBody
                  (mkError (lit "MulterError") (lit "File too large"))),
             w, None))
    /\ (forall d turns,
          (exists j,
              jobOf id (snd (run ext turns (started ext f d w))) = Some j
              /\ identity j = (id, originalname f, 0, now w))
          /\ forall c,
               taskCtx (fst (run ext turns (started ext f d w))) = Some c ->
               delay c = d /\ job c = id).
Proof.
  intros ext f w id route accepted refused allowed.
  destruct (uploadSingle_spec ext f) as (Hok & Hext & Hsize).
  assert (Hthrow : forall e field,
            uploadSingle ext f = Throw e ->
            route field = (mkResponse 500 (UncaughtBody e), w, None)).
  { intros e field Hu. subst route. unfold trackFileRoute.
    cbn [file delayField]. now rewrite Hu. }
  split; [|split; [|split]].
  - intros Hall Hsz. pose proof (Hok Hall Hsz) as Hu.
    assert (Hrefuse : forall field issues,
              parseDelay field = inr issues ->
              route field = (mkResponse 400 (ZodBody issues), w, None)).
    { intros field issues H. subst route. unfold trackFileRoute.
      cbn [file delayField]. now rewrite Hu, H. }
    split; [exact (@trackFileRoute_accepted ext f None (Finite 100) w Hu eq_refl)|].
    split.
    { intros q Hlo Hhi.
      apply (@trackFileRoute_accepted ext f (Some (Finite q)) (Finite q) w Hu).
      unfold parseDelay. apply Qle_bool_iff in Hlo. apply Qle_bool_iff in Hhi.
      now rewrite Hlo, Hhi. }
    split.
    { intros q Hq. apply Hrefuse. unfold parseDelay.
      destruct (Qle_bool 50 q) eqn:E; [|reflexivity].
      apply Qle_bool_iff in E. exfalso. exact (Qlt_not_le _ _ Hq E). }
    split.
    { intros q Hq. apply Hrefuse. unfold parseDelay.
      destruct (Qle_bool 50 q) eqn:E; [|exfalso].
      - destruct (Qle_bool q 1000) eqn:E'; [|reflexivity].
        apply Qle_bool_iff in E'. exfalso. exact (Qlt_not_le _ _ Hq E').
      - assert (H : (50 <= q)%Q).
        { apply Qlt_le_weak.
          apply Qlt_trans with (y := 1000%Q); [reflexivity | exact Hq]. }
        apply Qle_bool_iff in H. congruence. }
    repeat split; apply Hrefuse; reflexivity.
  - intros Hnot field. apply Hthrow. now apply Hext.
  - intros Hall Hsz field. apply Hthrow. now apply Hsize.
  - intros d turns. split; [|intros c; apply started_ctx].
    pose proof (started_identity ext f d w turns) as HI. fold id in HI.
    unfold jobOf. destruct (getTrackJob id _) as [j|]; [|discriminate].
    exists j. split; [reflexivity|]. simpl in HI. congruence.
Qed.

(** A valid file, a file with a name the middleware refuses, and a file
    that is too large. *)
Lemma delay_is_validated_not_clamped_witness :
  trackFileRoute stub
    (mkFileRequest (Some (csvFile [row "111-22222222"])) None) world0
  = (mkResponse 200 (FileBody 1 (lit "File processing started")),
     snd (started stub (csvFile [row "111-22222222"]) (Finite 100) world0),
     Some (fst (started stub (csvFile [row "111-22222222"]) (Finite 100)
                  world0)))
  /\ option_map delay
       (taskCtx (fst (started stub (csvFile [row "111-22222222"]) (Finite 100)
                        world0)))
     = Some (Finite 100)
  /\ trackFileRoute stub
       (mkFileRequest (Some (csvFile [row "111-22222222"])) (Some (Finite 1001)))
       world0
     = (mkResponse 400 (ZodBody [too_big]), world0, None)
  /\ trackFileRoute stub
       (mkFileRequest
          (Some (mkFile (lit "notes.txt") (lit "text/plain") 12
                   (Ok [row "111-22222222"]) (Ok [row "111-22222222"])))
          None)
       world0
     = (mkResponse 500
          (UncaughtBody (newError (lit "Only CSV and Excel files are allowed"))),
        world0, None)
  /\ trackFileRoute stub
       (mkFileRequest
          (Some (mkFile (lit "batch.CSV") (lit "text/csv") 20971520
                   (Ok [row "111-22222222"]) (Ok [row "111-22222222"])))
          (Some (Finite 100)))
       world0
     = (mkResponse 500
          (UncaughtBody (mkError (lit "MulterError") (lit "File too large"))),
        world0, None).
Proof.
  destruct (delay_is_validated_not_clamped stub (csvFile [row "111-22222222"])
              world0) as (Hvalid & _).
  destruct (delay_is_validated_not_clamped stub
              (mkFile (lit "notes.txt") (lit "text/plain") 12
                 (Ok [row "111-22222222"]) (Ok [row "111-22222222"]))
              world0) as (_ & Hname & _).
  destruct (delay_is_validated_not_clamped stub
              (mkFile (lit "batch.CSV") (lit "text/csv") 20971520
                 (Ok [row "111-22222222"]) (Ok [row "111-22222222"]))
              world0) as (_ & _ & Hlarge & _).
  destruct Hvalid as (Hdefault & _ & _ & Hbig & _).
  { left. reflexivity. }
  { vm_compute. discriminate. }
  split; [exact Hdefault|]. split; [reflexivity|].
  split; [apply Hbig; reflexivity|].
  split.
  - apply Hname. vm_compute. intros [H|[H|[H|[]]]]; discriminate H.
  - apply Hlarge; [left; reflexivity | reflexivity].
Defined.

(** C8 as stated fails: an interval below 50 or above 1000 is not
    brought into the range, the request is refused and no job is
    created; and an interval that is not an integer is accepted. *)
Lemma delay_out_of_range_is_refused :
  trackFileRoute stub
    (mkFileRequest (Some (csvFile [row "111-22222222"])) (Some (Finite 10)))
    world0
  = (mkResponse 400 (ZodBody [too_small]), world0, None)
  /\ trackFileRoute stub
       (mkFileRequest (Some (csvFile [row "111-22222222"]))
          (Some (Finite 5000)))
       world0
     = (mkResponse 400 (ZodBody [too_big]), world0, None)
  /\ option_map delay
       (match trackFileRoute stub
                (mkFileRequest (Some (csvFile [row "111-22222222"]))
                   (Some (Finite (151 # 2))))
                world0 with
        | (_, _, Some t) => taskCtx t
        | _ => None
        end)
     = Some (Finite (151 # 2)).
Proof. repeat split; reflexivity. Qed.

(** ** Rows of a spreadsheet without an identifier *)

Lemma beginLoop_returns ext c records w turns :
  jobExists (job c) w -> wellFormed c records ->
  2 * List.length records <= resumes turns ->
  fst (run ext turns (beginLoop c records w)) = Returned (List.length records).
Proof.
  intros Hj Hwf Hturns.
  destruct (jobExists_found Hj) as [j Ej].
  unfold beginLoop.
  rewrite (updateTrackJobStatus_found (now w) (job c) processing (store w) Ej).
  assert (Hj' : jobExists (job c)
                  (withStore w (setTrackJob (job c)
                                  (withStatus (now w) processing j) (store w)))).
  { unfold jobExists, jobOf. simpl. apply getTrackJob_setTrackJob.
    unfold getTrackJob in *. congruence. }
  destruct (@visitRows_healthy c records 0 _ Hj' Hwf) as (H1 & H2 & H3).
  match goal with
  | |- context [visitRows c records 0 ?w0] =>
      destruct (visitRows c records 0 w0) as [t w'] eqn:E
  end.
  cbn [fst snd] in *.
  rewrite (run_returns ext turns t w' H1); [now rewrite H2 | lia].
Qed.

Lemma excel_wellFormed c records : kind c = Excel -> wellFormed c records.
Proof.
  intros Hk. unfold wellFormed. apply Forall_forall. intros r _.
  unfold cellOf. rewrite Hk. eauto.
Qed.

(** In a spreadsheet a row without an identifier cell is not an error:
    the loop reads the empty string, logs the row as skipped and goes on,
    so that the task returns the number of rows of the sheet whatever
    cells are missing. *)
Theorem sheet_rows_without_identifier_are_skipped :
  forall (ext : Externals) (c : Ctx) (records : list Record_) (w : World)
         (turns : list Turn),
    kind c = Excel ->
    jobExists (job c) w ->
    2 * List.length records <= resumes turns ->
    fst (run ext turns (beginLoop c records w)) = Returned (List.length records)
    /\ (forall r rest n w0,
          record_get r (mawbKey c) = None ->
          visitRows c (r :: rest) n w0
          = visitRows c rest (S n)
              (broadcastMessage (wss c) (job c)
                 (log (rowTag (S n) ++ lit "Skipping invalid MAWB: ") warn)
                 w0)).
Proof.
  intros ext c records w turns Hk Hj Hturns. split.
  - apply beginLoop_returns; [exact Hj | now apply excel_wellFormed | exact Hturns].
  - intros r rest n w0 Hnone. cbn [visitRows]. unfold cellOf.
    rewrite Hk, Hnone. cbn [orEmpty]. reflexivity.
Qed.

Lemma sheet_rows_without_identifier_are_skipped_witness :
  kind excelCtx = Excel
  /\ jobExists 1 runningWorld
  /\ fst (run (failingAt 1) (repeat Resume 6)
            (beginLoop excelCtx sheetRows runningWorld))
     = Returned 3.
Proof.
  assert (Hj : jobExists 1 runningWorld) by discriminate.
  split; [reflexivity|]. split; [exact Hj|].
  apply (@sheet_rows_without_identifier_are_skipped (failingAt 1) excelCtx
           sheetRows runningWorld (repeat Resume 6) eq_refl Hj).
  vm_compute. lia.
Defined.

(** ** Induction over a run *)

(** A property of the task and the world that every turn of a task in
    good health keeps, and that no request and no passing of time
    breaks, holds at the end of every run. *)
Lemma run_healthy_invariant (P : Task -> World -> Prop) ext :
  (forall t w, healthy t w -> P t w ->
               P (fst (advance ext t w)) (snd (advance ext t w))) ->
  (forall t w req, healthy t w -> P t w ->
        P t (withStore w (snd (controlRoute (now w) req (store w))))) ->
  (forall t w d, healthy t w -> P t w ->
                 P t (mkWorld (store w) (broadcasts w) d)) ->
  forall turns t w,
    healthy t w -> P t w ->
    healthy (fst (run ext turns (t, w))) (snd (run ext turns (t, w)))
    /\ P (fst (run ext turns (t, w))) (snd (run ext turns (t, w))).
Proof.
  intros Hadv Hctl Hclk. unfold run.
  induction turns as [|turn turns IH]; intros t w Hh HP; [now split|].
  cbn [fold_left].
  destruct (step_healthy ext t w turn Hh) as (Hh' & _).
  assert (HP' : P (fst (step ext (t, w) turn)) (snd (step ext (t, w) turn))).
  { destruct turn as [|req|d]; cbn [step fst snd].
    - destruct (advanceBackground_healthy ext t w Hh) as (-> & _).
      now apply Hadv.
    - now apply Hctl.
    - now apply Hclk. }
  destruct (step ext (t, w) turn) as [t' w']. now apply IH.
Qed.

(** ** The results a file leaves in the store *)


Lemma results_failJob id e w :
  trackResults (store (snd (failJob id e w))) = trackResults (store w)
  /\ currentTrackResultId (store (snd (failJob id e w)))
     = currentTrackResultId (store w).
Proof.
  unfold failJob, updateTrackJobStatus.
  destruct (getTrackJob id (store w)); split; reflexivity.
Qed.

Lemma results_finish c n w :
  trackResults (store (snd (finish c n w))) = trackResults (store w)
  /\ currentTrackResultId (store (snd (finish c n w)))
     = currentTrackResultId (store w).
Proof.
  unfold finish, updateTrackJobStatus.
  destruct (getTrackJob (job c) (store w)) eqn:E.
  - cbn [snd]. rewrite store_broadcastMessage. split; reflexivity.
  - unfold failJob, updateTrackJobStatus. rewrite E. split; reflexivity.
Qed.

(** Going through the rows up to the next lookup stores nothing, and
    what is still to come is what the rows stand for. *)
Lemma visitRows_toCome ext c records : forall n w,
  wellFormed c records ->
  toCome ext (fst (visitRows c records n w)) = expectedFrom ext c n records
  /\ trackResults (store (snd (visitRows c records n w)))
     = trackResults (store w)
  /\ currentTrackResultId (store (snd (visitRows c records n w)))
     = currentTrackResultId (store w).
Proof.
  induction records as [|r rest IH]; intros n w Hwf.
  - cbn [visitRows expectedFrom]. split; [|apply results_finish].
    unfold finish, failJob, updateTrackJobStatus.
    destruct (getTrackJob (job c) (store w)); reflexivity.
  - inversion Hwf as [|? ? [mawb Hcell] Hrest]; subst.
    cbn [visitRows expectedFrom]. unfold rowInsert, lookedUp. rewrite Hcell.
    destruct (splitMAWB mawb) as [prefix awbNo]. cbn [fst snd].
    destruct (falsy prefix || falsy awbNo); cbn [negb].
    + cbn [app].
      match goal with
      | |- context [visitRows c rest (S n) ?w1] =>
          destruct (IH (S n) w1 Hrest) as (H1 & H2 & H3)
      end.
      rewrite H1, H2, H3, store_broadcastMessage. repeat split.
    + cbn [fst snd toCome]. rewrite store_broadcastMessage. repeat split.
Qed.



(** ** Several uploads on one store *)

Lemma Subsequence_refl {A} (l : list A) : Subsequence l l.
Proof. induction l; constructor; assumption. Qed.



Section SharedStore.

(** A property of the store that the writes of the engine and the
    creation of a job keep. *)
Variable I : MemStorage -> Prop.

Hypothesis I_status :
  forall now id s st j st',
    I st -> updateTrackJobStatus now id s st = Ok (j, st') -> I st'.

Hypothesis I_progress :
  forall now id n st j st',
    I st -> updateTrackJobProgress now id n st = Ok (j, st') -> I st'.

Hypothesis I_result :
  forall now r st, I st -> I (snd (createTrackResult now r st)).

Hypothesis I_job :
  forall now insertJob st, I st -> I (snd (createTrackJob now insertJob st)).

Lemma advanceBackground_shared ext other w :
  I (store w) -> I (store (snd (advanceBackground ext other w))).
Proof.
  intros H.
  exact (@step_invariant I I_status I_progress I_result ext (other, w) Resume H).
Qed.

Lemma trackFileRoute_shared ext req w :
  I (store w) -> I (store (snd (fst (trackFileRoute ext req w)))).
Proof.
  intros H. unfold trackFileRoute.
  destruct (file req) as [f|]; [|exact H].
  destruct (uploadSingle ext f) as [u|e]; [|exact H].
  destruct (parseDelay (delayField req)) as [d|issues]; [|exact H].
  pose proof (I_job (now w) (InsertTrackJob.mk (originalname f) 0) H) as Hjob.
  destruct (createTrackJob (now w) (InsertTrackJob.mk (originalname f) 0)
              (store w)) as [created st] eqn:Ec.
  cbn [snd] in Hjob.
  match goal with
  | |- context [guarded ?id ?r] =>
      assert (Hg : I (store (snd (guarded id r))));
      [|destruct (guarded id r) as [t0 w0]; exact Hg]
  end.
  apply (@guarded_invariant I I_status).
  destruct (jsstring_eqb (mimetype f) (lit "text/csv")
            || endsWith (originalname f) (lit ".csv")).
  - now apply (@processCSVFile_invariant I I_status).
  - now apply (@processExcelFile_invariant I I_status).
Qed.

Lemma stepShared_store ext t w turn :
  I (store w) -> I (store (snd (stepShared ext (t, w) turn))).
Proof.
  intros H. destruct turn as [turn|other|req]; cbn [stepShared snd].
  - exact (@step_invariant I I_status I_progress I_result ext (t, w) turn H).
  - now apply advanceBackground_shared.
  - now apply trackFileRoute_shared.
Qed.

End SharedStore.












(** ** The messages of a run *)

Lemma currentsOf_app ms ms' : currentsOf (ms ++ ms') = currentsOf ms ++ currentsOf ms'.
Proof. unfold currentsOf. apply flat_map_app. Qed.

Lemma resultsOf_app ms ms' : resultsOf (ms ++ ms') = resultsOf ms ++ resultsOf ms'.
Proof. unfold resultsOf. apply flat_map_app. Qed.

Lemma logs_carry_nothing logs :
  Forall (fun m => isLogMessage m = true) logs ->
  currentsOf logs = [] /\ resultsOf logs = []
  /\ filter isCompleteMessage logs = [] /\ (forall c, totalsAre c logs).
Proof.
  induction 1 as [|m logs Hm _ (IH1 & IH2 & IH3 & IH4)].
  - repeat split. constructor.
  - destruct m; try discriminate. cbn. repeat split; try assumption.
    intros c. constructor; [exact I | apply IH4].
Qed.

Lemma StronglySorted_snoc l n :
  StronglySorted lt l -> Forall (fun v => v < n) l -> StronglySorted lt (l ++ [n]).
Proof.
  induction 1 as [|x l Hl IH Hx]; intros Hn; simpl.
  - constructor; constructor.
  - inversion Hn; subst. constructor; [now apply IH|].
    apply Forall_app. split; [exact Hx | now constructor].
Qed.

(** Going through the rows up to the next lookup sends logs only, and
    at the end of the rows the completion after them. *)
Lemma visitRows_trace c records : forall n w,
  jobExists (job c) w -> wellFormed c records ->
  exists logs,
    Forall (fun m => isLogMessage m = true) logs
    /\ match fst (visitRows c records n w) with
       | AwaitTrackAWB c' _ n' _ _ _ =>
           c' = c /\ n < n'
           /\ broadcasts (snd (visitRows c records n w))
              = broadcasts w ++ sentBy c logs
       | Returned n' =>
           n <= n'
           /\ broadcasts (snd (visitRows c records n w))
              = broadcasts w ++ sentBy c (logs ++ [complete (completeText n')])
       | _ => False
       end.
Proof.
  induction records as [|r rest IH]; intros n w Hj Hwf.
  - destruct (jobExists_found Hj) as [j Ej]. cbn [visitRows].
    rewrite (finish_found c n w Ej). cbn [fst snd]. exists [].
    split; [constructor|]. split; [lia|].
    now rewrite broadcasts_broadcastMessage.
  - inversion Hwf as [|? ? [mawb Hcell] Hrest]; subst.
    cbn [visitRows]. rewrite Hcell.
    destruct (splitMAWB mawb) as [prefix awbNo].
    destruct (falsy prefix || falsy awbNo).
    + match goal with
      | |- context [visitRows c rest (S n) ?w1] =>
          destruct (IH (S n) w1) as (logs & Hlogs & Hshape);
          [now apply jobExists_broadcastMessage | exact Hrest |];
          destruct (visitRows c rest (S n) w1) as [t w'] eqn:E
      end.
      cbn [fst snd] in *.
      exists (log (rowTag (S n) ++ lit "Skipping invalid MAWB: " ++ mawb) warn
              :: logs).
      split; [constructor; [reflexivity | exact Hlogs]|].
      destruct t as [c' rest' n' m' p' a' | | n' |]; try contradiction.
      * destruct Hshape as (Hc & Hn & Hb). split; [exact Hc|]. split; [lia|].
        rewrite Hb, broadcasts_broadcastMessage, <- app_assoc, sentBy_app.
        reflexivity.
      * destruct Hshape as (Hn & Hb). split; [lia|].
        rewrite Hb, broadcasts_broadcastMessage, <- app_assoc, sentBy_app.
        reflexivity.
    + cbn [fst snd].
      exists [log (rowTag (S n) ++ lit "Tracking MAWB: " ++ mawb
                   ++ lit " (prefix: " ++ prefix ++ lit ", awbno: "
                   ++ awbNo ++ lit ")") info].
      split; [constructor; [reflexivity | constructor]|].
      split; [reflexivity|]. split; [lia|].
      now rewrite broadcasts_broadcastMessage.
Qed.

(** One turn of a task in good health keeps the trace in order. *)
Lemma trace_advance ext c expected base N t w :
  healthy t w ->
  ctxIs c t /\ finalCount t = N
  /\ (exists ms, broadcasts w = base ++ sentBy c ms /\ traceOk ext c expected t ms) ->
  ctxIs c (fst (advance ext t w))
  /\ finalCount (fst (advance ext t w)) = N
  /\ exists ms,
       broadcasts (snd (advance ext t w)) = base ++ sentBy c ms
       /\ traceOk ext c expected (fst (advance ext t w)) ms.
Proof.
  intros Hh (Hctx & HN & ms & Hb & Hsorted & Hbound & Htot & Hres & Hdone).
  destruct (advanceBackground_healthy ext t w Hh) as (_ & _ & Hfc & _).
  split; [|split; [congruence|]].
  { destruct t as [c' rest n mawb prefix awbNo | c' rest n | n | e];
      cbn [healthy] in Hh; cbn [advance]; unfold ctxIs in *;
      cbn [taskCtx] in *; try exact I.
    - destruct Hh as [Hj _]. destruct (jobExists_found Hj) as [j Ej].
      now rewrite (afterTrackAWB_found ext c' rest n mawb prefix awbNo w Ej).
    - destruct (taskCtx (fst (visitRows c' rest n w))) as [c''|] eqn:E;
        [|exact I].
      apply visitRows_ctx in E. congruence. }
  destruct t as [c' rest n mawb prefix awbNo | c' rest n | n | e];
    cbn [healthy] in Hh; unfold ctxIs in Hctx; cbn [taskCtx] in Hctx;
    try subst c'; cbn [advance].
  - destruct Hh as [Hj Hwf]. destruct (jobExists_found Hj) as [j Ej].
    pose proof (afterTrackAWB_trace ext c rest n mawb prefix awbNo w Ej) as Ht.
    rewrite (afterTrackAWB_found ext c rest n mawb prefix awbNo w Ej) in *.
    cbn [fst snd] in *. cbn [nextProgress toCome] in *.
    set (settled := match trackAWB ext n prefix awbNo with
                    | Ok fields =>
                        [log (rowTag n ++ lit "Success: " ++ mawb) success;
                         result (toInsert mawb prefix awbNo fields)]
                    | Throw e =>
                        [log (rowTag n ++ lit "Error tracking " ++ mawb
                              ++ lit ": " ++ errorToString e) error]
                    end) in *.
    assert (Hs : currentsOf settled = []
                 /\ filter isCompleteMessage settled = []
                 /\ totalsAre c settled
                 /\ resultsOf settled ++ expectedFrom ext c n rest
                    = match trackAWB ext n prefix awbNo with
                      | Ok fields => [toInsert mawb prefix awbNo fields]
                      | Throw _ => []
                      end ++ expectedFrom ext c n rest).
    { subst settled. destruct (trackAWB ext n prefix awbNo);
        repeat split; repeat constructor. }
    destruct Hs as (Hs1 & Hs2 & Hs3 & Hs4).
    exists (ms ++ settled ++ [progress n (totalCount c)]).
    split; [rewrite Ht, Hb, <- app_assoc, sentBy_app; reflexivity|].
    unfold traceOk. cbn [nextProgress toCome].
    rewrite !currentsOf_app, !resultsOf_app, Hs1. cbn [currentsOf flat_map app].
    split; [now apply StronglySorted_snoc|].
    split.
    { apply Forall_app. split.
      - eapply Forall_impl; [|exact Hbound]. simpl. intros v Hv. lia.
      - constructor; [lia | constructor]. }
    split.
    { unfold totalsAre in *. apply Forall_app. split; [exact Htot|].
      apply Forall_app. split; [exact Hs3|].
      constructor; [reflexivity | constructor]. }
    split.
    { cbn [resultsOf flat_map app]. rewrite app_nil_r, <- app_assoc, Hs4.
      exact Hres. }
    rewrite !filter_app, Hdone, Hs2. reflexivity.
  - destruct Hh as [Hj Hwf].
    destruct (visitRows_trace n Hj Hwf) as (logs & Hlogs & Hshape).
    destruct (visitRows_toCome ext n w Hwf) as (Hcome & _).
    destruct (logs_carry_nothing Hlogs) as (Hl1 & Hl2 & Hl3 & Hl4).
    cbn [nextProgress toCome] in *.
    destruct (visitRows c rest n w) as [t' w'] eqn:E. cbn [fst snd] in *.
    destruct t' as [c' rest' n' m' p' a' | | n' |]; try contradiction.
    + destruct Hshape as (-> & Hn & Hb').
      exists (ms ++ logs). split; [now rewrite Hb', Hb, <- app_assoc, sentBy_app|].
      unfold traceOk. rewrite currentsOf_app, resultsOf_app, Hl1, Hl2, !app_nil_r.
      split; [exact Hsorted|].
      split.
      { eapply Forall_impl; [|exact Hbound]. cbn [nextProgress]. intros v Hv. lia. }
      split; [apply Forall_app; split; [exact Htot | apply Hl4]|].
      split; [now rewrite Hcome|].
      now rewrite filter_app, Hdone, Hl3.
    + destruct Hshape as (Hn & Hb').
      exists ((ms ++ logs) ++ [complete (completeText n')]).
      split; [now rewrite Hb', Hb, <- (app_assoc base), sentBy_app, (app_assoc ms)|].
      unfold traceOk.
      rewrite !currentsOf_app, !resultsOf_app, Hl1, Hl2. cbn. rewrite !app_nil_r.
      split; [exact Hsorted|].
      split.
      { eapply Forall_impl; [|exact Hbound]. simpl. intros v Hv. lia. }
      split.
      { unfold totalsAre. apply Forall_app. split.
        - apply Forall_app. split; [exact Htot | apply Hl4].
        - constructor; [exact I | constructor]. }
      split; [cbn [toCome] in Hcome; rewrite <- Hcome in Hres;
              now rewrite app_nil_r in *|].
      exists (ms ++ logs). split; [reflexivity|].
      now rewrite filter_app, Hdone, Hl3.
  - exists ms. split; [exact Hb|]. repeat split; assumption.
  - contradiction.
Qed.

Lemma nextProgress_bound t : nextProgress t <= S (finalCount t).
Proof. destruct t; simpl; lia. Qed.

(** The trace of a whole call, from the moment it enters its loop. *)
Lemma trace_of_run ext c records w turns :
  jobExists (job c) w -> wellFormed c records ->
  finalCount (fst (run ext turns (beginLoop c records w))) = List.length records
  /\ exists ms,
       broadcasts (snd (run ext turns (beginLoop c records w)))
       = broadcasts w ++ sentBy c ms
       /\ traceOk ext c (expectedFrom ext c 0 records)
            (fst (run ext turns (beginLoop c records w))) ms.
Proof.
  intros Hj Hwf. destruct (jobExists_found Hj) as [j Ej]. unfold beginLoop.
  rewrite (updateTrackJobStatus_found (now w) (job c) processing (store w) Ej).
  set (w1 := withStore w (setTrackJob (job c)
                            (withStatus (now w) processing j) (store w))).
  assert (Hh0 : healthy (AwaitDelay c records 0) w1).
  { split; [|exact Hwf]. unfold jobExists, jobOf. subst w1. cbn [withStore store].
    apply getTrackJob_setTrackJob. unfold getTrackJob in *. congruence. }
  set (P := fun t w' =>
              ctxIs c t /\ finalCount t = List.length records
              /\ exists ms,
                   broadcasts w' = broadcasts w ++ sentBy c ms
                   /\ traceOk ext c (expectedFrom ext c 0 records) t ms).
  assert (HP0 : P (AwaitDelay c records 0) w1).
  { split; [reflexivity|]. split; [reflexivity|]. exists [].
    split; [unfold sentBy; destruct (wss c); now rewrite app_nil_r|].
    repeat split; constructor. }
  pose proof (@trace_advance ext c (expectedFrom ext c 0 records) (broadcasts w)
                (List.length records) _ _ Hh0 HP0) as HP1.
  destruct (advanceBackground_healthy ext _ _ Hh0) as (_ & Hh1 & _).
  cbn [advance] in HP1, Hh1.
  destruct (visitRows c records 0 w1) as [t w'] eqn:E. cbn [fst snd] in *.
  destruct (@run_healthy_invariant P ext) with (turns := turns) (t := t) (w := w')
    as (_ & _ & HN & Hms); try assumption.
  - intros t0 w0 Hh HP. now apply trace_advance.
  - intros t0 w0 req _ HP. exact HP.
  - intros t0 w0 d _ HP. exact HP.
  - split; [exact HN | exact Hms].
Qed.

(** The progress of a run only advances: the progress messages of a
    call carry strictly increasing row numbers, none above the number of
    rows of the file, and all of them the same total. *)
Theorem progress_only_advances :
  forall (ext : Externals) (c : Ctx) (records : list Record_) (w : World)
         (turns : list Turn),
    jobExists (job c) w ->
    wellFormed c records ->
    exists ms,
      broadcasts (snd (run ext turns (beginLoop c records w)))
      = broadcasts w ++ sentBy c ms
      /\ StronglySorted lt (currentsOf ms)
      /\ Forall (fun v => v <= List.length records) (currentsOf ms)
      /\ totalsAre c ms.
Proof.
  intros ext c records w turns Hj Hwf.
  destruct (@trace_of_run ext c records w turns Hj Hwf)
    as (HN & ms & Hb & Hsorted & Hbound & Htot & _).
  exists ms. split; [exact Hb|]. split; [exact Hsorted|]. split; [|exact Htot].
  eapply Forall_impl; [|exact Hbound]. simpl. intros v Hv.
  pose proof (nextProgress_bound (fst (run ext turns (beginLoop c records w)))).
  lia.
Qed.

Lemma progress_only_advances_witness :
  jobExists 1 runningWorld
  /\ wellFormed runningCtx threeRows
  /\ exists ms,
       broadcasts (snd (run (failingAt 2)
                          [Resume; control 1 pause; Resume; Resume; Resume]
                          (beginLoop runningCtx threeRows runningWorld)))
       = broadcasts runningWorld ++ sentBy runningCtx ms
       /\ StronglySorted lt (currentsOf ms).
Proof.
  assert (Hj : jobExists 1 runningWorld) by discriminate.
  assert (Hwf : wellFormed runningCtx threeRows).
  { repeat constructor; eexists; reflexivity. }
  split; [exact Hj|]. split; [exact Hwf|].
  destruct (@progress_only_advances (failingAt 2) runningCtx threeRows
              runningWorld [Resume; control 1 pause; Resume; Resume; Resume]
              Hj Hwf) as (ms & Hb & Hs & _).
  exists ms. split; [exact Hb | exact Hs].
Defined.

(** The completion is the last thing a call sends, and it sends it
    once: while the task runs no completion has been sent, and when it
    has returned the messages end with the one completion, which reports
    the number of rows of the file.  The result messages sent by then are
    those of the rows looked up. *)
Theorem completion_is_sent_once_at_the_end :
  forall (ext : Externals) (c : Ctx) (records : list Record_) (w : World)
         (turns : list Turn),
    jobExists (job c) w ->
    wellFormed c records ->
    let final := run ext turns (beginLoop c records w) in
    (taskCtx (fst final) <> None ->
       exists ms,
         broadcasts (snd final) = broadcasts w ++ sentBy c ms
         /\ filter isCompleteMessage ms = [])
    /\ (2 * List.length records <= resumes turns ->
        exists earlier,
          broadcasts (snd final)
          = broadcasts w
            ++ sentBy c (earlier
                         ++ [complete (completeText (List.length records))])
          /\ filter isCompleteMessage earlier = []
          /\ resultsOf earlier = expectedFrom ext c 0 records).
Proof.
  intros ext c records w turns Hj Hwf final.
  destruct (@trace_of_run ext c records w turns Hj Hwf)
    as (HN & ms & Hb & _ & _ & _ & Hres & Hdone).
  fold final in HN, Hb, Hres, Hdone. split.
  - intros Hrun. exists ms. split; [exact Hb|].
    destruct (fst final); try exact Hdone. now contradiction Hrun.
  - intros Hturns.
    pose proof (@beginLoop_returns ext c records w turns Hj Hwf Hturns) as Hret.
    fold final in Hret. rewrite Hret in *.
    destruct Hdone as (earlier & -> & Hnone).
    exists earlier. split; [exact Hb|]. split; [exact Hnone|].
    cbn [toCome] in Hres. rewrite resultsOf_app in Hres. cbn in Hres.
    now rewrite !app_nil_r in Hres.
Qed.

Lemma completion_is_sent_once_at_the_end_witness :
  jobExists 1 runningWorld
  /\ wellFormed runningCtx twoRows
  /\ exists earlier,
       broadcasts (snd (run stub (repeat Resume 4)
                          (beginLoop runningCtx twoRows runningWorld)))
       = broadcasts runningWorld
         ++ sentBy runningCtx (earlier ++ [complete (completeText 2)])
       /\ filter isCompleteMessage earlier = [].
Proof.
  assert (Hj : jobExists 1 runningWorld) by discriminate.
  assert (Hwf : wellFormed runningCtx twoRows).
  { repeat constructor; eexists; reflexivity. }
  split; [exact Hj|]. split; [exact Hwf|].
  destruct (@completion_is_sent_once_at_the_end stub runningCtx twoRows
              runningWorld (repeat Resume 4) Hj Hwf) as [_ H].
  destruct H as (earlier & Hb & Hn & _); [vm_compute; lia|].
  exists earlier. split; [exact Hb | exact Hn].
Defined.

(** ** Dashboard.tsx: what the viewer shows *)

Lemma onmessage_keeps_active v b : activeJobId (onmessage v b) = activeJobId v.
Proof.
  unfold onmessage. cbv zeta.
  match goal with |- context [if ?f then v else _] => destruct f end;
    [reflexivity|].
  destruct (payload b) as [text level| | |text]; try reflexivity;
    destruct (falsy text); reflexivity.
Qed.

Lemma accepted_onmessage v b b' : accepted (onmessage v b) b' = accepted v b'.
Proof. unfold accepted. now rewrite onmessage_keeps_active. Qed.

Lemma onmessage_results v b :
  results (onmessage v b)
  = results v ++ (if accepted v b then resultsOf [payload b] else []).
Proof.
  unfold onmessage, accepted. cbv zeta.
  destruct (activeJobId v) as [a|] eqn:Ea.
  - destruct (jobId b =? a); cbn [negb]; [|now rewrite app_nil_r].
    destruct (payload b) as [text level| | |text]; cbn;
      try destruct (falsy text); cbn; now rewrite ?app_nil_r.
  - destruct (payload b) as [text level| | |text]; cbn;
      try destruct (falsy text); cbn; now rewrite ?app_nil_r.
Qed.

Lemma onmessage_rejected v b : accepted v b = false -> onmessage v b = v.
Proof.
  unfold onmessage, accepted. cbv zeta.
  destruct (activeJobId v) as [a|] eqn:Ea; [|discriminate].
  now intros ->.
Qed.

Lemma viewer_filters_by_active_job_aux (v : Viewer) (bs : list Broadcast) :
  results (receive v bs)
  = results v ++ resultsOf (map payload (filter (accepted v) bs))
  /\ activeJobId (receive v bs) = activeJobId v
  /\ (forallb (fun b => negb (accepted v b)) bs = true -> receive v bs = v).
Proof.
  unfold receive. revert v.
  induction bs as [|b bs IH]; intros v; cbn [fold_left filter forallb].
  - cbn. rewrite app_nil_r. auto.
  - destruct (IH (onmessage v b)) as (Hr & Ha & Hd).
    split; [|split].
    + rewrite Hr, onmessage_results.
      rewrite (filter_ext _ _ (accepted_onmessage v b)).
      destruct (accepted v b); cbn [map]; [|now rewrite app_nil_r].
      rewrite <- app_assoc. f_equal.
      symmetry. apply (resultsOf_app [payload b]).
    + now rewrite Ha, onmessage_keeps_active.
    + intros H. apply andb_true_iff in H. destruct H as [Hb Hbs].
      apply negb_true_iff in Hb. rewrite (onmessage_rejected v b Hb) in *.
      now apply Hd.
Qed.

(** The page takes the results of the broadcasts it does not drop, in
    the order received: those of its active job, or, while it has no
    active job, those of every job.  Broadcasts of other jobs than the
    active one change nothing on the page. *)
Theorem viewer_filters_by_active_job :
  forall (v : Viewer) (bs : list Broadcast),
    results (receive v bs)
    = results v ++ resultsOf (map payload (filter (accepted v) bs))
    /\ activeJobId (receive v bs) = activeJobId v
    /\ (forallb (fun b => negb (accepted v b)) bs = true -> receive v bs = v).
Proof. intros v bs. apply viewer_filters_by_active_job_aux. Qed.






(** ** tracking.ts: who is sent a message *)

(** Whatever job a message belongs to, every client whose socket is
    open is sent it, in the order of the broadcasts; a client in any
    other state is sent nothing, and no client is added or dropped. *)
Theorem every_open_client_gets_every_message :
  forall (clients : list Client) (bs : list Broadcast),
    deliver clients bs
    = map (fun client =>
             if readyState client =? 1
             then mkClient (readyState client) (inbox client ++ bs)
             else client) clients
    /\ forall id m,
         sendToClients (Some clients) id m
         = Some (deliver clients [mkBroadcast id m])
         /\ sendToClients None id m = None.
Proof.
  intros clients bs. split; [|intros id m; split; reflexivity].
  unfold deliver. revert clients.
  induction bs as [|b bs IH]; intros clients; cbn [fold_left].
  - symmetry. erewrite map_ext; [apply map_id|].
    intros [state box]. cbn. rewrite app_nil_r. now destruct (state =? 1).
  - rewrite IH, map_map. apply map_ext. intros [state box].
    unfold sendIfOpen. cbn [readyState inbox].
    destruct (state =? 1) eqn:E; cbn [readyState inbox]; rewrite E;
      [now rewrite <- app_assoc | reflexivity].
Qed.

(** ** tracking.ts: the two exports *)

Lemma sendAll_spec api plan : forall sent failure,
  sendAll api plan = (sent, failure) ->
  (exists later, plan = sent ++ later)
  /\ match failure with
     | None => sent = plan /\ Forall (acceptedBy api) sent
     | Some e =>
         exists before last,
           sent = before ++ [last] /\ api last = Throw e
           /\ Forall (acceptedBy api) before
     end.
Proof.
  induction plan as [|req plan IH]; intros sent failure; cbn [sendAll].
  - intros H. inversion H; subst. split; [now exists []|]. split; constructor.
  - destruct (api req) as [u|e] eqn:E.
    + destruct (sendAll api plan) as [sent' failure'] eqn:Es.
      intros H. inversion H; subst.
      destruct (IH sent' failure eq_refl) as ((later & Hl) & Hf).
      split; [exists later; now rewrite Hl at 1|].
      destruct failure as [e|].
      * destruct Hf as (before & last & -> & Hlast & Hok).
        exists (req :: before), last. split; [reflexivity|]. split; [exact Hlast|].
        constructor; [now exists u | exact Hok].
      * destruct Hf as [-> Hok]. split; [reflexivity|].
        constructor; [now exists u | exact Hok].
    + intros H. inversion H; subst. split; [now exists plan|].
      exists [], req. split; [reflexivity|]. split; [exact E | constructor].
Qed.

Lemma sheetPlan_writes results :
  flat_map written (sheetPlan results) = generateExcelFile results.
Proof.
  unfold sheetPlan, generateExcelFile. cbn [app flat_map written].
  destruct (map exportRow results); cbn; now rewrite ?app_nil_r.
Qed.

(** The spreadsheet export sends its requests in one order, clear, then
    header, then rows, and stops at the first one the service rejects,
    rethrowing its error: nothing is written unless the clear was
    accepted.  When it succeeds it has written exactly the table of the
    Excel export: the header and one row of ten cells for each result,
    in order, the rows as one block that ends at line n+1; with no result
    it writes the header alone. *)
Theorem sheet_export_clears_then_writes_the_table :
  forall (credentials : outcome unit) (api : SheetsRequest -> outcome unit)
         (spreadsheetId : jsstring) (results : list TrackResult.t),
    let sent := fst (updateGoogleSheet credentials api spreadsheetId results) in
    let out := snd (updateGoogleSheet credentials api spreadsheetId results) in
    (exists later, sheetPlan results = sent ++ later)
    /\ (forall text,
          out = Ok text ->
          sent = sheetPlan results
          /\ flat_map written sent = generateExcelFile results
          /\ Forall (acceptedBy api) sent)
    /\ (forall e,
          out = Throw e ->
          (credentials = Throw e /\ sent = [])
          \/ exists before last,
               sent = before ++ [last] /\ api last = Throw e
               /\ Forall (acceptedBy api) before)
    /\ (forall range values,
          In (UpdateValues range values) sent ->
          acceptedBy api (ClearValues (lit "Sheet1!A1:J1000")))
    /\ Forall (fun cells => List.length cells = 10) (generateExcelFile results)
    /\ (results = [] ->
        sheetPlan results
        = [ClearValues (lit "Sheet1!A1:J1000");
           UpdateValues (lit "Sheet1!A1:J1") [exportHeaders]])
    /\ (results <> [] ->
        sheetPlan results
        = [ClearValues (lit "Sheet1!A1:J1000");
           UpdateValues (lit "Sheet1!A1:J1") [exportHeaders];
           UpdateValues
             (lit "Sheet1!A2:J" ++ numToString (List.length results + 1))
             (map exportRow results)]).
Proof.
  intros credentials api spreadsheetId results sent out.
  assert (Hplan : results <> [] ->
    sheetPlan results
    = [ClearValues (lit "Sheet1!A1:J1000");
       UpdateValues (lit "Sheet1!A1:J1") [exportHeaders];
       UpdateValues
         (lit "Sheet1!A2:J" ++ numToString (List.length results + 1))
         (map exportRow results)]).
  { intros Hne. unfold sheetPlan. rewrite length_map.
    destruct results as [|r rs]; [congruence | reflexivity]. }
  assert (Hshape :
    (exists later, sheetPlan results = sent ++ later)
    /\ (forall text, out = Ok text ->
          sent = sheetPlan results /\ Forall (acceptedBy api) sent)
    /\ (forall e, out = Throw e ->
          (credentials = Throw e /\ sent = [])
          \/ exists before last,
               sent = before ++ [last] /\ api last = Throw e
               /\ Forall (acceptedBy api) before)).
  { subst sent out. unfold updateGoogleSheet.
    destruct credentials as [u|e0].
    - destruct (sendAll api (sheetPlan results)) as [sent failure] eqn:Es.
      destruct (sendAll_spec api (sheetPlan results) Es) as (Hpre & Hf).
      destruct failure as [e|]; cbn [fst snd].
      + split; [exact Hpre|]. split; [discriminate|].
        intros e' He'. inversion He'; subst. right. exact Hf.
      + split; [exact Hpre|]. split; [intros text _; exact Hf | discriminate].
    - cbn [fst snd]. split; [now exists (sheetPlan results)|].
      split; [discriminate|]. intros e He. inversion He; subst. now left. }
  destruct Hshape as ((later & Hlater) & Hok & Hfail).
  split; [now exists later|].
  split.
  { intros text Ht. destruct (Hok text Ht) as [Hs Hacc].
    split; [exact Hs|]. split; [|exact Hacc].
    rewrite Hs. apply sheetPlan_writes. }
  split; [exact Hfail|].
  split.
  { intros range values Hin.
    assert (Hfirst : exists rest, sent = ClearValues (lit "Sheet1!A1:J1000") :: rest).
    { unfold sheetPlan in Hlater. cbn [app] in Hlater.
      destruct sent as [|req rest]; [contradiction|].
      inversion Hlater; subst. eauto. }
    destruct Hfirst as [rest Hsent].
    destruct out as [text|e] eqn:Eo.
    - destruct (Hok text eq_refl) as [_ Hacc]. rewrite Hsent in Hacc.
      now inversion Hacc.
    - destruct (Hfail e eq_refl) as [[_ Hnil] | (before & last & Hs & Hlast & Hacc)].
      + rewrite Hnil in Hin. contradiction.
      + destruct before as [|req before'].
        * rewrite Hs in Hsent, Hin. cbn in Hsent. inversion Hsent; subst.
          destruct Hin as [Hin|[]]. discriminate.
        * rewrite Hs in Hsent. cbn in Hsent. inversion Hsent; subst.
          now inversion Hacc. }
  split.
  { unfold generateExcelFile. constructor; [reflexivity|].
    apply Forall_forall. intros cells Hin. apply in_map_iff in Hin.
    destruct Hin as (r & <- & _). reflexivity. }
  split; [intros ->; reflexivity | exact Hplan].
Qed.

(** ** The canonical form of an identifier *)

Lemma digit_not_space c : isDigit c = true -> isWhiteSpace c = false.
Proof.
  unfold isDigit, isWhiteSpace. intros H.
  apply andb_true_iff in H. destruct H as [H1 H2].
  apply N.leb_le in H1. apply N.leb_le in H2.
  cbn [existsb].
  repeat match goal with
         | |- context [N.eqb c ?k] =>
             replace (N.eqb c k) with false by (symmetry; apply N.eqb_neq; lia)
         end.
  cbn [orb]. apply andb_false_iff. left. apply N.leb_gt. lia.
Qed.

Lemma digit_not_hyphen d n : digits n d -> ~ In hyphen d.
Proof.
  intros [_ Hd] Hin. rewrite Forall_forall in Hd. specialize (Hd _ Hin).
  apply digit_not_sep in Hd. unfold isSep in Hd. now rewrite N.eqb_refl in Hd.
Qed.

Lemma removeWhiteSpace_clean s :
  Forall (fun c => isWhiteSpace c = false) (removeWhiteSpace s).
Proof.
  unfold removeWhiteSpace. apply Forall_forall. intros c Hc.
  apply filter_In in Hc. destruct Hc as [_ Hc]. now apply negb_true_iff in Hc.
Qed.

(** The two parts of an identifier that is looked up contain neither
    whitespace nor a hyphen. *)
Lemma looked_up_parts_are_clean mawb :
  lookedUp mawb = true ->
  let p := fst (splitMAWB mawb) in
  let a := snd (splitMAWB mawb) in
  p <> [] /\ a <> [] /\ ~ In hyphen p /\ ~ In hyphen a
  /\ Forall (fun c => isWhiteSpace c = false) (p ++ hyphen :: a).
Proof.
  intros Hlook p a. subst p a.
  pose proof (splitMAWB_on_cleaned mawb) as Hs.
  pose proof (removeWhiteSpace_clean (trim mawb)) as Hclean.
  unfold lookedUp in Hlook.
  destruct Hs as [x y Hm Hx Hy | x y Hc Hf | Hc Hn]; cbn [fst snd] in *.
  - apply negb_true_iff, orb_false_iff in Hlook. destruct Hlook as [H1 H2].
    apply falsy_false in H1, H2. rewrite Hm in Hclean. auto.
  - destruct (FirstMatch_nonempty Hf) as [Hp Hn].
    destruct Hf as (pre & s & _ & (sep & rest & _ & Hdp & Hdn & _) & _).
    split; [exact Hp|]. split; [exact Hn|].
    split; [now apply (digit_not_hyphen Hdp)|].
    split; [now apply (digit_not_hyphen Hdn)|].
    apply Forall_app. split.
    + eapply Forall_impl; [|apply Hdp]. exact digit_not_space.
    + constructor; [reflexivity|].
      eapply Forall_impl; [|apply Hdn]. exact digit_not_space.
  - discriminate.
Qed.

(** Writing the two parts of a looked-up identifier with one hyphen
    between them gives an identifier that splits into the same two
    parts: the key of a lookup is stable under being split again. *)
Theorem split_key_is_stable :
  forall (mawb : jsstring),
    lookedUp mawb = true ->
    let p := fst (splitMAWB mawb) in
    let a := snd (splitMAWB mawb) in
    splitMAWB (p ++ hyphen :: a) = (p, a)
    /\ lookedUp (p ++ hyphen :: a) = true.
Proof.
  intros mawb Hlook p a.
  destruct (looked_up_parts_are_clean mawb Hlook) as (Hp & Ha & Hhp & Hha & Hws).
  fold p a in Hp, Ha, Hhp, Hha, Hws.
  destruct (splitMAWB_hyphenated_verbatim Hp Ha Hhp Hha Hws) as [Hs _].
  split; [exact Hs|]. unfold lookedUp. rewrite Hs.
  apply negb_true_iff, orb_false_iff. split; now apply falsy_false.
Qed.

Lemma split_key_is_stable_witness :
  lookedUp (lit "AWB 123 45678901x") = true
  /\ splitMAWB (lit "123-45678901") = (lit "123", lit "45678901").
Proof.
  split; [reflexivity|].
  exact (proj1 (@split_key_is_stable (lit "AWB 123 45678901x") eq_refl)).
Defined.

(** ** The persisted processed count *)

Lemma processed_updateTrackJobStatus id X now id0 s st j st' :
  option_map TrackJob.processedCount (getTrackJob id st) = X ->
  updateTrackJobStatus now id0 s st = Ok (j, st') ->
  option_map TrackJob.processedCount (getTrackJob id st') = X.
Proof.
  unfold updateTrackJobStatus. intros <-.
  destruct (getTrackJob id0 st) as [j0|] eqn:E; [|discriminate].
  intros H. inversion H; subst. unfold getTrackJob, setTrackJob. cbn [trackJobs].
  destruct (Nat.eq_dec id id0) as [->|Hne].
  - rewrite map_get_set_same. unfold getTrackJob in E. now rewrite E.
  - now rewrite map_get_set_other.
Qed.

Lemma processedOf_visitRows id c records n w :
  processedOf id (snd (visitRows c records n w)) = processedOf id w.
Proof.
  unfold processedOf, jobOf.
  apply (visitRows_invariant
           (fun st => option_map TrackJob.processedCount (getTrackJob id st)
                      = option_map TrackJob.processedCount
                          (getTrackJob id (store w)))).
  - intros now0 id0 s st j st'. apply processed_updateTrackJobStatus.
  - reflexivity.
Qed.

Lemma processedOf_control id now0 req w :
  processedOf id (withStore w (snd (controlRoute now0 req (store w))))
  = processedOf id w.
Proof.
  unfold processedOf, jobOf, controlRoute. cbn [withStore store].
  destruct (idParam req) as [id0|]; [|reflexivity].
  destruct (action req) as [a|issue]; [|reflexivity].
  destruct (getTrackJob id0 (store w)) as [j|] eqn:Ej; [|reflexivity].
  destruct (updateTrackJobStatus now0 id0 (newStatus a) (store w))
    as [[j' st']|e] eqn:E; [|reflexivity].
  cbn [snd]. now apply (@processed_updateTrackJobStatus id _ now0 id0 (newStatus a)
                          (store w) j' st' eq_refl E).
Qed.

Lemma processed_invariant ext c N lower turns t w :
  healthy t w ->
  ctxIs c t -> finalCount t = N ->
  (exists p, processedOf (job c) w = Some p /\ lower <= p /\ p < nextProgress t) ->
  let final := run ext turns (t, w) in
  healthy (fst final) (snd final)
  /\ ctxIs c (fst final) /\ finalCount (fst final) = N
  /\ exists p, processedOf (job c) (snd final) = Some p
               /\ lower <= p /\ p < nextProgress (fst final).
Proof.
  intros Hh Hctx HN Hp final. subst final.
  apply (run_healthy_invariant
           (fun t w =>
              ctxIs c t /\ finalCount t = N
              /\ exists p, processedOf (job c) w = Some p
                           /\ lower <= p /\ p < nextProgress t) ext);
    [| | | exact Hh | auto].
  - clear. intros t w Hh (Hctx & HN & p & Hp & Hlow & Hhi).
    destruct (advanceBackground_healthy ext t w Hh) as (_ & _ & Hfc & _).
    destruct t as [c' rest n mawb prefix awbNo | c' rest n | n | e];
      cbn [healthy] in Hh; unfold ctxIs in Hctx; cbn [taskCtx] in Hctx;
      try subst c'; cbn [advance nextProgress] in *.
    + destruct Hh as [Hj Hwf]. destruct (jobExists_found Hj) as [j Ej].
      rewrite (afterTrackAWB_found ext c rest n mawb prefix awbNo w Ej) in *.
      cbn [fst snd nextProgress]. split; [reflexivity|]. split; [exact HN|].
      exists n. split; [|lia].
      unfold processedOf, jobOf. rewrite store_broadcastMessage.
      cbn [withStore store]. unfold getTrackJob, setTrackJob. cbn [trackJobs].
      now rewrite map_get_set_same.
    + destruct Hh as [Hj Hwf].
      destruct (visitRows_trace n Hj Hwf) as (ls & _ & Hshape).
      pose proof (processedOf_visitRows (job c) c rest n w) as Hsame.
      destruct (visitRows c rest n w) as [t' w'] eqn:E. cbn [fst snd] in *.
      destruct t' as [c' rest' n' m' p' a' | | n' |]; try contradiction;
        unfold ctxIs; cbn [taskCtx nextProgress].
      * destruct Hshape as (-> & Hn & _). split; [reflexivity|].
        split; [congruence|]. exists p. rewrite Hsame. split; [exact Hp | lia].
      * destruct Hshape as (Hn & _). split; [exact I|].
        split; [congruence|]. exists p. rewrite Hsame. split; [exact Hp | lia].
    + split; [exact I|]. split; [exact HN|]. exists p. auto.
    + contradiction.
  - clear. intros t w req _ (Hctx & HN & p & Hp & Hb).
    split; [exact Hctx|]. split; [exact HN|]. exists p.
    now rewrite processedOf_control.
  - clear. intros t w d _ H. exact H.
Qed.

Lemma run_app ext turns more s :
  run ext (turns ++ more) s = run ext more (run ext turns s).
Proof. unfold run. apply fold_left_app. Qed.

(** The persisted processed count of a job only grows while its file is
    processed, whatever is served in between, and it never exceeds the
    number of rows of the file. *)
Theorem processed_count_only_grows :
  forall (ext : Externals) (c : Ctx) (records : list Record_) (w : World)
         (turns more : list Turn),
    jobExists (job c) w ->
    wellFormed c records ->
    processedOf (job c) w = Some 0 ->
    exists p p',
      processedOf (job c) (snd (run ext turns (beginLoop c records w))) = Some p
      /\ processedOf (job c)
           (snd (run ext (turns ++ more) (beginLoop c records w)))
         = Some p'
      /\ p <= p' /\ p' <= List.length records.
Proof.
  intros ext c records w turns more Hj Hwf H0.
  destruct (jobExists_found Hj) as [j Ej].
  assert (Hstart : exists t1 w1,
    beginLoop c records w = advance ext t1 w1
    /\ healthy t1 w1 /\ ctxIs c t1 /\ finalCount t1 = List.length records
    /\ processedOf (job c) w1 = Some 0 /\ nextProgress t1 = 1).
  { exists (AwaitDelay c records 0),
      (withStore w (setTrackJob (job c) (withStatus (now w) processing j)
                      (store w))).
    unfold beginLoop.
    rewrite (updateTrackJobStatus_found (now w) (job c) processing (store w) Ej).
    split; [reflexivity|]. split.
    { split; [|exact Hwf]. unfold jobExists, jobOf. cbn [withStore store].
      apply getTrackJob_setTrackJob. unfold getTrackJob in *. congruence. }
    split; [reflexivity|]. split; [reflexivity|]. split; [|reflexivity].
    unfold processedOf, jobOf in *. cbn [withStore store].
    unfold getTrackJob, setTrackJob in *. cbn [trackJobs].
    rewrite map_get_set_same. rewrite Ej in H0. exact H0. }
  destruct Hstart as (t1 & w1 & Hbegin & Hh1 & Hc1 & HN1 & Hp1 & Hn1).
  assert (Hrun : forall ts,
    run ext ts (beginLoop c records w) = run ext (Resume :: ts) (t1, w1)).
  { intros ts. unfold run. cbn [fold_left step].
    destruct (advanceBackground_healthy ext t1 w1 Hh1) as (-> & _).
    now rewrite Hbegin. }
  rewrite !Hrun. rewrite app_comm_cons, run_app.
  destruct (@processed_invariant ext c (List.length records) 0 (Resume :: turns)
              t1 w1 Hh1 Hc1 HN1) as (Hh2 & Hc2 & HN2 & p & Hp & _ & Hhi).
  { exists 0. rewrite Hn1. split; [exact Hp1 | lia]. }
  destruct (run ext (Resume :: turns) (t1, w1)) as [t2 w2] eqn:E2.
  cbn [fst snd] in *.
  destruct (@processed_invariant ext c (List.length records) p more
              t2 w2 Hh2 Hc2 HN2) as (_ & _ & HN3 & p' & Hp' & Hlow & Hhi').
  { exists p. split; [exact Hp | lia]. }
  exists p, p'. split; [exact Hp|]. split; [exact Hp'|]. split; [exact Hlow|].
  pose proof (nextProgress_bound (fst (run ext more (t2, w2)))). lia.
Qed.

Lemma processed_count_only_grows_witness :
  jobExists 1 runningWorld
  /\ wellFormed runningCtx threeRows
  /\ exists p p',
       processedOf 1
         (snd (run stub [Resume; control 1 cancel]
                 (beginLoop runningCtx threeRows runningWorld))) = Some p
       /\ processedOf 1
            (snd (run stub ([Resume; control 1 cancel] ++ [Resume; Resume])
                    (beginLoop runningCtx threeRows runningWorld))) = Some p'
       /\ p <= p'.
Proof.
  assert (Hj : jobExists 1 runningWorld) by discriminate.
  assert (Hwf : wellFormed runningCtx threeRows).
  { repeat constructor; eexists; reflexivity. }
  split; [exact Hj|]. split; [exact Hwf|].
  destruct (@processed_count_only_grows stub runningCtx threeRows runningWorld
              [Resume; control 1 cancel] [Resume; Resume] Hj Hwf eq_refl)
    as (p & p' & H1 & H2 & H3 & _).
  exists p, p'. auto.
Defined.

(** ** The status of a job that is left alone *)

Lemma statusOf_visitRows c records : forall n w,
  jobExists (job c) w -> wellFormed c records ->
  match fst (visitRows c records n w) with
  | Returned _ => statusOf (job c) (snd (visitRows c records n w)) = Some completed
  | AwaitTrackAWB _ _ _ _ _ _ =>
      statusOf (job c) (snd (visitRows c records n w)) = statusOf (job c) w
  | _ => False
  end.
Proof.
  induction records as [|r rest IH]; intros n w Hj Hwf.
  - destruct (jobExists_found Hj) as [j Ej]. cbn [visitRows].
    rewrite (finish_found c n w Ej). cbn [fst snd].
    unfold statusOf, jobOf. rewrite store_broadcastMessage.
    cbn [withStore store]. unfold getTrackJob, setTrackJob. cbn [trackJobs].
    now rewrite map_get_set_same.
  - inversion Hwf as [|? ? [mawb Hcell] Hrest]; subst.
    cbn [visitRows]. rewrite Hcell.
    destruct (splitMAWB mawb) as [prefix awbNo].
    destruct (falsy prefix || falsy awbNo).
    + match goal with
      | |- context [visitRows c rest (S n) ?w1] =>
          pose proof (IH (S n) w1) as H;
          destruct (visitRows c rest (S n) w1) as [t w'] eqn:E
      end.
      cbn [fst snd] in *.
      assert (Hj' : jobExists (job c)
                      (broadcastMessage (wss c) (job c)
                         (log (rowTag (S n) ++ lit "Skipping invalid MAWB: "
                               ++ mawb) warn) w))
        by now apply jobExists_broadcastMessage.
      specialize (H Hj' Hrest).
      destruct t; try exact H. rewrite H. unfold statusOf, jobOf.
      now rewrite store_broadcastMessage.
    + cbn [fst snd]. unfold statusOf, jobOf. now rewrite store_broadcastMessage.
Qed.

(** While no control request is served, the stored status of a job tells
    where its task stands: processing as long as the task runs, completed
    once it has returned. *)
Theorem status_of_a_job_left_alone :
  forall (ext : Externals) (c : Ctx) (records : list Record_) (w : World)
         (turns : list Turn),
    jobExists (job c) w ->
    wellFormed c records ->
    withoutControl turns = turns ->
    let final := run ext turns (beginLoop c records w) in
    statusOf (job c) (snd final)
    = Some (match fst final with
            | Returned _ => completed
            | _ => processing
            end).
Proof.
  intros ext c records w turns Hj Hwf Hquiet final.
  set (Q := fun (t : Task) (w' : World) =>
              healthy t w' /\ ctxIs c t
              /\ statusOf (job c) w'
                 = Some (match t with Returned _ => completed | _ => processing end)).
  assert (Hadv : forall t w', Q t w' ->
                   Q (fst (advance ext t w')) (snd (advance ext t w'))).
  { intros t w' (Hh & Hctx & Hs).
    destruct (advanceBackground_healthy ext t w' Hh) as (_ & Hh' & _).
    split; [exact Hh'|].
    destruct t as [c' rest n mawb prefix awbNo | c' rest n | n | e];
      cbn [healthy] in Hh; unfold ctxIs in Hctx; cbn [taskCtx] in Hctx;
      try subst c'; cbn [advance] in *.
    - destruct Hh as [Hj' Hwf']. destruct (jobExists_found Hj') as [j Ej].
      rewrite (afterTrackAWB_found ext c rest n mawb prefix awbNo w' Ej).
      cbn [fst snd]. split; [reflexivity|].
      unfold statusOf, jobOf in *. rewrite store_broadcastMessage.
      cbn [withStore store]. unfold getTrackJob, setTrackJob in *.
      cbn [trackJobs]. rewrite map_get_set_same.
      rewrite Ej in Hs. exact Hs.
    - destruct Hh as [Hj' Hwf'].
      pose proof (statusOf_visitRows n Hj' Hwf') as Hst.
      destruct (taskCtx (fst (visitRows c rest n w'))) as [c''|] eqn:Ec.
      + pose proof (visitRows_ctx _ _ _ _ Ec) as ->.
        split; [unfold ctxIs; now rewrite Ec|].
        destruct (fst (visitRows c rest n w')); try discriminate;
          try contradiction. now rewrite Hst.
      + split; [unfold ctxIs; now rewrite Ec|].
        destruct (fst (visitRows c rest n w')); try discriminate;
          try contradiction. exact Hst.
    - split; [exact I | exact Hs].
    - contradiction. }
  assert (Hrun : forall ts t w',
            withoutControl ts = ts -> Q t w' ->
            Q (fst (run ext ts (t, w'))) (snd (run ext ts (t, w')))).
  { unfold run, withoutControl.
    induction ts as [|turn ts IH]; intros t w' Hq HQ; [exact HQ|].
    cbn [fold_left filter] in *.
    destruct turn as [|req|d]; cbn [isControl negb] in Hq.
    - inversion Hq as [Hq']. rewrite Hq'. cbn [step].
      destruct HQ as (Hh & HQ').
      destruct (advanceBackground_healthy ext t w' Hh) as (Heq & _).
      rewrite Heq. pose proof (Hadv t w' (conj Hh HQ')) as HQ2.
      destruct (advance ext t w') as [t2 w2]. now apply IH.
    - exfalso.
      assert (Hlen : List.length (filter (fun turn => negb (isControl turn)) ts)
                     <= List.length ts) by apply filter_length_le.
      rewrite Hq in Hlen. cbn [List.length] in Hlen. lia.
    - inversion Hq as [Hq']. rewrite Hq'. cbn [step]. apply IH; [exact Hq'|].
      destruct HQ as (Hh & Hctx & Hs). split; [|split; [exact Hctx | exact Hs]].
      destruct t; cbn [healthy] in *; tauto. }
  destruct (jobExists_found Hj) as [j Ej]. subst final. unfold beginLoop.
  rewrite (updateTrackJobStatus_found (now w) (job c) processing (store w) Ej).
  set (w1 := withStore w (setTrackJob (job c)
                            (withStatus (now w) processing j) (store w))).
  assert (HQ0 : Q (AwaitDelay c records 0) w1).
  { split; [split; [|exact Hwf]|split; [reflexivity|]].
    - unfold jobExists, jobOf. subst w1. cbn [withStore store].
      apply getTrackJob_setTrackJob. unfold getTrackJob in *. congruence.
    - unfold statusOf, jobOf. subst w1. cbn [withStore store].
      unfold getTrackJob, setTrackJob. cbn [trackJobs].
      now rewrite map_get_set_same. }
  pose proof (Hadv _ _ HQ0) as HQ1. cbn [advance] in HQ1.
  destruct (visitRows c records 0 w1) as [t w'] eqn:E. cbn [fst snd] in *.
  exact (proj2 (proj2 (Hrun turns t w' Hquiet HQ1))).
Qed.

Lemma status_of_a_job_left_alone_witness :
  jobExists 1 runningWorld
  /\ wellFormed runningCtx twoRows
  /\ statusOf 1
       (snd (run stub [Resume; ClockTurn 50%Z; Resume]
               (beginLoop runningCtx twoRows runningWorld)))
     = Some processing
  /\ statusOf 1
       (snd (run stub (repeat Resume 4)
               (beginLoop runningCtx twoRows runningWorld)))
     = Some completed.
Proof.
  assert (Hj : jobExists 1 runningWorld) by discriminate.
  assert (Hwf : wellFormed runningCtx twoRows).
  { repeat constructor; eexists; reflexivity. }
  split; [exact Hj|]. split; [exact Hwf|]. split.
  - exact (@status_of_a_job_left_alone stub runningCtx twoRows runningWorld
             [Resume; ClockTurn 50%Z; Resume] Hj Hwf eq_refl).
  - exact (@status_of_a_job_left_alone stub runningCtx twoRows runningWorld
             (repeat Resume 4) Hj Hwf eq_refl).
Defined.

(** ** The progress of the rows whose identifier parses *)

Lemma visitRows_progressToCome c records : forall n w,
  wellFormed c records ->
  progressToCome (fst (visitRows c records n w)) = lookedUpRows c n records.
Proof.
  induction records as [|r rest IH]; intros n w Hwf.
  - cbn [visitRows lookedUpRows]. unfold finish, failJob, updateTrackJobStatus.
    destruct (getTrackJob (job c) (store w)); reflexivity.
  - inversion Hwf as [|? ? [mawb Hcell] Hrest]; subst.
    cbn [visitRows lookedUpRows]. rewrite Hcell. unfold lookedUp.
    destruct (splitMAWB mawb) as [prefix awbNo].
    destruct (falsy prefix || falsy awbNo); cbn [negb].
    + cbn [app]. now apply IH.
    + reflexivity.
Qed.

Lemma ctxIs_advance ext c t w : ctxIs c t -> ctxIs c (fst (advance ext t w)).
Proof.
  unfold ctxIs. intros H.
  destruct (taskCtx (fst (advance ext t w))) as [c'|] eqn:E; [|exact I].
  apply advance_ctx in E. now rewrite E in H.
Qed.

Lemma In_currentsOf cur tot ms : In (progress cur tot) ms -> In cur (currentsOf ms).
Proof.
  intros H. unfold currentsOf. apply in_flat_map.
  exists (progress cur tot). split; [exact H | now left].
Qed.

(** What holds of the progress a task has sent and has yet to send. *)
Lemma progress_invariant ext c expected base p0 turns t w :
  healthy t w ->
  ctxIs c t ->
  (exists ms,
      broadcasts w = base ++ sentBy c ms
      /\ currentsOf ms ++ progressToCome t = expected
      /\ totalsAre c ms
      /\ processedOf (job c) w = Some (last (currentsOf ms) p0)) ->
  exists ms,
    broadcasts (snd (run ext turns (t, w))) = base ++ sentBy c ms
    /\ currentsOf ms ++ progressToCome (fst (run ext turns (t, w))) = expected
    /\ totalsAre c ms
    /\ processedOf (job c) (snd (run ext turns (t, w)))
       = Some (last (currentsOf ms) p0).
Proof.
  intros Hh Hctx Hinit.
  apply (run_healthy_invariant
           (fun t w =>
              ctxIs c t
              /\ exists ms,
                   broadcasts w = base ++ sentBy c ms
                   /\ currentsOf ms ++ progressToCome t = expected
                   /\ totalsAre c ms
                   /\ processedOf (job c) w = Some (last (currentsOf ms) p0))
           ext); [| | | exact Hh | now split].
  - clear. intros t w Hh (Hctx & ms & Hb & Hexp & Htot & Hp).
    split; [now apply ctxIs_advance|].
    destruct t as [c' rest n mawb prefix awbNo | c' rest n | n | e];
      cbn [healthy] in Hh; unfold ctxIs in Hctx; cbn [taskCtx] in Hctx;
      try subst c'; cbn [advance].
    + destruct Hh as [Hj Hwf]. destruct (jobExists_found Hj) as [j Ej].
      pose proof (afterTrackAWB_trace ext c rest n mawb prefix awbNo w Ej) as Ht.
      rewrite (afterTrackAWB_found ext c rest n mawb prefix awbNo w Ej) in *.
      cbn [fst snd progressToCome] in *.
      set (settled := match trackAWB ext n prefix awbNo with
                      | Ok fields =>
                          [log (rowTag n ++ lit "Success: " ++ mawb) success;
                           result (toInsert mawb prefix awbNo fields)]
                      | Throw e =>
                          [log (rowTag n ++ lit "Error tracking " ++ mawb
                                ++ lit ": " ++ errorToString e) error]
                      end) in *.
      assert (Hs : currentsOf settled = [] /\ totalsAre c settled).
      { subst settled. destruct (trackAWB ext n prefix awbNo);
          repeat split; repeat constructor. }
      destruct Hs as (Hs1 & Hs2).
      exists (ms ++ settled ++ [progress n (totalCount c)]).
      split; [rewrite Ht, Hb, <- app_assoc, sentBy_app; reflexivity|].
      rewrite !currentsOf_app, Hs1. cbn [currentsOf flat_map app].
      split; [now rewrite <- app_assoc|].
      split.
      { unfold totalsAre in *. apply Forall_app. split; [exact Htot|].
        apply Forall_app. split; [exact Hs2|].
        constructor; [reflexivity | constructor]. }
      rewrite last_last.
      unfold processedOf, jobOf. rewrite store_broadcastMessage.
      cbn [withStore store]. unfold getTrackJob, setTrackJob. cbn [trackJobs].
      now rewrite map_get_set_same.
    + destruct Hh as [Hj Hwf].
      destruct (visitRows_trace n Hj Hwf) as (logs & Hlogs & Hshape).
      pose proof (visitRows_progressToCome n w Hwf) as Hcome.
      pose proof (processedOf_visitRows (job c) c rest n w) as Hsame.
      destruct (logs_carry_nothing Hlogs) as (Hl1 & _ & _ & Hl4).
      cbn [progressToCome] in *.
      destruct (visitRows c rest n w) as [t' w'] eqn:E. cbn [fst snd] in *.
      destruct t' as [c' rest' n' m' p' a' | | n' |]; try contradiction.
      * destruct Hshape as (-> & Hn & Hb').
        exists (ms ++ logs).
        split; [now rewrite Hb', Hb, <- app_assoc, sentBy_app|].
        rewrite currentsOf_app, Hl1, app_nil_r.
        split; [now rewrite Hcome|].
        split; [apply Forall_app; split; [exact Htot | apply Hl4]|].
        now rewrite Hsame.
      * destruct Hshape as (Hn & Hb').
        exists ((ms ++ logs) ++ [complete (completeText n')]).
        split; [now rewrite Hb', Hb, <- (app_assoc base), sentBy_app,
                  (app_assoc ms)|].
        rewrite !currentsOf_app, Hl1. cbn. rewrite !app_nil_r.
        split; [rewrite <- Hcome in Hexp; cbn in Hexp;
                now rewrite app_nil_r in Hexp|].
        split.
        { unfold totalsAre. apply Forall_app. split.
          - apply Forall_app. split; [exact Htot | apply Hl4].
          - constructor; [exact I | constructor]. }
        now rewrite Hsame.
    + exists ms. repeat split; assumption.
    + contradiction.
  - clear. intros t w req _ (Hctx & ms & Hb & Hexp & Htot & Hp).
    split; [exact Hctx|]. exists ms. rewrite processedOf_control.
    repeat split; assumption.
  - clear. intros t w d _ H. exact H.
Qed.

(** Both entry points enter the loop with the number of rows as total. *)
Lemma processFile_enters ext k first rest id d server w key :
  findMawb ext (map fst first) = Some key ->
  (k = Excel -> key <> []) ->
  processFile ext k (first :: rest) id d server w
  = beginLoop (mkCtx k id d server key (List.length (first :: rest)))
      (first :: rest) w.
Proof.
  intros Hkey Hne. destruct k; unfold processFile.
  - unfold processCSVFile. now rewrite Hkey.
  - unfold processExcelFile. rewrite Hkey. cbn [orEmpty].
    destruct key as [|u key]; [now contradiction Hne | reflexivity].
Qed.

(** A call sends the progress of exactly the rows whose identifier is
    looked up: each progress message carries the number of such a row
    and, as total, the number of rows of the file; the persisted
    processed count is the number of the last row that reported progress
    (what the job held before, if none has); and once the task has had
    its turns, every row that is looked up has reported, in row order.
    A row whose identifier does not split reports nothing. *)
Theorem progress_counts_rows_visited :
  forall (ext : Externals) (k : FileKind) (first : Record_)
         (rest : list Record_) (id : nat) (d : JsNumber) (server : bool)
         (w : World) (j : TrackJob.t) (turns : list Turn) (key : jsstring),
    let records := first :: rest in
    let c := mkCtx k id d server key (List.length records) in
    jobOf id w = Some j ->
    findMawb ext (map fst first) = Some key ->
    (k = Excel -> key <> []) ->
    wellFormed c records ->
    let final := run ext turns (processFile ext k records id d server w) in
    exists ms,
      broadcasts (snd final) = broadcasts w ++ sentBy c ms
      /\ (forall cur tot,
            In (progress cur tot) ms ->
            tot = List.length records /\ In cur (lookedUpRows c 0 records))
      /\ processedOf id (snd final)
         = Some (last (currentsOf ms) (TrackJob.processedCount j))
      /\ (2 * List.length records <= resumes turns ->
          currentsOf ms = lookedUpRows c 0 records).
Proof.
  intros ext k first rest id d server w j turns key records c Hj Hkey Hne Hwf
         final.
  assert (Henter : processFile ext k records id d server w
                   = beginLoop c records w)
    by exact (@processFile_enters ext k first rest id d server w key Hkey Hne).
  subst final. rewrite Henter. clear Henter.
  assert (Hex : jobExists (job c) w) by (unfold jobExists; cbn; congruence).
  set (w1 := withStore w (setTrackJob id (withStatus (now w) processing j)
                            (store w))).
  assert (Hh1 : healthy (AwaitDelay c records 0) w1).
  { split; [|exact Hwf]. unfold jobExists, jobOf. subst w1. cbn [withStore store].
    apply getTrackJob_setTrackJob. unfold jobOf, getTrackJob in *. cbn.
    congruence. }
  assert (Hrun : run ext turns (beginLoop c records w)
                 = run ext (Resume :: turns) (AwaitDelay c records 0, w1)).
  { unfold run. cbn [fold_left step].
    destruct (advanceBackground_healthy ext _ _ Hh1) as (-> & _).
    cbn [advance]. unfold beginLoop.
    now rewrite (updateTrackJobStatus_found (now w) (job c) processing
                   (store w) Hj). }
  destruct (@progress_invariant ext c (lookedUpRows c 0 records) (broadcasts w)
              (TrackJob.processedCount j) (Resume :: turns)
              (AwaitDelay c records 0) w1 Hh1 eq_refl)
    as (ms & Hb & Hexp & Htot & Hp).
  { exists []. split; [unfold sentBy; destruct (wss c); now rewrite app_nil_r|].
    split; [reflexivity|]. split; [constructor|].
    unfold processedOf, jobOf. subst w1. cbn [withStore store].
    unfold getTrackJob, setTrackJob. cbn [trackJobs].
    now rewrite map_get_set_same. }
  rewrite <- Hrun in *. exists ms.
  split; [exact Hb|]. split; [|split; [exact Hp|]].
  - intros cur tot Hin. split.
    + unfold totalsAre in Htot. rewrite Forall_forall in Htot.
      exact (Htot _ Hin).
    + rewrite <- Hexp. apply in_or_app. left. exact (In_currentsOf _ _ _ Hin).
  - intros Hturns.
    rewrite (@beginLoop_returns ext c records w turns Hex Hwf Hturns) in Hexp.
    cbn [progressToCome] in Hexp. now rewrite app_nil_r in Hexp.
Qed.

Lemma progress_counts_rows_visited_witness :
  jobOf 1 runningWorld = Some runningJob
  /\ findMawb stub (map fst (row "111-22222222")) = Some (lit "MAWB No")
  /\ wellFormed (mkCtx CSV 1 (Finite 100) true (lit "MAWB No") 3)
       [row "111-22222222"; row "bad"; row "333-44444444"]
  /\ lookedUpRows (mkCtx CSV 1 (Finite 100) true (lit "MAWB No") 3) 0
       [row "111-22222222"; row "bad"; row "333-44444444"]
     = [1; 3]
  /\ exists ms,
       broadcasts
         (snd (run (failingAt 1)
                 [Resume; control 1 pause; Resume; Resume; Resume; Resume; Resume]
                 (processFile (failingAt 1) CSV
                    [row "111-22222222"; row "bad"; row "333-44444444"]
                    1 (Finite 100) true runningWorld)))
       = map (mkBroadcast 1) ms
       /\ currentsOf ms = [1; 3]
       /\ processedOf 1
            (snd (run (failingAt 1)
                    [Resume; control 1 pause; Resume; Resume; Resume; Resume; Resume]
                    (processFile (failingAt 1) CSV
                       [row "111-22222222"; row "bad"; row "333-44444444"]
                       1 (Finite 100) true runningWorld)))
          = Some 3.
Proof.
  assert (Hwf : wellFormed (mkCtx CSV 1 (Finite 100) true (lit "MAWB No") 3)
                  [row "111-22222222"; row "bad"; row "333-44444444"]).
  { repeat constructor; eexists; reflexivity. }
  split; [reflexivity|]. split; [reflexivity|]. split; [exact Hwf|].
  split; [reflexivity|].
  destruct (@progress_counts_rows_visited (failingAt 1) CSV
              (row "111-22222222") [row "bad"; row "333-44444444"] 1
              (Finite 100) true runningWorld runningJob
              [Resume; control 1 pause; Resume; Resume; Resume; Resume; Resume]
              (lit "MAWB No") eq_refl eq_refl (fun H => ltac:(discriminate H))
              Hwf)
    as (ms & Hb & _ & Hp & Hall).
  exists ms. split; [exact Hb|].
  assert (Hcur : currentsOf ms = [1; 3]) by (apply Hall; vm_compute; lia).
  split; [exact Hcur|]. rewrite Hp, Hcur. reflexivity.
Defined.
